(** * VALDToTurbo.TurboSort: merging Turbospectrum line lists

    A shallow embedding of [TurboSort] (src/VALDToTurbo.py, lines 64-121)
    and of the Python primitives it calls, followed by the properties of
    the merge that the specification states and by further properties of
    the function: what the loop reads, when it ends, what it raises, and
    what a completed call has written.

    Conventions of the embedding:
    - a Python [str] is a [list ascii]; a character stands for a code point
      below 256, and strings are compared by code point, as Python does;
    - a Python [int] is a [Z];
    - a Python [list] is a [list]; indexing and slicing take [Z] indices and
      follow Python for negative and out-of-range values;
    - [atom_dict] is an association list in insertion order (a Python [dict]
      keeps insertion order, and [list(atom_dict.values())] exposes it);
    - an exception is a result [Raise e]; the [while] loop takes a bound on
      its number of iterations and answers [Timeout] when it is exhausted. *)

From Stdlib Require Import Ascii String.
From Stdlib Require Import List ZArith Lia Bool.
From Stdlib Require Import Sorted Permutation.
Import ListNotations.

Local Open Scope Z_scope.

(* ================================================================= *)
(** ** Outcomes: values, exceptions, exhausted loop bound *)

Inductive exn : Type :=
| IndexError   (* list index out of range *)
| ValueError   (* invalid literal for int() *)
| OSError.     (* os.listdir / open on a missing or unreadable path *)

Inductive outcome (A : Type) : Type :=
| Ok (a : A)
| Raise (e : exn)
| Timeout.

Arguments Ok {A} a.
Arguments Raise {A} e.
Arguments Timeout {A}.

Definition bind {A B : Type} (m : outcome A) (k : A -> outcome B) : outcome B :=
  match m with
  | Ok a => k a
  | Raise e => Raise e
  | Timeout => Timeout
  end.

Notation "x <- m ;; k" := (bind m (fun x => k))
  (at level 61, m at next level, right associativity).
Notation "' pat <- m ;; k" := (bind m (fun x => match x with pat => k end))
  (at level 61, pat pattern, m at next level, right associativity).

(* ================================================================= *)
(** ** Python strings *)

Definition str : Type := list ascii.

(** A literal. *)
Definition py (s : string) : str := list_ascii_of_string s.

(** The line terminator that [readlines] leaves at the end of a line. *)
Definition LF : ascii := "010"%char.
Definition CR : ascii := "013"%char.

(** A literal line, terminator included. *)
Definition ln (s : string) : str := py s ++ [LF].

Definition code (c : ascii) : N := N_of_ascii c.

(** [str.isspace] on one character, for code points below 256:
    TAB LF VT FF CR, FS GS RS US, SPACE, NEL and NBSP. *)
Definition isspace (c : ascii) : bool :=
  let n := code c in
  (((9 <=? n) && (n <=? 13)) || ((28 <=? n) && (n <=? 32))
   || (n =? 133) || (n =? 160))%N.

Definition isdigit (c : ascii) : bool :=
  let n := code c in ((48 <=? n) && (n <=? 57))%N.

(** [s.split()]: the maximal runs of non-whitespace characters, in order. *)
Fixpoint split (s : str) : list str :=
  match s with
  | [] => []
  | c :: s' =>
      if isspace c then split s'
      else match s' with
           | [] => [[c]]
           | c' :: _ =>
               if isspace c' then [c] :: split s'
               else match split s' with
                    | t :: ts => (c :: t) :: ts
                    | [] => [[c]]
                    end
           end
  end.

(** [int(s)] on a token (no surrounding whitespace): an optional sign, then
    decimal digits, single underscores allowed between digits.  The limit
    that recent interpreters put on the number of digits is left out. *)
Definition digit_value (c : ascii) : Z := Z.of_N (code c) - 48.

Fixpoint int_digits (acc : Z) (after_digit : bool) (s : str) : option Z :=
  match s with
  | [] => if after_digit then Some acc else None
  | c :: s' =>
      if isdigit c then int_digits (10 * acc + digit_value c) true s'
      else if Ascii.eqb c "_" && after_digit then int_digits acc false s'
      else None
  end.

Definition int (s : str) : outcome Z :=
  let signed (sign : Z) (body : str) :=
    match int_digits 0 false body with
    | Some n => Ok (sign * n)
    | None => Raise ValueError
    end in
  match s with
  | c :: s' =>
      if Ascii.eqb c "-" then signed (-1) s'
      else if Ascii.eqb c "+" then signed 1 s'
      else signed 1 s
  | [] => Raise ValueError
  end.

(** [str(n)] for an [int]: decimal digits, most significant first, with a
    leading minus sign for a negative number.  The recursion is bounded by
    the binary size of the number, which exceeds its number of digits. *)
Definition digit_char (d : Z) : ascii := ascii_of_N (Z.to_N (48 + d)).

Fixpoint digits_of (bound : nat) (n : Z) (acc : str) : str :=
  match bound with
  | O => acc
  | S bound' =>
      let acc' := digit_char (n mod 10) :: acc in
      if n <? 10 then acc' else digits_of bound' (n / 10) acc'
  end.

Definition str_nonneg (n : Z) : str :=
  digits_of (S (Z.to_nat (Z.log2 n))) n [].

Definition str_of_int (n : Z) : str :=
  if n <? 0 then "-"%char :: str_nonneg (- n) else str_nonneg n.

(** [s.startswith(p)]. *)
Fixpoint startswith (s p : str) {struct p} : bool :=
  match p, s with
  | [], _ => true
  | _ :: _, [] => false
  | a :: p', b :: s' => Ascii.eqb a b && startswith s' p'
  end.

(** [s.replace(old, new)]: every non-overlapping occurrence of [old], found
    from the left, becomes [new].  [skip] counts the characters of a matched
    occurrence that are still to be passed over.  With an empty [old],
    Python puts [new] before every character and at the end. *)
Fixpoint replace_from (skip : nat) (s old new : str) : str :=
  match s with
  | [] => []
  | c :: s' =>
      match skip with
      | S k => replace_from k s' old new
      | O =>
          if startswith s old
          then new ++ replace_from (length old - 1) s' old new
          else c :: replace_from 0 s' old new
      end
  end.

Definition replace (s old new : str) : str :=
  match old with
  | [] => flat_map (fun c => new ++ [c]) s ++ new
  | _ :: _ => replace_from 0 s old new
  end.

(** [sep.join(pieces)]. *)
Fixpoint join (sep : str) (pieces : list str) : str :=
  match pieces with
  | [] => []
  | [p] => p
  | p :: ps => p ++ sep ++ join sep ps
  end.

(** [old in s]. *)
Fixpoint contains (s old : str) : bool :=
  startswith s old ||
  match s with
  | [] => false
  | _ :: s' => contains s' old
  end.

(** Comparison of strings: lexicographic on code points. *)
Definition str_compare : str -> str -> comparison := list_compare Ascii.compare.

Definition str_leb (a b : str) : bool :=
  match str_compare a b with Gt => false | _ => true end.

Definition str_eqb (a b : str) : bool :=
  match str_compare a b with Eq => true | _ => false end.

(* ================================================================= *)
(** ** Python lists *)

Definition len {A : Type} (l : list A) : Z := Z.of_nat (length l).

(** [l[i]]. *)
Definition getitem {A : Type} (l : list A) (i : Z) : outcome A :=
  let j := if i <? 0 then i + len l else i in
  if j <? 0 then Raise IndexError
  else match nth_error l (Z.to_nat j) with
       | Some x => Ok x
       | None => Raise IndexError
       end.

(** A slice bound, as Python normalises it. *)
Definition clamp (n i : Z) : Z :=
  if i <? 0 then Z.max (i + n) 0 else Z.min i n.

(** [l[start:stop]]. *)
Definition slice {A : Type} (l : list A) (start stop : Z) : list A :=
  let s := clamp (len l) start in
  let e := clamp (len l) stop in
  firstn (Z.to_nat (e - s)) (skipn (Z.to_nat s) l).

(** [sorted(l)] for a total preorder given as a boolean test: insertion
    sort, stable as [list.sort] is. *)
Section Sort.
Context {A : Type} (leb : A -> A -> bool).

Fixpoint insert (x : A) (l : list A) : list A :=
  match l with
  | [] => [x]
  | y :: l' => if leb x y then x :: l else y :: insert x l'
  end.

Fixpoint sort (l : list A) : list A :=
  match l with
  | [] => []
  | x :: l' => insert x (sort l')
  end.
End Sort.

(** Comparison of lists of strings, as Python compares two lists. *)
Definition list_str_compare : list str -> list str -> comparison :=
  list_compare str_compare.

Definition list_str_leb (a b : list str) : bool :=
  match list_str_compare a b with Gt => false | _ => true end.

(** The two orders [TurboSort] sorts by. *)
Definition str_le (a b : str) : Prop := str_leb a b = true.
Definition list_str_le (a b : list str) : Prop := list_str_leb a b = true.

(* ================================================================= *)
(** ** The accumulator [atom_dict] *)

(** A value of [atom_dict]: the list [[header, atomic_sym, line, ...]]. *)
Definition entry : Type := list str.

(** [atom_dict], in insertion order. *)
Definition dict : Type := list (str * entry).

(** [atom_dict[k]] when [k in atom_dict.keys()]. *)
Fixpoint lookup (k : str) (d : dict) : option entry :=
  match d with
  | [] => None
  | (k', v) :: d' => if str_eqb k k' then Some v else lookup k d'
  end.

(** [atom_dict[k] = v]: an existing key keeps its place, a new key goes
    last. *)
Fixpoint setitem (k : str) (v : entry) (d : dict) : dict :=
  match d with
  | [] => [(k, v)]
  | (k', v') :: d' =>
      if str_eqb k k' then (k', v) :: d' else (k', v') :: setitem k v d'
  end.

(** [list(atom_dict.values())]. *)
Definition values (d : dict) : list entry := map snd d.

(* ================================================================= *)
(** ** One turn of the [while] loop (lines 78-108) *)

(** What lines 78-84 read at [file_line]. *)
Record block : Type := Block {
  header : str;
  atomic_sym : str;
  atomic_lines : Z;
  splice : list str
}.

(** [int(header.split()[4])]. *)
Definition declared_count (header : str) : outcome Z :=
  token <- getitem (split header) 4 ;;
  int token.

(** Lines 78-84: the block at [file_line] and the next value of
    [file_line]. *)
Definition read_block (lines : list str) (file_line : Z) : outcome (block * Z) :=
  let line_index := file_line - 1 in
  header <- getitem lines line_index ;;
  atomic_sym <- getitem lines (line_index + 1) ;;
  atomic_lines <- declared_count header ;;
  let start := line_index + 2 in
  let end_ := start + atomic_lines in
  let splice := slice lines start end_ in
  Ok (Block header atomic_sym atomic_lines splice, end_ + 1).

(** Lines 88-98: the header of a merged block, from the stored header, the
    count it declares and the new count. *)
Definition justify (end_line_updated : str) : str :=
  let n := length end_line_updated in
  if (10 <? n)%nat then skipn (n - 10) end_line_updated
  else if (n <? 10)%nat then repeat " "%char (10 - n) ++ end_line_updated
  else end_line_updated.

Definition rebuild_header (stored : str) (atomic_lines_previous atomic_lines : Z) : str :=
  let start_line := firstn 27 stored in
  let end_line_previous := skipn 27 stored in
  let end_line_updated :=
    replace end_line_previous
            (str_of_int atomic_lines_previous) (str_of_int atomic_lines) in
  start_line ++ justify end_line_updated.

(** Lines 85-108.  [stored[0]] is read and then assigned: an empty stored
    list raises [IndexError] at the read. *)
Definition accumulate (b : block) (atom_dict : dict) : outcome dict :=
  match lookup (atomic_sym b) atom_dict with
  | Some stored =>
      match stored with
      | [] => Raise IndexError
      | header0 :: rest =>
          atomic_lines_previous <- declared_count header0 ;;
          let atomic_lines := atomic_lines b + atomic_lines_previous in
          let header1 := rebuild_header header0 atomic_lines_previous atomic_lines in
          let extended := (header1 :: rest) ++ splice b in
          let temp := sort str_leb (skipn 2 extended) in
          Ok (setitem (atomic_sym b) (firstn 2 extended ++ temp) atom_dict)
      end
  | None =>
      Ok (setitem (atomic_sym b) (header b :: atomic_sym b :: splice b) atom_dict)
  end.

(** The [while] loop of lines 77-108 over one file, run for at most [fuel]
    turns. *)
Fixpoint walk (fuel : nat) (lines : list str) (file_line : Z) (atom_dict : dict)
  : outcome dict :=
  if file_line <? len lines then
    match fuel with
    | O => Timeout
    | S fuel' =>
        '(b, next) <- read_block lines file_line ;;
        atom_dict' <- accumulate b atom_dict ;;
        walk fuel' lines next atom_dict'
    end
  else Ok atom_dict.

(** Lines 110-117: the blocks in the order of [vals.sort()], flattened.
    (Line 113 builds a string and drops it.) *)
Definition output_lines (atom_dict : dict) : list str :=
  concat (sort list_str_leb (values atom_dict)).

(* ================================================================= *)
(** ** Files *)

(** What [TurboSort] sees of the file system, and what a write changes.
    [files p] is the decoded text of the file that the path [p] names,
    [None] where opening or reading it raises [OSError].  Two paths may
    name one file ([in/a.lst] and [./in/a.lst], a link and its target):
    [same_file p q] tells whether they do.  [created] are the paths at
    which files were written so far, the last one first, and
    [listing cs d] is what [os.listdir(d)] answers once files exist at the
    paths [cs], [None] where it raises [OSError]; the file system decides
    which names it lists and in which order. *)
Record world : Type := World {
  created : list str;
  listing : list str -> str -> option (list str);
  files : str -> option str;
  same_file : str -> str -> bool
}.

(** [os.listdir(d)]. *)
Definition listdir (w : world) (d : str) : option (list str) :=
  listing w (created w) d.

(** [os.path.join(a, b)] on a POSIX system. *)
Definition path_join (a b : str) : str :=
  match b with
  | "/"%char :: _ => b
  | _ =>
      match a with
      | [] => b
      | _ => if Ascii.eqb (last a "/"%char) "/" then a ++ b
             else a ++ "/"%char :: b
      end
  end.

(** Text mode reads with universal newlines: CR LF and a lone CR arrive
    as LF. *)
Fixpoint universal_newlines (s : str) : str :=
  match s with
  | [] => []
  | c :: s' =>
      if Ascii.eqb c CR then
        LF :: match s' with
              | c' :: s'' =>
                  if Ascii.eqb c' LF then universal_newlines s''
                  else universal_newlines s'
              | [] => []
              end
      else c :: universal_newlines s'
  end.

(** The lines of a text, each with its terminator (the last one may have
    none). *)
Fixpoint keepends (s : str) : list str :=
  match s with
  | [] => []
  | c :: s' =>
      if Ascii.eqb c LF then [c] :: keepends s'
      else match keepends s' with
           | l :: ls => (c :: l) :: ls
           | [] => [[c]]
           end
  end.

(** [fin.readlines()]. *)
Definition readlines (text : str) : list str :=
  keepends (universal_newlines text).

(** [open(path, "w")] followed by [write] of every line: the file that
    [path] names holds the lines, under every path that names it. *)
Definition write_lines (path : str) (lines : list str) (w : world) : world :=
  World (path :: created w)
        (listing w)
        (fun p => if str_eqb p path || same_file w p path
                  then Some (concat lines) else files w p)
        (same_file w).

(** Lines 73-108: the files of the folder, in the order of [os.listdir]. *)
Fixpoint read_folder (fuel : nat) (w : world) (input_folder : str)
  (names : list str) (atom_dict : dict) : outcome dict :=
  match names with
  | [] => Ok atom_dict
  | linelist :: names' =>
      match files w (path_join input_folder linelist) with
      | None => Raise OSError
      | Some text =>
          atom_dict' <- walk fuel (readlines text) 1 atom_dict ;;
          read_folder fuel w input_folder names' atom_dict'
      end
  end.

(** [TurboSort(input_folder, output_file)]: the outcome of the call and the
    file system it leaves. *)
Definition TurboSort (fuel : nat) (input_folder output_file : str) (w : world)
  : outcome unit * world :=
  match listdir w input_folder with
  | None => (Raise OSError, w)
  | Some names =>
      match read_folder fuel w input_folder names [] with
      | Ok atom_dict => (Ok tt, write_lines output_file (output_lines atom_dict) w)
      | Raise e => (Raise e, w)
      | Timeout => (Timeout, w)
      end
  end.

(* ================================================================= *)
(** ** Notions used to state the properties *)

(** [reads lines file_line bs file_line']: starting at [file_line], the
    loop of lines 77-84 reads the blocks [bs] one after the other and
    arrives at [file_line']. *)
Inductive reads (lines : list str) : Z -> list block -> Z -> Prop :=
| reads_here (file_line : Z) : reads lines file_line [] file_line
| reads_block (file_line next file_line' : Z) (b : block) (bs : list block) :
    file_line < len lines ->
    read_block lines file_line = Ok (b, next) ->
    reads lines next bs file_line' ->
    reads lines file_line (b :: bs) file_line'.

(** Lines 85-108 for a sequence of blocks. *)
Fixpoint accumulate_all (bs : list block) (atom_dict : dict) : outcome dict :=
  match bs with
  | [] => Ok atom_dict
  | b :: bs' =>
      atom_dict' <- accumulate b atom_dict ;;
      accumulate_all bs' atom_dict'
  end.

(** The value stored for a block seen for the first time. *)
Definition block_lines (b : block) : entry :=
  header b :: atomic_sym b :: splice b.

(** The lines of the stored blocks after their headers. *)
Definition tails (d : dict) : list str := concat (map (@tl str) (values d)).

(** [pieces] is what [s.split(old)] returns for [s = old.join(pieces)]:
    the occurrences of [old] between the pieces are the non-overlapping
    ones found from the left, and the last piece holds none. *)
Fixpoint leftmost_pieces (old : str) (pieces : list str) : bool :=
  match pieces with
  | [] => false
  | [p] => negb (contains p old)
  | p :: ps => negb (contains (p ++ removelast old) old) && leftmost_pieces old ps
  end.

(** The number read from digits, after the value [v] of the digits before
    them. *)
Definition digits_value (s : str) (v : Z) : Z :=
  fold_left (fun a c => 10 * a + digit_value c) s v.

(** The fixed layout that lines 88-98 assume: 27 characters that hold the
    tokens 0 to 3, then whitespace, the count [c] as token 4, and at most
    one whitespace character (the line terminator) after it. *)
Definition header_layout (h : str) (c : Z) : Prop :=
  exists start pad tail,
    h = start ++ pad ++ str_of_int c ++ tail /\
    length start = 27%nat /\
    length (split start) = 4%nat /\
    pad <> [] /\
    Forall (fun x => isspace x = true) pad /\
    Forall (fun x => isspace x = true) tail /\
    (length tail <= 1)%nat.

(** A block with such a header, and as many lines as it declares. *)
Definition block_ok (b : block) : Prop :=
  header_layout (header b) (atomic_lines b) /\ len (splice b) = atomic_lines b.

(** Every stored block is [[header, key, line, ...]] under its key, with
    such a header for the number of its lines. *)
Definition dict_counted (d : dict) : Prop :=
  forall k e, lookup k d = Some e ->
    exists h ls, e = h :: k :: ls /\ header_layout h (len ls).

(** No stored block has more than [n] lines. *)
Definition dict_within (d : dict) (n : Z) : Prop :=
  forall k h ls, lookup k d = Some (h :: k :: ls) -> len ls <= n.

(** The number of lines that the blocks declare together. *)
Definition total_lines (bs : list block) : Z :=
  fold_right (fun b n => atomic_lines b + n) 0 bs.

(** [bss] are the blocks of the files [names] of a folder, each file read
    to its end. *)
Definition folder_blocks (w : world) (folder : str)
  (names : list str) (bss : list (list block)) : Prop :=
  Forall2 (fun name bs =>
             exists text p,
               files w (path_join folder name) = Some text /\
               reads (readlines text) 1 bs p /\
               len (readlines text) <= p)
          names bss.

(* ================================================================= *)
(** ** Sample inputs *)

(** Headers: 27 characters with the tokens 0 to 3, then the count field.
    [wide_header] ends its first 27 characters with a space, which leaves
    room for a count of 10 digits. *)
Definition fe_header (count : string) : string :=
  ("'  26.0000           '    1" ++ count)%string.

Definition wide_header (count : string) : string :=
  ("'  26.0000           '   1 " ++ count)%string.

Definition li_header : str := ln "'   3.0000           '    1         1".

(** Keys. *)
Definition fe_key : str := ln "'Fe I   '".

Definition li_key : str := ln "'Li I   '".

(** Blocks as line 84 leaves them. *)
Definition fe_block_a : block :=
  Block (ln (fe_header "         2")) fe_key 2 [ln "5000.2 b"; ln "4000.1 a"].

Definition fe_block_b : block :=
  Block (ln (fe_header "         1")) fe_key 1 [ln "4500.3 c"].

Definition li_block : block := Block li_header li_key 1 [ln "6707.8 d"].

(** The accumulator after [fe_block_a]. *)
Definition dict_a : dict :=
  [(fe_key, [ln (fe_header "         2"); fe_key; ln "5000.2 b"; ln "4000.1 a"])].

(** A stored block whose header repeats the digit of its count in a
    further field. *)
Definition dict_two_fields : dict :=
  [(fe_key, [ln (fe_header "   1  1.5"); fe_key; ln "4500.3 c"])].

(** A stored block whose header holds 12 more characters after the count
    and a field that repeats its digit. *)
Definition dict_long_tail : dict :=
  [(fe_key, [ln (fe_header "   1  1.5   xxxxxxxxxxxx"); fe_key; ln "4500.3 c"])].

(** Texts of files.  [file_a] and [file_b] share the key ['Fe I   ']. *)
Definition file_a : str :=
  ln (fe_header "         2") ++ fe_key ++ ln "5000.2 b" ++ ln "4000.1 a".

Definition file_b : str :=
  ln (fe_header "         1") ++ fe_key ++ ln "4500.3 c"
  ++ li_header ++ li_key ++ ln "6707.8 d".

Definition file_one : str :=
  ln (fe_header "         1") ++ fe_key ++ ln "4500.3 c".

Definition file_li : str := li_header ++ li_key ++ ln "6707.8 d".

(** A header that declares many more lines than the file holds. *)
Definition file_big : str :=
  ln (wide_header "9999999999") ++ fe_key ++ ln "5000.2 b".

(** A header that declares 5 lines in a file that holds 2. *)
Definition file_truncated : str :=
  ln (fe_header "         5") ++ fe_key ++ ln "5000.2 b" ++ ln "4000.1 a".

(** A complete block followed by a last line with 3 tokens, where the
    next header would stand. *)
Definition file_dangling : str :=
  ln (fe_header "         1") ++ fe_key ++ ln "5000.2 b" ++ ln "'   3.0000           '".

(** A complete block followed by a header with 3 tokens and a key. *)
Definition file_short_header : str :=
  ln (fe_header "         1") ++ fe_key ++ ln "5000.2 b"
  ++ ln "'   3.0000           '" ++ li_key ++ ln "6707.8 d".

(** Two blocks under one key. *)
Definition file_twice : str :=
  ln (fe_header "         1") ++ fe_key ++ ln "5000.2 b"
  ++ ln (fe_header "         1") ++ fe_key ++ ln "4000.1 a".

(** A block under a header of 10 characters. *)
Definition file_narrow (line : string) : str :=
  ln "a b c d 1" ++ fe_key ++ ln line.

(** The lines of a file whose header declares -2 lines: line 84 sets
    [file_line] back to the header just read. *)
Definition file_negative : list str := [ln "a b c d -2"; fe_key].

(** The folder [in] with one file, and with two; every path is a file
    of its own. *)
Definition single_file (a : str) : world :=
  World []
        (fun _ d => if str_eqb d (py "in") then Some [py "a.lst"] else None)
        (fun p => if str_eqb p (py "in/a.lst") then Some a else None)
        (fun _ _ => false).

Definition folder_of (a b : str) : world :=
  World []
        (fun _ d => if str_eqb d (py "in") then Some [py "a.lst"; py "b.lst"] else None)
        (fun p => if str_eqb p (py "in/a.lst") then Some a
                  else if str_eqb p (py "in/b.lst") then Some b
                  else None)
        (fun _ _ => false).

Definition two_files : world := folder_of file_a file_b.

Definition overflow_files : world := folder_of file_big file_one.

Definition truncated_files : world := folder_of file_truncated file_one.

Definition narrow_files : world :=
  folder_of (file_narrow "5000.2 b") (file_narrow "4000.1 a").

(** A path without a leading [./]. *)
Definition strip_dot (p : str) : str :=
  match p with
  | "."%char :: "/"%char :: r => r
  | _ => p
  end.

(** The files of [narrow_files], where [./p] names the file that [p]
    names. *)
Definition dotted_files : world :=
  World []
        (listing narrow_files)
        (fun p => files narrow_files (strip_dot p))
        (fun p q => str_eqb (strip_dot p) (strip_dot q)).

(* ================================================================= *)
(** ** Notions used to state the further properties *)

(** A block that holds as many lines as its header declares. *)
Definition block_complete (b : block) : Prop :=
  declared_count (header b) = Ok (atomic_lines b) /\
  len (splice b) = atomic_lines b.

(** A small file of two complete blocks, as lines. *)
Definition two_blocks : list block := [fe_block_a; li_block].

(** A file of the folder that the loop can read a block from: one with at
    least two lines (or one that cannot be opened, which raises). *)
Definition has_block (w : world) (folder name : str) : bool :=
  match files w (path_join folder name) with
  | Some text => 1 <? len (readlines text)
  | None => true
  end.

(** A header that declares its count with a decimal point, and one that
    declares -2 lines, each followed by a key. *)
Definition file_float_count : str :=
  ln "'  26.0000           '    1      2.00" ++ fe_key ++ ln "5000.2 b".

Definition file_minus_two : str :=
  ln "'  26.0000           '    1        -2" ++ fe_key ++ ln "5000.2 b".

(** The lines read under the key [k], in the order of reading. *)
Definition lines_read (k : str) (bs : list block) : list str :=
  flat_map splice (filter (fun b => str_eqb (atomic_sym b) k) bs).

(** The second line of a block of the output. *)
Definition key_of (e : entry) : str := nth 1 e [].

(** The accumulator holds one block for each key of [bs], with the lines
    read under this key, and nothing else. *)
Definition dict_merges (d : dict) (bs : list block) : Prop :=
  forall k,
    match lookup k d with
    | Some e => exists h ls,
        e = h :: k :: ls /\ Permutation (lines_read k bs) ls /\
        In k (map atomic_sym bs)
    | None => ~ In k (map atomic_sym bs)
    end.

(** A character other than the two line terminators. *)
Definition plain (c : ascii) : bool :=
  negb (Ascii.eqb c LF) && negb (Ascii.eqb c CR).

(** A line with its terminator: LF at its end, no LF and no CR before. *)
Fixpoint terminated (l : str) : bool :=
  match l with
  | [] => false
  | c :: l' =>
      match l' with
      | [] => Ascii.eqb c LF
      | _ :: _ => plain c && terminated l'
      end
  end.

(** Every line of every stored block has its terminator. *)
Definition dict_terminated (d : dict) : Prop :=
  forall k e, lookup k d = Some e -> forallb terminated e = true.

(** What lines 78-84 make of the lines of a stored block. *)
Definition block_of (e : entry) : block :=
  Block (nth 0 e []) (key_of e) (len (skipn 2 e)) (skipn 2 e).

(** A folder whose listing is one name, over the files of [w]. *)
Definition lone_file (name : str) (w : world) : world :=
  World [] (fun _ _ => Some [name]) (files w) (same_file w).

(** The header that lines 88-98 leave for the count [c] after the 27
    characters [start], when only spaces stand before the count: the count
    and the line feed, after spaces up to 10 characters. *)
Definition merged_header (start : str) (c : Z) : str :=
  start ++ repeat " "%char (9 - length (str_of_int c)) ++ str_of_int c ++ [LF].

(** A block as a fixed format writes it: 27 characters that hold the tokens
    0 to 3, spaces, the count and the line feed, then as many lines as the
    count says. *)
Definition block_spaced (b : block) : Prop :=
  exists n,
    header b
    = firstn 27 (header b) ++ repeat " "%char (S n)
      ++ str_of_int (atomic_lines b) ++ [LF] /\
    length (firstn 27 (header b)) = 27%nat /\
    length (split (firstn 27 (header b))) = 4%nat /\
    len (splice b) = atomic_lines b.

(** Headers under one key start with the same 27 characters. *)
Definition same_prefix (bs : list block) : Prop :=
  forall b b', In b bs -> In b' bs -> atomic_sym b = atomic_sym b' ->
    firstn 27 (header b) = firstn 27 (header b').

(** The blocks read under the key [k], in the order of reading. *)
Definition under (k : str) (bs : list block) : list block :=
  filter (fun b => str_eqb (atomic_sym b) k) bs.

(** What the accumulator holds under [k] once the blocks [g] were read
    under this key. *)
Definition merged (k : str) (g : list block) : option entry :=
  match g with
  | [] => None
  | [b] => Some (block_lines b)
  | b :: _ :: _ =>
      Some (merged_header (firstn 27 (header b)) (total_lines g)
              :: k :: sort str_leb (flat_map splice g))
  end.

(** The accumulator after the blocks [bs], key by key. *)
Definition dict_merged (d : dict) (bs : list block) : Prop :=
  forall k, lookup k d = merged k (under k bs).

(** The folder of [two_files], listed in the other order. *)
Definition two_files_reversed : world :=
  World []
        (fun _ d => if str_eqb d (py "in") then Some [py "b.lst"; py "a.lst"] else None)
        (files two_files) (same_file two_files).

(** Two files with one block each under the same key, the headers
    differing in token 3. *)
Definition file_other_prefix : str :=
  ln "'  26.0000           '    2         1" ++ fe_key ++ ln "4500.3 c".

Definition prefix_files : world := folder_of file_one file_other_prefix.

Definition prefix_files_reversed : world :=
  World []
        (fun _ d => if str_eqb d (py "in") then Some [py "b.lst"; py "a.lst"] else None)
        (files prefix_files) (same_file prefix_files).

(* ################################################################# *)
(** * Properties *)

(* ================================================================= *)
(** ** The model on sample inputs *)

Example split_header :
  split (ln "'  26.0000           '    1       312")
  = [py "'"; py "26.0000"; py "'"; py "1"; py "312"].
Proof. reflexivity. Qed.

Example int_examples :
  int (py "312") = Ok 312 /\ int (py "-7") = Ok (-7) /\ int (py "+1_000") = Ok 1000
  /\ int (py "0.00") = Raise ValueError /\ int (py "1__0") = Raise ValueError
  /\ int (py "12_") = Raise ValueError /\ int (py "") = Raise ValueError.
Proof. repeat split; reflexivity. Qed.

Example str_examples :
  str_of_int 0 = py "0" /\ str_of_int 312 = py "312"
  /\ str_of_int (-45) = py "-45" /\ str_of_int 10000000000 = py "10000000000".
Proof. repeat split; reflexivity. Qed.

Example replace_examples :
  replace (py "  12 112") (py "12") (py "7") = py "  7 17"
  /\ replace (py "aaa") (py "aa") (py "b") = py "ba"
  /\ replace (py "ab") [] (py "-") = py "-a-b-".
Proof. repeat split; reflexivity. Qed.

Example slice_examples :
  slice [1; 2; 3; 4; 5] 2 9 = [3; 4; 5] /\ slice [1; 2; 3; 4; 5] 2 (-1) = [3; 4]
  /\ slice [1; 2; 3; 4; 5] 4 2 = [] /\ getitem [1; 2; 3] (-1) = Ok 3
  /\ getitem [1; 2; 3] 3 = Raise IndexError /\ getitem [1; 2; 3] (-4) = Raise IndexError.
Proof. repeat split; reflexivity. Qed.

Example readlines_example :
  readlines (py "ab" ++ [CR; LF] ++ py "cd" ++ [LF] ++ py "e")
  = [ln "ab"; ln "cd"; py "e"].
Proof. reflexivity. Qed.

Example negative_count_loops : walk 50 file_negative 1 [] = Timeout.
Proof. vm_compute. reflexivity. Qed.

Example TurboSort_two_files :
  let (r, w') := TurboSort 10 (py "in") (py "out.lst") two_files in
  r = Ok tt /\
  option_map readlines (files w' (py "out.lst"))
  = Some [ li_header; li_key; ln "6707.8 d";
           ln (fe_header "        3"); fe_key;
           ln "4000.1 a"; ln "4500.3 c"; ln "5000.2 b" ].
Proof. vm_compute. split; reflexivity. Qed.

(* ================================================================= *)
(** ** Outcomes *)

Lemma bind_Ok {A B : Type} (m : outcome A) (k : A -> outcome B) (b : B) :
  bind m k = Ok b -> exists a, m = Ok a /\ k a = Ok b.
Proof. destruct m as [a| |]; simpl; intros H; try discriminate. eauto. Qed.

Ltac invert_bind H :=
  let x := fresh "x" in
  let Hx := fresh "Hx" in
  apply bind_Ok in H; destruct H as (x & Hx & H).

Lemma bind_ret {A : Type} (m : outcome A) : bind m Ok = m.
Proof. now destruct m. Qed.

(* ================================================================= *)
(** ** Order on strings and on lists of strings *)

Lemma ascii_compare_eq (a b : ascii) : Ascii.compare a b = Eq <-> a = b.
Proof.
  split.
  - apply Ascii.compare_eq_iff.
  - intros ->. apply N.compare_refl.
Qed.

Lemma ascii_compare_opp (a b : ascii) :
  Ascii.compare b a = CompOpp (Ascii.compare a b).
Proof. apply Ascii.compare_antisym. Qed.

Lemma str_compare_eq (a b : str) : str_compare a b = Eq <-> a = b.
Proof. apply list_compare_refl, ascii_compare_eq. Qed.

Lemma str_compare_opp (a b : str) :
  str_compare b a = CompOpp (str_compare a b).
Proof.
  apply list_compare_antisym.
  - apply ascii_compare_eq.
  - apply ascii_compare_opp.
Qed.

Lemma str_eqb_eq (a b : str) : str_eqb a b = true <-> a = b.
Proof.
  unfold str_eqb. rewrite <- str_compare_eq.
  destruct (str_compare a b); split; congruence.
Qed.

Lemma str_eqb_refl (a : str) : str_eqb a a = true.
Proof. now apply str_eqb_eq. Qed.

Lemma str_eqb_neq (a b : str) : str_eqb a b = false <-> a <> b.
Proof.
  rewrite <- str_eqb_eq. destruct (str_eqb a b); split; congruence.
Qed.

Lemma str_leb_total (a b : str) : str_leb a b = false -> str_leb b a = true.
Proof.
  unfold str_leb. rewrite (str_compare_opp a b).
  destruct (str_compare a b); simpl; congruence.
Qed.

Lemma list_str_compare_eq (a b : list str) : list_str_compare a b = Eq <-> a = b.
Proof. apply list_compare_refl, str_compare_eq. Qed.

Lemma list_str_compare_opp (a b : list str) :
  list_str_compare b a = CompOpp (list_str_compare a b).
Proof.
  apply list_compare_antisym.
  - apply str_compare_eq.
  - apply str_compare_opp.
Qed.

Lemma list_str_leb_total (a b : list str) :
  list_str_leb a b = false -> list_str_leb b a = true.
Proof.
  unfold list_str_leb. rewrite (list_str_compare_opp a b).
  destruct (list_str_compare a b); simpl; congruence.
Qed.

Section CompareFacts.
Context {A : Type} (cmp : A -> A -> comparison).
Hypothesis cmp_eq : forall x y, cmp x y = Eq <-> x = y.
Hypothesis cmp_trans : forall x y z c, cmp x y = c -> cmp y z = c -> cmp x z = c.

Let leb (x y : A) : bool := match cmp x y with Gt => false | _ => true end.

Lemma leb_of_cmp_trans (x y z : A) :
  leb x y = true -> leb y z = true -> leb x z = true.
Proof.
  unfold leb. intros Hxy Hyz.
  destruct (cmp x y) eqn:Exy; try discriminate.
  - apply cmp_eq in Exy. now subst y.
  - destruct (cmp y z) eqn:Eyz; try discriminate.
    + apply cmp_eq in Eyz. subst z. now rewrite Exy.
    + now rewrite (cmp_trans x y z Lt Exy Eyz).
Qed.

End CompareFacts.

Lemma ascii_compare_trans (x y z : ascii) (c : comparison) :
  Ascii.compare x y = c -> Ascii.compare y z = c -> Ascii.compare x z = c.
Proof.
  unfold Ascii.compare. destruct c; intros Hxy Hyz.
  - apply N.compare_eq_iff in Hxy, Hyz. apply N.compare_eq_iff. congruence.
  - rewrite N.compare_lt_iff in *. eapply N.lt_trans; eassumption.
  - rewrite N.compare_gt_iff in *. eapply N.lt_trans; eassumption.
Qed.

Lemma str_compare_trans (x y z : str) (c : comparison) :
  str_compare x y = c -> str_compare y z = c -> str_compare x z = c.
Proof.
  apply list_compare_trans.
  - apply ascii_compare_eq.
  - apply ascii_compare_trans.
  - apply ascii_compare_opp.
Qed.

Lemma list_str_compare_trans (x y z : list str) (c : comparison) :
  list_str_compare x y = c -> list_str_compare y z = c -> list_str_compare x z = c.
Proof.
  apply list_compare_trans.
  - apply str_compare_eq.
  - apply str_compare_trans.
  - apply str_compare_opp.
Qed.

Lemma str_le_trans (x y z : str) : str_le x y -> str_le y z -> str_le x z.
Proof. apply (leb_of_cmp_trans str_compare str_compare_eq str_compare_trans). Qed.

Lemma list_str_le_trans (x y z : list str) :
  list_str_le x y -> list_str_le y z -> list_str_le x z.
Proof.
  apply (leb_of_cmp_trans list_str_compare list_str_compare_eq list_str_compare_trans).
Qed.

(** Two blocks compare by header first, by key when the headers are equal,
    and by their lines when both are. *)
Lemma block_order (h1 k1 h2 k2 : str) (l1 l2 : list str) :
  list_str_le (h1 :: k1 :: l1) (h2 :: k2 :: l2) <->
  str_compare h1 h2 = Lt \/
  (h1 = h2 /\ (str_compare k1 k2 = Lt \/ (k1 = k2 /\ list_str_le l1 l2))).
Proof.
  unfold list_str_le, list_str_leb, list_str_compare. simpl.
  pose proof (str_compare_eq h1 h2) as Hh.
  pose proof (str_compare_eq k1 k2) as Hk.
  destruct (str_compare h1 h2).
  - destruct (str_compare k1 k2); split; intros H.
    + right. split; [now apply Hh|]. right. split; [now apply Hk|trivial].
    + destruct H as [H|(_ & [H|(_ & H)])]; try discriminate. trivial.
    + right. split; [now apply Hh|]. now left.
    + reflexivity.
    + discriminate.
    + destruct H as [H|(_ & [H|(H & _)])]; try discriminate.
      apply Hk in H. discriminate.
  - split; intros H; [now left|reflexivity].
  - split; intros H; [discriminate|].
    destruct H as [H|(H & _)]; [discriminate|]. apply Hh in H. discriminate.
Qed.

(* ================================================================= *)
(** ** Sorting *)

Section SortFacts.
Context {A : Type} (leb : A -> A -> bool).
Hypothesis leb_total : forall x y, leb x y = false -> leb y x = true.

Let le (x y : A) : Prop := leb x y = true.

Lemma insert_perm (x : A) (l : list A) : Permutation (x :: l) (insert leb x l).
Proof.
  induction l as [|y l IH]; simpl.
  - apply Permutation_refl.
  - destruct (leb x y).
    + apply Permutation_refl.
    + eapply perm_trans; [apply perm_swap | apply perm_skip, IH].
Qed.

Lemma sort_perm (l : list A) : Permutation l (sort leb l).
Proof.
  induction l as [|x l IH]; simpl.
  - apply perm_nil.
  - eapply perm_trans; [apply perm_skip, IH | apply insert_perm].
Qed.

Lemma sort_length (l : list A) : length (sort leb l) = length l.
Proof. symmetry. apply Permutation_length, sort_perm. Qed.

Lemma insert_hdrel (a x : A) (l : list A) :
  le a x -> HdRel le a l -> HdRel le a (insert leb x l).
Proof.
  intros Hax Hal. destruct l as [|y l]; simpl.
  - now constructor.
  - destruct (leb x y); constructor; trivial.
    now inversion Hal.
Qed.

Lemma insert_sorted (x : A) (l : list A) :
  Sorted le l -> Sorted le (insert leb x l).
Proof.
  induction 1 as [|y l Hl IH Hy]; simpl.
  - repeat constructor.
  - destruct (leb x y) eqn:Hxy.
    + repeat constructor; trivial.
    + constructor; trivial.
      apply insert_hdrel; trivial. now apply leb_total.
Qed.

Lemma sort_sorted (l : list A) : Sorted le (sort leb l).
Proof.
  induction l as [|x l IH]; simpl.
  - constructor.
  - now apply insert_sorted.
Qed.

(** Sorting a sorted list changes nothing. *)
Lemma sort_of_sorted (l : list A) : Sorted le l -> sort leb l = l.
Proof.
  induction 1 as [|x l Hl IH Hx]; simpl; trivial.
  rewrite IH. destruct Hx as [|y l Hxy]; simpl; trivial.
  unfold le in Hxy. now rewrite Hxy.
Qed.

Lemma sort_idempotent (l : list A) : sort leb (sort leb l) = sort leb l.
Proof. apply sort_of_sorted, sort_sorted. Qed.

End SortFacts.

Lemma sort_blocks_sorted (vals : list entry) :
  StronglySorted list_str_le (sort list_str_leb vals).
Proof.
  apply Sorted_StronglySorted.
  - intros x y z. apply list_str_le_trans.
  - apply (sort_sorted list_str_leb list_str_leb_total).
Qed.

(* ================================================================= *)
(** ** Python lists *)

Lemma len_nonneg {A : Type} (l : list A) : 0 <= len l.
Proof. unfold len. lia. Qed.

Lemma len_app {A : Type} (l l' : list A) : len (l ++ l') = len l + len l'.
Proof. unfold len. rewrite length_app. lia. Qed.

Lemma len_sort (l : list str) : len (sort str_leb l) = len l.
Proof. unfold len. now rewrite sort_length. Qed.

Lemma getitem_nth {A : Type} (l : list A) (i : Z) (x : A) :
  0 <= i -> (getitem l i = Ok x <-> nth_error l (Z.to_nat i) = Some x).
Proof.
  intros Hi. unfold getitem.
  destruct (i <? 0) eqn:E; [lia|]. rewrite E.
  destruct (nth_error l (Z.to_nat i)); split; congruence.
Qed.

Lemma getitem_raises {A : Type} (l : list A) (i : Z) :
  (exists x, getitem l i = Ok x) \/ getitem l i = Raise IndexError.
Proof.
  unfold getitem. destruct (_ <? 0); [now right|].
  destruct (nth_error _ _); eauto.
Qed.

Lemma getitem_short {A : Type} (l : list A) (i : Z) :
  len l <= i -> getitem l i = Raise IndexError.
Proof.
  intros H. pose proof (len_nonneg l). unfold getitem.
  destruct (i <? 0) eqn:E; [lia|]. rewrite E.
  destruct (nth_error l (Z.to_nat i)) eqn:N; trivial.
  assert (nth_error l (Z.to_nat i) <> None) as Hn by congruence.
  apply nth_error_Some in Hn. unfold len in H. lia.
Qed.

(** A slice that starts inside the list and ends beyond it is the rest of
    the list. *)
Lemma slice_to_end {A : Type} (l : list A) (start stop : Z) :
  0 <= start <= len l -> len l <= stop ->
  slice l start stop = skipn (Z.to_nat start) l.
Proof.
  intros Hs He. unfold slice, clamp.
  destruct (start <? 0) eqn:E1; [lia|].
  destruct (stop <? 0) eqn:E2; [lia|].
  rewrite (Z.min_l start), (Z.min_r stop) by lia.
  apply firstn_all2. rewrite length_skipn. unfold len in *. lia.
Qed.

(** A slice that lies inside the list. *)
Lemma slice_inside {A : Type} (l : list A) (start stop : Z) :
  0 <= start <= stop -> stop <= len l ->
  slice l start stop = firstn (Z.to_nat (stop - start)) (skipn (Z.to_nat start) l).
Proof.
  intros Hs He. unfold slice, clamp.
  destruct (start <? 0) eqn:E1; [lia|].
  destruct (stop <? 0) eqn:E2; [lia|].
  now rewrite (Z.min_l start), (Z.min_l stop) by lia.
Qed.

Lemma NoDup_app_disjoint {A : Type} (l l' : list A) (a : A) :
  NoDup (l ++ l') -> In a l -> ~ In a l'.
Proof.
  induction l as [|x l IH]; simpl; intros Hnd Hin Hin'; [tauto|].
  inversion_clear Hnd as [|? ? Hx Hnd'].
  destruct Hin as [->|Hin].
  - apply Hx, in_or_app. now right.
  - now apply IH.
Qed.

(* ================================================================= *)
(** ** [str.replace] *)

Lemma startswith_app (p s : str) : startswith (p ++ s) p = true.
Proof.
  induction p as [|a p IH]; simpl; trivial.
  now rewrite Ascii.eqb_refl, IH.
Qed.

Lemma startswith_short (s p : str) :
  (length s < length p)%nat -> startswith s p = false.
Proof.
  revert s. induction p as [|a p IH]; intros [|b s]; simpl; intros H; try lia; trivial.
  rewrite IH by lia. apply andb_false_r.
Qed.

(** Only the first [length p] characters matter. *)
Lemma startswith_app_long (s t p : str) :
  (length p <= length s)%nat -> startswith (s ++ t) p = startswith s p.
Proof.
  revert s. induction p as [|a p IH]; intros [|b s]; simpl; intros H; try lia; trivial.
  now rewrite IH by lia.
Qed.

Lemma contains_short (s old : str) :
  (length s < length old)%nat -> contains s old = false.
Proof.
  induction s as [|c s IH]; intros H; simpl in *.
  - destruct old; simpl in *; [lia|trivial].
  - rewrite IH by lia. rewrite orb_false_r.
    apply (startswith_short (c :: s)). simpl. lia.
Qed.

Lemma contains_nil (old : str) : old <> [] -> contains [] old = false.
Proof. destruct old; [congruence|reflexivity]. Qed.

Lemma replace_from_skip (k : nat) (s old new : str) :
  replace_from k s old new = replace_from 0 (skipn k s) old new.
Proof.
  revert k. induction s as [|c s IH]; intros [|k]; simpl; trivial.
Qed.

Lemma replace_from_hit (old rest new : str) :
  old <> [] ->
  replace_from 0 (old ++ rest) old new = new ++ replace_from 0 rest old new.
Proof.
  destruct old as [|c old']; [congruence|]. intros _.
  change ((c :: old') ++ rest) with (c :: (old' ++ rest)).
  cbn [replace_from].
  change (c :: old' ++ rest) with ((c :: old') ++ rest).
  rewrite startswith_app. f_equal.
  rewrite replace_from_skip. f_equal. simpl.
  rewrite Nat.sub_0_r. now rewrite skipn_app, skipn_all, Nat.sub_diag.
Qed.

Lemma length_removelast (l : str) :
  l <> [] -> S (length (removelast l)) = length l.
Proof.
  intros H. rewrite removelast_firstn_len, length_firstn.
  destruct l; [congruence|simpl; lia].
Qed.

Lemma replace_from_miss (s old new : str) :
  contains s old = false -> replace_from 0 s old new = s.
Proof.
  induction s as [|c s IH]; simpl; trivial.
  intros H. apply orb_false_iff in H. destruct H as [H1 H2].
  rewrite H1. f_equal. now apply IH.
Qed.

(** The first occurrence of [old] is replaced and the scan resumes after
    it. *)
Lemma replace_from_first (a old rest new : str) :
  old <> [] ->
  contains (a ++ removelast old) old = false ->
  replace_from 0 (a ++ old ++ rest) old new
  = a ++ new ++ replace_from 0 rest old new.
Proof.
  intros Hold. induction a as [|c a IH]; intros H.
  - simpl. now apply replace_from_hit.
  - change ((c :: a) ++ removelast old) with (c :: (a ++ removelast old)) in H.
    cbn [contains] in H. apply orb_false_iff in H. destruct H as [H1 H2].
    change ((c :: a) ++ old ++ rest) with (c :: (a ++ old ++ rest)).
    cbn [replace_from].
    assert (Hs : startswith (c :: a ++ old ++ rest) old = false).
    { rewrite (app_removelast_last "000"%char Hold) at 1.
      rewrite <- app_assoc.
      change (c :: a ++ removelast old ++ ?x) with ((c :: a) ++ removelast old ++ x).
      rewrite (app_assoc (c :: a)), startswith_app_long; trivial.
      pose proof (length_removelast old Hold).
      rewrite length_app. simpl. lia. }
    rewrite Hs. simpl. f_equal. now apply IH.
Qed.

Lemma replace_join (old new : str) (pieces : list str) :
  old <> [] ->
  leftmost_pieces old pieces = true ->
  replace (join old pieces) old new = join new pieces.
Proof.
  intros Hold Hp.
  assert (E : replace (join old pieces) old new
              = replace_from 0 (join old pieces) old new).
  { unfold replace. destruct old; [congruence|reflexivity]. }
  rewrite E. clear E.
  induction pieces as [|p ps IH]; [discriminate|].
  destruct ps as [|q ps].
  - simpl in *. apply replace_from_miss. now apply negb_true_iff.
  - change (leftmost_pieces old (p :: q :: ps))
      with (negb (contains (p ++ removelast old) old) && leftmost_pieces old (q :: ps))
      in Hp.
    apply andb_true_iff in Hp. destruct Hp as [Hp1 Hp2].
    change (join old (p :: q :: ps)) with (p ++ old ++ join old (q :: ps)).
    change (join new (p :: q :: ps)) with (p ++ new ++ join new (q :: ps)).
    rewrite replace_from_first; trivial.
    + now rewrite IH.
    + now apply negb_true_iff.
Qed.

(* ================================================================= *)
(** ** [str.split] *)

Lemma split_spaces (s : str) :
  Forall (fun c => isspace c = true) s -> split s = [].
Proof.
  induction 1 as [|c s Hc _ IH]; simpl; trivial. now rewrite Hc.
Qed.

Lemma split_leading_spaces (pad s : str) :
  Forall (fun c => isspace c = true) pad -> split (pad ++ s) = split s.
Proof.
  induction 1 as [|c pad Hc _ IH]; simpl; trivial. now rewrite Hc.
Qed.

Lemma split_nonempty (c : ascii) (s : str) :
  isspace c = false -> split (c :: s) <> [].
Proof.
  intros Hc. simpl. rewrite Hc.
  destruct s as [|c' s']; [discriminate|].
  destruct (isspace c'); [discriminate|].
  destruct (split (c' :: s')); discriminate.
Qed.

(** A whitespace character ends the token before it. *)
Lemma split_app_space (a b : str) (c : ascii) :
  isspace c = true -> split (a ++ c :: b) = split a ++ split b.
Proof.
  intros Hc. induction a as [|x a IH].
  - simpl. now rewrite Hc.
  - change ((x :: a) ++ c :: b) with (x :: (a ++ c :: b)).
    cbn [split]. destruct (isspace x) eqn:Hx; trivial.
    destruct a as [|y a].
    + simpl. now rewrite Hc.
    + change ((y :: a) ++ c :: b) with (y :: (a ++ c :: b)) in *.
      destruct (isspace y) eqn:Hy; cbv beta iota; rewrite ?Hy.
      * now rewrite IH.
      * rewrite IH.
        pose proof (split_nonempty y a Hy) as Hne.
        destruct (split (y :: a)); [congruence|reflexivity].
Qed.

Lemma split_token (tok : str) :
  tok <> [] -> Forall (fun c => isspace c = false) tok -> split tok = [tok].
Proof.
  intros Hne H. induction H as [|c tok Hc Htok IH]; [congruence|].
  simpl. rewrite Hc. destruct tok as [|c' tok']; trivial.
  inversion_clear Htok as [|? ? Hc' _]. rewrite Hc'.
  rewrite IH by discriminate. reflexivity.
Qed.

Lemma split_token_spaces (tok tail : str) :
  tok <> [] -> Forall (fun c => isspace c = false) tok ->
  Forall (fun c => isspace c = true) tail ->
  split (tok ++ tail) = [tok].
Proof.
  intros Hne Htok Htail. destruct Htail as [|c tail Hc Htail].
  - rewrite app_nil_r. now apply split_token.
  - rewrite split_app_space, split_token, split_spaces; trivial.
Qed.

(* ================================================================= *)
(** ** [int] and [str] of a count *)

Lemma isdigit_not_space (c : ascii) : isdigit c = true -> isspace c = false.
Proof.
  unfold isdigit, isspace. set (n := code c).
  intros H. apply andb_true_iff in H. destruct H as [H1 H2].
  apply N.leb_le in H1, H2.
  repeat match goal with
         | |- context [(?a <=? ?b)%N] => destruct (N.leb_spec a b)
         | |- context [(?a =? ?b)%N] => destruct (N.eqb_spec a b)
         end; simpl; trivial; lia.
Qed.

Lemma isdigit_digit_char (d : Z) : 0 <= d < 10 -> isdigit (digit_char d) = true.
Proof.
  intros H.
  assert (E : d = 0 \/ d = 1 \/ d = 2 \/ d = 3 \/ d = 4 \/ d = 5 \/ d = 6
              \/ d = 7 \/ d = 8 \/ d = 9) by lia.
  repeat (destruct E as [->|E]; [reflexivity|]). now subst d.
Qed.

Lemma digit_value_digit_char (d : Z) : 0 <= d < 10 -> digit_value (digit_char d) = d.
Proof.
  intros H.
  assert (E : d = 0 \/ d = 1 \/ d = 2 \/ d = 3 \/ d = 4 \/ d = 5 \/ d = 6
              \/ d = 7 \/ d = 8 \/ d = 9) by lia.
  repeat (destruct E as [->|E]; [reflexivity|]). now subst d.
Qed.

Lemma digits_of_digits (bound : nat) (n : Z) (acc : str) :
  Forall (fun c => isdigit c = true) acc ->
  Forall (fun c => isdigit c = true) (digits_of bound n acc).
Proof.
  revert n acc. induction bound as [|bound IH]; intros n acc Hacc; simpl; trivial.
  assert (H : Forall (fun c => isdigit c = true) (digit_char (n mod 10) :: acc)).
  { constructor; trivial. apply isdigit_digit_char. apply Z.mod_pos_bound. lia. }
  destruct (n <? 10); auto.
Qed.

Lemma digits_of_nonempty (bound : nat) (n : Z) (acc : str) :
  acc <> [] -> digits_of bound n acc <> [].
Proof.
  revert n acc. induction bound as [|bound IH]; intros n acc Hacc; simpl; trivial.
  destruct (n <? 10); [discriminate|]. apply IH. discriminate.
Qed.

Lemma str_nonneg_digits (n : Z) : Forall (fun c => isdigit c = true) (str_nonneg n).
Proof. apply digits_of_digits. constructor. Qed.

Lemma str_nonneg_nonempty (n : Z) : str_nonneg n <> [].
Proof.
  unfold str_nonneg. simpl. destruct (n <? 10); [discriminate|].
  apply digits_of_nonempty. discriminate.
Qed.

Lemma str_of_int_nonempty (n : Z) : str_of_int n <> [].
Proof.
  unfold str_of_int. destruct (n <? 0); [discriminate|apply str_nonneg_nonempty].
Qed.

Lemma str_of_int_no_space (n : Z) :
  Forall (fun c => isspace c = false) (str_of_int n).
Proof.
  assert (H : Forall (fun c => isspace c = false) (str_nonneg n) /\
              Forall (fun c => isspace c = false) (str_nonneg (- n))).
  { split; eapply Forall_impl; try apply str_nonneg_digits;
      intros c; apply isdigit_not_space. }
  unfold str_of_int. destruct (n <? 0); [|apply H].
  constructor; [reflexivity|apply H].
Qed.

Lemma int_digits_all (s : str) (acc : Z) (after : bool) :
  Forall (fun c => isdigit c = true) s -> s <> [] ->
  int_digits acc after s = Some (digits_value s acc).
Proof.
  intros H. revert acc after.
  induction H as [|c s Hc Hs IH]; intros acc after Hne; [congruence|].
  simpl. rewrite Hc. destruct s as [|c' s'].
  - reflexivity.
  - now rewrite IH.
Qed.

Lemma digits_value_app (s t : str) (v : Z) :
  digits_value (s ++ t) v = digits_value t (digits_value s v).
Proof. apply fold_left_app. Qed.

(** The digits written for [n] read back as [n]. *)
Lemma digits_of_value (bound : nat) :
  forall (n : Z) (acc : str),
    0 <= n < 2 ^ Z.of_nat bound ->
    exists ds,
      digits_of bound n acc = ds ++ acc /\
      forall v, digits_value ds v = v * 10 ^ len ds + n.
Proof.
  induction bound as [|bound IH]; intros n acc Hn.
  - exists []. split; trivial. intros v. simpl in *. unfold len. simpl. lia.
  - cbn [digits_of]. rewrite Nat2Z.inj_succ, Z.pow_succ_r in Hn by lia.
    pose proof (Z.mod_pos_bound n 10 ltac:(lia)) as Hmod.
    pose proof (Z.div_mod n 10 ltac:(lia)) as Hdiv.
    destruct (Z.ltb_spec n 10) as [Hlt|Hge].
    + exists [digit_char (n mod 10)]. split; trivial.
      intros v. unfold digits_value, len. cbn [fold_left length].
      rewrite digit_value_digit_char by lia.
      rewrite Z.mod_small by lia.
      change (Z.of_nat 1) with 1. rewrite Z.pow_1_r. lia.
    + destruct (IH (n / 10) (digit_char (n mod 10) :: acc)) as (ds & Hds & Hval).
      { split; [apply Z.div_pos; lia|].
        apply Z.div_lt_upper_bound; lia. }
      exists (ds ++ [digit_char (n mod 10)]). split.
      * now rewrite Hds, <- app_assoc.
      * intros v. rewrite digits_value_app, Hval.
        unfold digits_value at 1. cbn [fold_left].
        rewrite digit_value_digit_char by lia.
        unfold len. rewrite length_app. cbn [length].
        replace (Z.of_nat (length ds + 1)) with (Z.succ (Z.of_nat (length ds))) by lia.
        rewrite Z.pow_succ_r by lia. lia.
Qed.

Lemma int_digits_str_nonneg (n : Z) :
  0 <= n -> int_digits 0 false (str_nonneg n) = Some n.
Proof.
  intros Hn.
  rewrite int_digits_all by (apply str_nonneg_digits || apply str_nonneg_nonempty).
  f_equal. unfold str_nonneg.
  destruct (digits_of_value (S (Z.to_nat (Z.log2 n))) n []) as (ds & Hds & Hval).
  - split; trivial.
    pose proof (Z.log2_nonneg n).
    rewrite Nat2Z.inj_succ, Z2Nat.id by lia.
    destruct (Z.eq_dec n 0) as [->|Hne]; [reflexivity|].
    apply Z.log2_spec. lia.
  - rewrite Hds, app_nil_r, Hval. lia.
Qed.

(** [int(str(n)) == n]. *)
Lemma int_str_of_int (n : Z) : int (str_of_int n) = Ok n.
Proof.
  unfold str_of_int. destruct (Z.ltb_spec n 0) as [Hneg|Hpos].
  - unfold int. rewrite Ascii.eqb_refl.
    rewrite int_digits_str_nonneg by lia. f_equal. lia.
  - pose proof (str_nonneg_digits n) as Hd.
    pose proof (str_nonneg_nonempty n) as Hne.
    pose proof (int_digits_str_nonneg n Hpos) as Hi.
    destruct (str_nonneg n) as [|c s]; [congruence|].
    inversion_clear Hd as [|? ? Hc _].
    unfold int.
    destruct (Ascii.eqb_spec c "-") as [->|_]; [discriminate|].
    destruct (Ascii.eqb_spec c "+") as [->|_]; [discriminate|].
    rewrite Hi. f_equal. lia.
Qed.

Lemma digits_of_length (bound : nat) :
  forall (n : Z) (acc : str) (k : nat),
    0 <= n < 10 ^ Z.of_nat (S k) ->
    (length (digits_of bound n acc) <= S k + length acc)%nat.
Proof.
  induction bound as [|bound IH]; intros n acc k Hn; simpl; [lia|].
  destruct (Z.ltb_spec n 10) as [Hlt|Hge]; [simpl; lia|].
  destruct k as [|k]; [simpl in Hn; lia|].
  rewrite Nat2Z.inj_succ, Z.pow_succ_r in Hn by lia.
  specialize (IH (n / 10) (digit_char (n mod 10) :: acc) k).
  simpl in IH. rewrite IH; [lia|].
  split; [apply Z.div_pos; lia|].
  apply Z.div_lt_upper_bound; lia.
Qed.

Lemma str_of_int_length (n : Z) :
  0 <= n < 10 ^ 8 -> (length (str_of_int n) <= 8)%nat.
Proof.
  intros Hn. unfold str_of_int, str_nonneg.
  destruct (Z.ltb_spec n 0) as [Hneg|_]; [lia|].
  pose proof (digits_of_length (S (Z.to_nat (Z.log2 n))) n [] 7 Hn) as H.
  cbn [length] in H. lia.
Qed.

Lemma contains_after_spaces (pad r old : str) :
  Forall (fun c => isspace c = true) pad ->
  Forall (fun c => isspace c = false) old ->
  old <> [] ->
  contains (pad ++ r) old = contains r old.
Proof.
  intros Hpad Hold Hne. induction Hpad as [|c pad Hc Hpad IH]; simpl; trivial.
  rewrite IH. destruct old as [|o old']; [congruence|].
  inversion_clear Hold as [|? ? Ho _]. simpl.
  destruct (Ascii.eqb_spec o c) as [->|_]; [congruence|reflexivity].
Qed.

Lemma leftmost_pieces_padded (pad tail old : str) :
  Forall (fun c => isspace c = true) pad ->
  Forall (fun c => isspace c = true) tail ->
  Forall (fun c => isspace c = false) old ->
  old <> [] ->
  leftmost_pieces old [pad; tail] = true.
Proof.
  intros Hpad Htail Hold Hne. simpl.
  rewrite contains_after_spaces; trivial.
  rewrite contains_short.
  - rewrite <- (app_nil_r tail), contains_after_spaces, contains_nil; trivial.
  - pose proof (length_removelast old Hne). lia.
Qed.

(** A count between whitespace is replaced in place. *)
Lemma replace_padded (pad tail : str) (prev new : Z) :
  Forall (fun c => isspace c = true) pad ->
  Forall (fun c => isspace c = true) tail ->
  replace (pad ++ str_of_int prev ++ tail) (str_of_int prev) (str_of_int new)
  = pad ++ str_of_int new ++ tail.
Proof.
  intros Hpad Htail.
  apply (replace_join (str_of_int prev) (str_of_int new) [pad; tail]).
  - apply str_of_int_nonempty.
  - apply leftmost_pieces_padded; trivial.
    + apply str_of_int_no_space.
    + apply str_of_int_nonempty.
Qed.

(* ================================================================= *)
(** ** The accumulator *)

Lemma lookup_setitem_same (k : str) (v : entry) (d : dict) :
  lookup k (setitem k v d) = Some v.
Proof.
  induction d as [|[k' v'] d IH]; simpl.
  - now rewrite str_eqb_refl.
  - destruct (str_eqb k k') eqn:E; simpl; rewrite E; trivial.
Qed.

Lemma lookup_setitem_other (k k' : str) (v : entry) (d : dict) :
  k' <> k -> lookup k' (setitem k v d) = lookup k' d.
Proof.
  intros Hne. apply str_eqb_neq in Hne.
  induction d as [|[k0 v0] d IH]; simpl.
  - now rewrite Hne.
  - destruct (str_eqb k k0) eqn:E; simpl.
    + apply str_eqb_eq in E. subst k0. now rewrite Hne.
    + now rewrite IH.
Qed.

Lemma setitem_fresh (k : str) (v : entry) (d : dict) :
  lookup k d = None -> setitem k v d = d ++ [(k, v)].
Proof.
  induction d as [|[k' v'] d IH]; simpl; trivial.
  destruct (str_eqb k k'); [discriminate|].
  intros H. now rewrite IH.
Qed.

Lemma lookup_None (k : str) (d : dict) :
  lookup k d = None <-> ~ In k (map fst d).
Proof.
  induction d as [|[k' v] d IH]; simpl.
  - tauto.
  - destruct (str_eqb k k') eqn:E.
    + apply str_eqb_eq in E. split; [discriminate|]. intros H. exfalso. auto.
    + apply str_eqb_neq in E. rewrite IH. split; [|tauto].
      intros H [H'|H']; [congruence|tauto].
Qed.

Lemma in_tails (d : dict) (l : str) :
  In l (tails d) <-> exists k e, In (k, e) d /\ In l (tl e).
Proof.
  unfold tails, values. rewrite in_concat. split.
  - intros (t & Ht & Hl). rewrite map_map in Ht. apply in_map_iff in Ht.
    destruct Ht as ([k e] & <- & Hin). eauto.
  - intros (k & e & Hin & Hl). exists (tl e). split; trivial.
    rewrite map_map. apply in_map_iff. exists (k, e). auto.
Qed.

Lemma in_setitem_new (k : str) (v : entry) (d : dict) :
  exists k', In (k', v) (setitem k v d).
Proof.
  induction d as [|[k0 v0] d IH]; simpl.
  - eauto.
  - destruct (str_eqb k k0).
    + exists k0. now left.
    + destruct IH as [k' IH]. exists k'. now right.
Qed.

Lemma in_setitem_old (k : str) (v : entry) (d : dict) (k' : str) (e : entry) :
  In (k', e) d ->
  In (k', e) (setitem k v d) \/ lookup k d = Some e.
Proof.
  induction d as [|[k0 v0] d IH]; simpl; [tauto|].
  intros [H|H].
  - inversion H; subst. destruct (str_eqb k k'); simpl; auto.
  - destruct (str_eqb k k0) eqn:E; simpl.
    + left. now right.
    + destruct (IH H); auto.
Qed.

(* ================================================================= *)
(** ** The rebuilt header *)

Lemma justify_length (r : str) : length (justify r) = 10%nat.
Proof.
  unfold justify.
  destruct (Nat.ltb_spec 10 (length r)).
  - rewrite length_skipn. lia.
  - destruct (Nat.ltb_spec (length r) 10).
    + rewrite length_app, repeat_length. lia.
    + lia.
Qed.

Lemma justify_long (r : str) :
  (10 < length r)%nat -> justify r = skipn (length r - 10) r.
Proof.
  intros H. unfold justify.
  destruct (Nat.ltb_spec 10 (length r)); [reflexivity|lia].
Qed.

Lemma justify_short (r : str) :
  (length r < 10)%nat -> justify r = repeat " "%char (10 - length r) ++ r.
Proof.
  intros H. unfold justify.
  destruct (Nat.ltb_spec 10 (length r)); [lia|].
  destruct (Nat.ltb_spec (length r) 10); [reflexivity|lia].
Qed.

Lemma justify_exact (r : str) : length r = 10%nat -> justify r = r.
Proof.
  intros H. unfold justify.
  destruct (Nat.ltb_spec 10 (length r)); [lia|].
  destruct (Nat.ltb_spec (length r) 10); [lia|reflexivity].
Qed.

Lemma Forall_skipn_spaces (n : nat) (pad : str) :
  Forall (fun x => isspace x = true) pad ->
  Forall (fun x => isspace x = true) (skipn n pad).
Proof.
  intros H. rewrite <- (firstn_skipn n pad) in H.
  now apply Forall_app in H.
Qed.

Lemma Forall_repeat_space (n : nat) :
  Forall (fun x => isspace x = true) (repeat " "%char n).
Proof. induction n; simpl; constructor; trivial. Qed.

(** Cutting or padding to 10 characters only changes the padding, as long
    as the count and what follows it take at most 9. *)
Lemma justify_padded (pad tok tail : str) :
  pad <> [] -> Forall (fun x => isspace x = true) pad ->
  (length tok + length tail <= 9)%nat ->
  exists pad',
    pad' <> [] /\ Forall (fun x => isspace x = true) pad' /\
    justify (pad ++ tok ++ tail) = pad' ++ tok ++ tail.
Proof.
  intros Hne Hsp Hfit.
  assert (Hpos : (0 < length pad)%nat) by (destruct pad; [congruence|simpl; lia]).
  assert (Hlen : length (pad ++ tok ++ tail) = (length pad + (length tok + length tail))%nat)
    by now rewrite !length_app.
  destruct (Nat.lt_trichotomy (length (pad ++ tok ++ tail)) 10) as [Hlt|[Heq|Hgt]].
  - rewrite justify_short by trivial.
    exists (repeat " "%char (10 - length (pad ++ tok ++ tail)) ++ pad).
    split; [|split].
    + intros E. apply app_eq_nil in E. now destruct E.
    + apply Forall_app. split; [apply Forall_repeat_space|trivial].
    + now rewrite <- app_assoc.
  - rewrite justify_exact by trivial. exists pad. auto.
  - rewrite justify_long by trivial.
    exists (skipn (length (pad ++ tok ++ tail) - 10) pad). split; [|split].
    + intros E. apply (f_equal (@length ascii)) in E.
      rewrite length_skipn in E. simpl in E. lia.
    + now apply Forall_skipn_spaces.
    + rewrite skipn_app.
      replace (length (pad ++ tok ++ tail) - 10 - length pad)%nat with 0%nat by lia.
      reflexivity.
Qed.

Lemma layout_parts (start rest : str) :
  length start = 27%nat ->
  firstn 27 (start ++ rest) = start /\ skipn 27 (start ++ rest) = rest.
Proof.
  intros <-. split.
  - rewrite firstn_app, Nat.sub_diag, firstn_all. simpl. apply app_nil_r.
  - rewrite skipn_app, Nat.sub_diag, skipn_all. reflexivity.
Qed.

Lemma declared_count_short (h : str) :
  (length (split h) < 5)%nat -> declared_count h = Raise IndexError.
Proof.
  intros H. unfold declared_count. rewrite getitem_short; trivial.
  unfold len. lia.
Qed.

Lemma layout_declared_count (h : str) (c : Z) :
  header_layout h c -> declared_count h = Ok c.
Proof.
  intros (start & pad & tail & -> & Hlen & Htok & Hpad & Hsp & Htail & _).
  destruct pad as [|x pad]; [congruence|].
  inversion_clear Hsp as [|? ? Hx Hsp'].
  change ((x :: pad) ++ ?r) with (x :: (pad ++ r)).
  unfold declared_count.
  rewrite split_app_space, split_leading_spaces, split_token_spaces; trivial;
    try apply str_of_int_nonempty; try apply str_of_int_no_space.
  assert (E : getitem (split start ++ [str_of_int c]) 4 = Ok (str_of_int c)).
  { apply getitem_nth; [lia|].
    rewrite nth_error_app2 by (rewrite Htok; simpl; lia).
    rewrite Htok. reflexivity. }
  rewrite E. simpl. apply int_str_of_int.
Qed.

(** The header rebuilt for a new count below 10^8 has the layout again. *)
Lemma layout_rebuild (h : str) (c c' : Z) :
  header_layout h c -> 0 <= c' < 10 ^ 8 ->
  header_layout (rebuild_header h c c') c'.
Proof.
  intros (start & pad & tail & -> & Hlen & Htok & Hpad & Hsp & Htail & Hshort) Hc'.
  unfold rebuild_header.
  destruct (layout_parts start (pad ++ str_of_int c ++ tail) Hlen) as [-> ->].
  rewrite replace_padded by trivial.
  pose proof (str_of_int_length c' Hc') as Hdigits.
  destruct (justify_padded pad (str_of_int c') tail Hpad Hsp ltac:(lia))
    as (pad' & Hpad' & Hsp' & ->).
  exists start, pad', tail. repeat split; trivial.
Qed.

Lemma fe_header_layout (pad : string) (c : Z) :
  pad <> ""%string ->
  Forall (fun x => isspace x = true) (py pad) ->
  header_layout (py "'  26.0000           '    1" ++ py pad ++ str_of_int c ++ [LF]) c.
Proof.
  intros Hpad Hsp. exists (py "'  26.0000           '    1"), (py pad), [LF].
  split; [reflexivity|]. split; [reflexivity|]. split; [reflexivity|].
  split; [destruct pad; [congruence|discriminate]|].
  split; [exact Hsp|]. split; [repeat constructor|simpl; lia].
Qed.

Lemma li_header_layout : header_layout li_header 1.
Proof.
  exists (py "'   3.0000           '    1"), (py "         "), [LF].
  split; [reflexivity|]. split; [reflexivity|]. split; [reflexivity|].
  split; [discriminate|].
  split; [repeat constructor|]. split; [repeat constructor|simpl; lia].
Qed.

(* ================================================================= *)
(** ** One turn of the loop *)

Lemma accumulate_new (b : block) (d : dict) :
  lookup (atomic_sym b) d = None ->
  accumulate b d
  = Ok (setitem (atomic_sym b) (header b :: atomic_sym b :: splice b) d).
Proof. intros H. unfold accumulate. now rewrite H. Qed.

Lemma accumulate_merge (b : block) (d : dict) (h k : str) (ls : list str) (prev : Z) :
  lookup (atomic_sym b) d = Some (h :: k :: ls) ->
  declared_count h = Ok prev ->
  accumulate b d
  = Ok (setitem (atomic_sym b)
          (rebuild_header h prev (atomic_lines b + prev)
             :: k :: sort str_leb (ls ++ splice b)) d).
Proof.
  intros Hl Hc. unfold accumulate. rewrite Hl, Hc. reflexivity.
Qed.

Lemma accumulate_merge_inv (b : block) (d d' : dict) (h k : str) (ls : list str) :
  lookup (atomic_sym b) d = Some (h :: k :: ls) ->
  accumulate b d = Ok d' ->
  exists prev,
    declared_count h = Ok prev /\
    d' = setitem (atomic_sym b)
           (rebuild_header h prev (atomic_lines b + prev)
              :: k :: sort str_leb (ls ++ splice b)) d.
Proof.
  intros Hl Ha. unfold accumulate in Ha. rewrite Hl in Ha.
  invert_bind Ha. exists x. split; trivial.
  simpl in Ha. congruence.
Qed.

Lemma read_block_short_header (lines : list str) (p : Z) (h : str) :
  getitem lines (p - 1) = Ok h ->
  (length (split h) < 5)%nat ->
  read_block lines p = Raise IndexError.
Proof.
  intros Hh Hs. unfold read_block. rewrite Hh. simpl.
  destruct (getitem_raises lines (p - 1 + 1)) as [[k ->]| ->]; simpl; trivial.
  now rewrite declared_count_short.
Qed.

Lemma in_sort_tail (x : str) (e : entry) :
  In x (tl (firstn 2 e ++ sort str_leb (skipn 2 e))) <-> In x (tl e).
Proof.
  destruct e as [|h [|k ls]]; simpl; try tauto.
  split; intros [H|H]; auto; right.
  - eapply Permutation_in; [apply Permutation_sym, sort_perm|exact H].
  - eapply Permutation_in; [apply sort_perm|exact H].
Qed.

(** Merging a block keeps every line stored after a header and stores
    every line of the block. *)
Lemma accumulate_keeps (b : block) (d d' : dict) (l : str) :
  accumulate b d = Ok d' ->
  In l (tails d) \/ In l (splice b) -> In l (tails d').
Proof.
  unfold accumulate. intros Ha Hl.
  assert (Hset : forall v : entry,
            (forall e, lookup (atomic_sym b) d = Some e -> In l (tl e) -> In l (tl v)) ->
            (In l (splice b) -> In l (tl v)) ->
            In l (tails (setitem (atomic_sym b) v d))).
  { intros v Hold Hnew. rewrite in_tails.
    destruct (in_setitem_new (atomic_sym b) v d) as [k' Hk'].
    destruct Hl as [Hl|Hl]; [|eauto].
    apply in_tails in Hl. destruct Hl as (k & e & Hin & Hle).
    destruct (in_setitem_old (atomic_sym b) v d k e Hin) as [H|H]; eauto. }
  destruct (lookup (atomic_sym b) d) as [stored|] eqn:Hlook.
  - destruct stored as [|header0 rest]; [discriminate|].
    invert_bind Ha. injection Ha as <-. apply Hset.
    + intros e He Hle. injection He as <-.
      apply (in_sort_tail l ((rebuild_header header0 x (atomic_lines b + x) :: rest)
                             ++ splice b)).
      simpl. apply in_or_app. left. exact Hle.
    + intros Hs.
      apply (in_sort_tail l ((rebuild_header header0 x (atomic_lines b + x) :: rest)
                             ++ splice b)).
      simpl. apply in_or_app. right. exact Hs.
  - injection Ha as <-. apply Hset.
    + intros e He. discriminate.
    + intros Hs. simpl. now right.
Qed.

(** One block read into an accumulator of counted blocks. *)
Lemma accumulate_counted (b : block) (d : dict) (n : Z) :
  dict_counted d -> dict_within d n -> block_ok b ->
  0 <= n -> n + atomic_lines b < 10 ^ 8 ->
  exists d',
    accumulate b d = Ok d' /\
    dict_counted d' /\
    dict_within d' (n + atomic_lines b) /\
    forall e, lookup (atomic_sym b) d = Some e ->
      exists h ls h',
        e = h :: atomic_sym b :: ls /\
        declared_count h = Ok (len ls) /\
        lookup (atomic_sym b) d'
        = Some (h' :: atomic_sym b :: sort str_leb (ls ++ splice b)) /\
        len (sort str_leb (ls ++ splice b)) = len ls + atomic_lines b /\
        declared_count h' = Ok (len ls + atomic_lines b).
Proof.
  intros Hd Hn [Hlay Hcount] Hn0 Hfit.
  assert (Hc0 : 0 <= atomic_lines b) by (rewrite <- Hcount; apply len_nonneg).
  destruct (lookup (atomic_sym b) d) as [e|] eqn:Hlook.
  - destruct (Hd _ _ Hlook) as (h & ls & -> & Hh).
    pose proof (Hn _ _ _ Hlook) as Hls.
    pose proof (len_nonneg ls) as Hls0.
    assert (Hnew : header_layout
                     (rebuild_header h (len ls) (atomic_lines b + len ls))
                     (len (sort str_leb (ls ++ splice b)))).
    { rewrite len_sort, len_app, Hcount, Z.add_comm.
      apply layout_rebuild; trivial. lia. }
    eexists. split; [apply (accumulate_merge b d h _ ls (len ls) Hlook),
                       layout_declared_count, Hh|].
    split; [|split].
    + intros k e Hk.
      destruct (list_eq_dec ascii_dec k (atomic_sym b)) as [->|Hne].
      * rewrite lookup_setitem_same in Hk. injection Hk as <-. eauto.
      * rewrite lookup_setitem_other in Hk by trivial. eauto.
    + intros k h0 ls0 Hk.
      destruct (list_eq_dec ascii_dec k (atomic_sym b)) as [->|Hne].
      * rewrite lookup_setitem_same in Hk. injection Hk as _ <-.
        rewrite len_sort, len_app, Hcount. lia.
      * rewrite lookup_setitem_other in Hk by trivial.
        pose proof (Hn _ _ _ Hk). lia.
    + intros e He. injection He as <-.
      exists h, ls. eexists. split; [reflexivity|].
      split; [now apply layout_declared_count|].
      split; [apply lookup_setitem_same|].
      split; [rewrite len_sort, len_app; lia|].
      apply layout_declared_count.
      rewrite len_sort, len_app, Hcount in Hnew. exact Hnew.
  - eexists. split; [now apply accumulate_new|]. split; [|split].
    + intros k e Hk.
      destruct (list_eq_dec ascii_dec k (atomic_sym b)) as [->|Hne].
      * rewrite lookup_setitem_same in Hk. injection Hk as <-.
        do 2 eexists. split; [reflexivity|]. now rewrite Hcount.
      * rewrite lookup_setitem_other in Hk by trivial. eauto.
    + intros k h0 ls0 Hk.
      destruct (list_eq_dec ascii_dec k (atomic_sym b)) as [->|Hne].
      * rewrite lookup_setitem_same in Hk. injection Hk as _ <-. lia.
      * rewrite lookup_setitem_other in Hk by trivial.
        pose proof (Hn _ _ _ Hk). lia.
    + discriminate.
Qed.

(* ================================================================= *)
(** ** The loop over a file and over a folder *)

Lemma walk_done (fuel : nat) (lines : list str) (file_line : Z) (d : dict) :
  len lines <= file_line -> walk fuel lines file_line d = Ok d.
Proof.
  intros H. destruct fuel; simpl;
    destruct (file_line <? len lines) eqn:E; trivial; lia.
Qed.

Lemma walk_step (fuel : nat) (lines : list str) (file_line : Z) (d : dict) :
  file_line < len lines ->
  walk (S fuel) lines file_line d
  = ('(b, next) <- read_block lines file_line ;;
     d' <- accumulate b d ;;
     walk fuel lines next d').
Proof.
  intros H. simpl. destruct (file_line <? len lines) eqn:E; trivial; lia.
Qed.

(** The loop reads the blocks of [reads] and merges them in turn. *)
Lemma walk_reads (lines : list str) (p p' : Z) (bs : list block) :
  reads lines p bs p' ->
  forall (d d' : dict) (fuel : nat),
    accumulate_all bs d = Ok d' ->
    walk (length bs + fuel) lines p d = walk fuel lines p' d'.
Proof.
  induction 1 as [p|p next p' b bs Hlt Hrd Hreads IH]; intros d d' fuel Hacc.
  - simpl in *. congruence.
  - simpl in Hacc. invert_bind Hacc.
    change (length (b :: bs) + fuel)%nat with (S (length bs + fuel)).
    rewrite walk_step by trivial. rewrite Hrd. simpl. rewrite Hx. simpl.
    now apply IH.
Qed.

Lemma walk_all (fuel : nat) (lines : list str) (p : Z) (bs : list block) (d d' : dict) :
  reads lines 1 bs p -> len lines <= p ->
  accumulate_all bs d = Ok d' ->
  (length bs <= fuel)%nat ->
  walk fuel lines 1 d = Ok d'.
Proof.
  intros Hreads Hp Hacc Hfuel.
  replace fuel with (length bs + (fuel - length bs))%nat by lia.
  rewrite (walk_reads _ _ _ _ Hreads d d' _ Hacc).
  now apply walk_done.
Qed.

Lemma walk_keeps (fuel : nat) (lines : list str) (l : str) :
  forall (p : Z) (d d' : dict),
    walk fuel lines p d = Ok d' ->
    (In l (tails d) -> In l (tails d')) /\
    (forall bs p' b, reads lines p bs p' -> In b bs -> In l (splice b) ->
                     In l (tails d')).
Proof.
  induction fuel as [|fuel IH]; intros p d d' Hw.
  - simpl in Hw. destruct (p <? len lines) eqn:E; [discriminate|].
    injection Hw as <-. split; trivial.
    intros bs p' b Hr Hb. destruct Hr as [|? ? ? ? ? Hlt]; [destruct Hb|lia].
  - destruct (Z.ltb_spec p (len lines)) as [Hlt|Hge].
    + rewrite walk_step in Hw by trivial.
      invert_bind Hw. destruct x as [b0 next]. invert_bind Hw.
      destruct (IH _ _ _ Hw) as [IH1 IH2]. split.
      * intros Hl. apply IH1. eapply accumulate_keeps; eauto.
      * intros bs p' b Hr Hb Hl.
        destruct Hr as [|? ? ? ? ? _ Hrd Hr]; [destruct Hb|].
        rewrite Hx in Hrd. injection Hrd as <- <-.
        destruct Hb as [<-|Hb].
        -- apply IH1. eapply accumulate_keeps; eauto.
        -- eapply IH2; eauto.
    + rewrite walk_done in Hw by lia. injection Hw as <-. split; trivial.
      intros bs p' b Hr Hb. destruct Hr as [|? ? ? ? ? Hlt]; [destruct Hb|lia].
Qed.

Lemma accumulate_all_app (bs bs' : list block) (d : dict) :
  accumulate_all (bs ++ bs') d
  = (d1 <- accumulate_all bs d ;; accumulate_all bs' d1).
Proof.
  revert d. induction bs as [|b bs IH]; intros d; simpl; trivial.
  destruct (accumulate b d); simpl; trivial.
Qed.

Lemma accumulate_all_fresh (bs : list block) (d : dict) :
  NoDup (map atomic_sym bs) ->
  (forall b, In b bs -> ~ In (atomic_sym b) (map fst d)) ->
  accumulate_all bs d
  = Ok (d ++ map (fun b => (atomic_sym b, block_lines b)) bs).
Proof.
  revert d. induction bs as [|b bs IH]; intros d Hnd Hfresh; simpl.
  - now rewrite app_nil_r.
  - inversion_clear Hnd as [|? ? Hb Hnd'].
    rewrite accumulate_new by (apply lookup_None, Hfresh; now left).
    simpl. rewrite setitem_fresh by (apply lookup_None, Hfresh; now left).
    rewrite IH; trivial.
    + now rewrite <- app_assoc.
    + intros b' Hb'. rewrite map_app, in_app_iff. simpl.
      intros [H|[H|[]]].
      * apply (Hfresh b'); [now right|trivial].
      * apply Hb. rewrite H. now apply in_map.
Qed.

Lemma values_fresh (bs : list block) :
  values (map (fun b => (atomic_sym b, block_lines b)) bs) = map block_lines bs.
Proof. unfold values. rewrite map_map. reflexivity. Qed.

Lemma total_lines_app (bs bs' : list block) :
  total_lines (bs ++ bs') = total_lines bs + total_lines bs'.
Proof. induction bs as [|b bs IH]; simpl; lia. Qed.

Lemma total_lines_nonneg (bs : list block) :
  Forall block_ok bs -> 0 <= total_lines bs.
Proof.
  induction 1 as [|b bs [_ Hb] _ IH]; simpl; [lia|].
  pose proof (len_nonneg (splice b)). lia.
Qed.

Lemma accumulate_all_counted (bs : list block) :
  forall (d : dict) (n : Z),
    Forall block_ok bs ->
    dict_counted d -> dict_within d n ->
    0 <= n -> n + total_lines bs < 10 ^ 8 ->
    exists d',
      accumulate_all bs d = Ok d' /\
      dict_counted d' /\ dict_within d' (n + total_lines bs).
Proof.
  induction bs as [|b bs IH]; intros d n Hbs Hd Hn Hn0 Hfit; simpl in *.
  - exists d. rewrite Z.add_0_r. auto.
  - inversion_clear Hbs as [|? ? Hb Hbs'].
    pose proof (total_lines_nonneg bs Hbs') as Ht.
    assert (Hc0 : 0 <= atomic_lines b).
    { destruct Hb as [_ <-]. apply len_nonneg. }
    destruct (accumulate_counted b d n Hd Hn Hb Hn0 ltac:(lia))
      as (d1 & Ha & Hd1 & Hn1 & _).
    destruct (IH d1 (n + atomic_lines b) Hbs' Hd1 Hn1 ltac:(lia) ltac:(lia))
      as (d' & Hall & Hd' & Hn').
    exists d'. rewrite Ha. simpl. split; trivial. split; trivial.
    now rewrite Z.add_assoc.
Qed.

Lemma read_folder_app (fuel : nat) (w : world) (folder : str)
  (names names' : list str) (d : dict) :
  read_folder fuel w folder (names ++ names') d
  = (d' <- read_folder fuel w folder names d ;;
     read_folder fuel w folder names' d').
Proof.
  revert d. induction names as [|n names IH]; intros d; simpl; trivial.
  destruct (files w (path_join folder n)) as [text|]; trivial.
  destruct (walk fuel (readlines text) 1 d); simpl; trivial.
Qed.

Lemma read_folder_blocks (fuel : nat) (w : world) (folder : str)
  (names : list str) (bss : list (list block)) :
  folder_blocks w folder names bss ->
  Forall (fun bs => (length bs <= fuel)%nat) bss ->
  forall d d',
    accumulate_all (concat bss) d = Ok d' ->
    read_folder fuel w folder names d = Ok d'.
Proof.
  induction 1 as [|name bs names bss (text & p & Htext & Hreads & Hp) _ IH];
    intros Hfuel d d' Hall; simpl in *.
  - exact Hall.
  - inversion_clear Hfuel as [|? ? Hbs Hfuel'].
    rewrite accumulate_all_app in Hall. invert_bind Hall.
    rewrite Htext, (walk_all fuel _ p bs d x Hreads Hp Hx Hbs). simpl.
    now apply IH.
Qed.

Lemma read_folder_keeps (fuel : nat) (w : world) (folder : str) (l : str) :
  forall (names : list str) (d d' : dict),
    read_folder fuel w folder names d = Ok d' ->
    (In l (tails d) -> In l (tails d')) /\
    (forall name text bs p b,
       In name names -> files w (path_join folder name) = Some text ->
       reads (readlines text) 1 bs p -> In b bs -> In l (splice b) ->
       In l (tails d')).
Proof.
  induction names as [|n names IH]; intros d d' Hr; simpl in Hr.
  - injection Hr as <-. split; trivial. intros ? ? ? ? ? [].
  - destruct (files w (path_join folder n)) as [text0|] eqn:Hf; [|discriminate].
    invert_bind Hr.
    destruct (walk_keeps _ _ l _ _ _ Hx) as [W1 W2].
    destruct (IH _ _ Hr) as [IH1 IH2]. split; [auto|].
    intros name text bs p b [<-|Hin] Htext Hreads Hb Hl.
    + rewrite Hf in Htext. injection Htext as <-. eauto.
    + eauto.
Qed.

Lemma tails_in_output (d : dict) (l : str) :
  In l (tails d) -> In l (output_lines d).
Proof.
  unfold tails, output_lines. rewrite !in_concat.
  intros (t & Ht & Hl). apply in_map_iff in Ht. destruct Ht as (e & <- & He).
  exists e. split.
  - eapply Permutation_in; [apply sort_perm|exact He].
  - destruct e; [destruct Hl|now right].
Qed.

Lemma files_write_lines_same (path : str) (lines : list str) (w : world) :
  files (write_lines path lines w) path = Some (concat lines).
Proof. simpl. now rewrite str_eqb_refl. Qed.

Lemma files_write_lines_other (path p : str) (lines : list str) (w : world) :
  p <> path -> same_file w p path = false ->
  files (write_lines path lines w) p = files w p.
Proof. intros H Hs. simpl. apply str_eqb_neq in H. now rewrite H, Hs. Qed.

Lemma files_write_lines_alias (path p : str) (lines : list str) (w : world) :
  same_file w p path = true ->
  files (write_lines path lines w) p = Some (concat lines).
Proof. intros Hs. simpl. rewrite Hs. now destruct (str_eqb p path). Qed.

Lemma TurboSort_Ok_inv (fuel : nat) (input_folder output_file : str) (w w' : world) :
  TurboSort fuel input_folder output_file w = (Ok tt, w') ->
  exists names atom_dict,
    listdir w input_folder = Some names /\
    read_folder fuel w input_folder names [] = Ok atom_dict /\
    w' = write_lines output_file (output_lines atom_dict) w.
Proof.
  unfold TurboSort. intros H.
  destruct (listdir w input_folder) as [names|]; [|discriminate].
  destruct (read_folder fuel w input_folder names []) as [d|e|] eqn:E;
    try discriminate.
  exists names, d. split; [reflexivity|]. split; [exact E|]. congruence.
Qed.

(* ================================================================= *)
(** ** C1: the declared count and the number of lines *)

(** C1, as stated, fails in two ways.  In the first folder the stored
    block declares 5 lines and holds 2 (the file ends there); a block of 1
    line merges into it: the merged block has 3 lines while the two declared
    counts add up to 6, which is what its rebuilt header declares.  In the
    second folder both headers are 10 characters long and declare 1 line:
    nothing of them lies after character 27, the rebuilt header still
    declares 1 and the merged block has 2 lines. *)
Lemma merged_count_differs_from_lines :
  (exists d h' ls,
     read_folder 10 truncated_files (py "in") [py "a.lst"; py "b.lst"] [] = Ok d /\
     declared_count (ln (fe_header "         5")) = Ok 5 /\
     declared_count (ln (fe_header "         1")) = Ok 1 /\
     lookup fe_key d = Some (h' :: fe_key :: ls) /\
     declared_count h' = Ok 6 /\
     len ls = 3) /\
  (exists d h' ls,
     read_folder 10 narrow_files (py "in") [py "a.lst"; py "b.lst"] [] = Ok d /\
     declared_count (ln "a b c d 1") = Ok 1 /\
     lookup fe_key d = Some (h' :: fe_key :: ls) /\
     declared_count h' = Ok 1 /\
     len ls = 2).
Proof.
  split; do 3 eexists; repeat split; vm_compute; reflexivity.
Qed.

(** C1, amended. Take a call whose files are read to their end as blocks
    that each hold as many lines as they declare, under headers of the fixed
    layout (27 characters with tokens 0 to 3, whitespace, the count, at most
    a line terminator), with fewer than 10^8 lines in all.  The call
    succeeds. Whenever a block is read under a key already stored, the two
    declared counts being those of the stored header and of the header read,
    the merged block has as many lines as their sum and token 4 of its
    rebuilt header parses to that sum.  In the final accumulator every block
    has as many lines as its header declares. *)
Theorem merged_count_matches_lines
  (fuel : nat) (input_folder output_file : str) (w : world)
  (names : list str) (bss : list (list block)) :
  listdir w input_folder = Some names ->
  folder_blocks w input_folder names bss ->
  Forall (fun bs => (length bs <= fuel)%nat) bss ->
  Forall block_ok (concat bss) ->
  total_lines (concat bss) < 10 ^ 8 ->
  exists atom_dict,
    read_folder fuel w input_folder names [] = Ok atom_dict /\
    TurboSort fuel input_folder output_file w
    = (Ok tt, write_lines output_file (output_lines atom_dict) w) /\
    (forall before b after,
       concat bss = before ++ b :: after ->
       exists d0 d1,
         accumulate_all before [] = Ok d0 /\
         accumulate b d0 = Ok d1 /\
         declared_count (header b) = Ok (atomic_lines b) /\
         forall e, lookup (atomic_sym b) d0 = Some e ->
           exists h ls h',
             e = h :: atomic_sym b :: ls /\
             declared_count h = Ok (len ls) /\
             lookup (atomic_sym b) d1
             = Some (h' :: atomic_sym b :: sort str_leb (ls ++ splice b)) /\
             len (sort str_leb (ls ++ splice b)) = len ls + atomic_lines b /\
             declared_count h' = Ok (len ls + atomic_lines b)) /\
    (forall k e, lookup k atom_dict = Some e ->
       exists h ls, e = h :: k :: ls /\ declared_count h = Ok (len ls)).
Proof.
  intros Hdir Hblocks Hfuel Hok Hfit.
  assert (Hempty : dict_counted [] /\ dict_within [] 0).
  { split; intros k; simpl; discriminate. }
  destruct Hempty as [He1 He2].
  destruct (accumulate_all_counted (concat bss) [] 0 Hok He1 He2 ltac:(lia) Hfit)
    as (d & Hall & Hd & _).
  pose proof (read_folder_blocks fuel w input_folder names bss Hblocks Hfuel [] d Hall)
    as Hread.
  exists d. split; trivial. split; [|split].
  - unfold TurboSort. now rewrite Hdir, Hread.
  - intros before b after E. rewrite E in Hok, Hfit.
    apply Forall_app in Hok. destruct Hok as [Hbefore Hb].
    inversion_clear Hb as [|? ? Hb' Hafter].
    rewrite total_lines_app in Hfit. simpl in Hfit.
    pose proof (total_lines_nonneg before Hbefore) as H1.
    pose proof (total_lines_nonneg after Hafter) as H2.
    assert (H3 : 0 <= atomic_lines b).
    { destruct Hb' as [_ <-]. apply len_nonneg. }
    destruct (accumulate_all_counted before [] 0 Hbefore He1 He2 ltac:(lia) ltac:(lia))
      as (d0 & Hall0 & Hd0 & Hn0).
    destruct (accumulate_counted b d0 (0 + total_lines before) Hd0 Hn0 Hb'
                ltac:(lia) ltac:(lia)) as (d1 & Ha & _ & _ & Hmerge).
    exists d0, d1. split; trivial. split; trivial.
    split; [apply layout_declared_count, Hb'|exact Hmerge].
  - intros k e Hk. destruct (Hd k e Hk) as (h & ls & -> & Hh).
    exists h, ls. split; trivial. now apply layout_declared_count.
Qed.

Lemma merged_count_matches_lines_witness :
  exists atom_dict,
    read_folder 10 two_files (py "in") [py "a.lst"; py "b.lst"] [] = Ok atom_dict /\
    TurboSort 10 (py "in") (py "out.lst") two_files
    = (Ok tt, write_lines (py "out.lst") (output_lines atom_dict) two_files) /\
    (forall before b after,
       concat [[fe_block_a]; [fe_block_b; li_block]] = before ++ b :: after ->
       exists d0 d1,
         accumulate_all before [] = Ok d0 /\
         accumulate b d0 = Ok d1 /\
         declared_count (header b) = Ok (atomic_lines b) /\
         forall e, lookup (atomic_sym b) d0 = Some e ->
           exists h ls h',
             e = h :: atomic_sym b :: ls /\
             declared_count h = Ok (len ls) /\
             lookup (atomic_sym b) d1
             = Some (h' :: atomic_sym b :: sort str_leb (ls ++ splice b)) /\
             len (sort str_leb (ls ++ splice b)) = len ls + atomic_lines b /\
             declared_count h' = Ok (len ls + atomic_lines b)) /\
    (forall k e, lookup k atom_dict = Some e ->
       exists h ls, e = h :: k :: ls /\ declared_count h = Ok (len ls)).
Proof.
  apply (merged_count_matches_lines 10 (py "in") (py "out.lst") two_files
           [py "a.lst"; py "b.lst"] [[fe_block_a]; [fe_block_b; li_block]]).
  - vm_compute. reflexivity.
  - constructor; [|constructor; [|constructor]].
    + exists file_a, 5. split; [vm_compute; reflexivity|].
      split; [|vm_compute; discriminate].
      eapply reads_block; [reflexivity|vm_compute; reflexivity|apply reads_here].
    + exists file_b, 7. split; [vm_compute; reflexivity|].
      split; [|vm_compute; discriminate].
      eapply reads_block; [reflexivity|vm_compute; reflexivity|].
      eapply reads_block; [reflexivity|vm_compute; reflexivity|apply reads_here].
  - repeat constructor; simpl; lia.
  - simpl. constructor; [|constructor; [|constructor; [|constructor]]].
    + split; [|reflexivity].
      apply (fe_header_layout "         " 2); [discriminate|repeat constructor].
    + split; [|reflexivity].
      apply (fe_header_layout "         " 1); [discriminate|repeat constructor].
    + split; [|reflexivity]. apply li_header_layout.
  - vm_compute. reflexivity.
Defined.

(** Why the bound: from 10^8 on, the count and the line terminator fill
    the 10 characters, the count runs into token 3 and token 4 is gone. *)
Example nine_digits_fill_the_field :
  rebuild_header (ln (fe_header "  99999999")) 99999999 100000000
  = ln (fe_header "100000000")
  /\ declared_count (ln (fe_header "100000000")) = Raise IndexError.
Proof. split; vm_compute; reflexivity. Qed.

(* ================================================================= *)
(** ** C2: the 10 characters after the first 27 *)

(** C2, as stated, fails: the first file declares 9999999999 lines, the
    second merges one more under the same key, and the sum 10000000000 has
    11 digits.  The rebuilt part after the first 27 characters is
    ["000000000" + newline]: the newline that ended the stored header takes
    one of the 10 places, so the part is not the digits of the sum with
    leading characters dropped. *)
Lemma overflow_field_is_not_a_digit_suffix :
  exists w' text h' rest,
    TurboSort 10 (py "in") (py "out.lst") overflow_files = (Ok tt, w') /\
    files w' (py "out.lst") = Some text /\
    readlines text = h' :: rest /\
    h' = firstn 27 (ln (wide_header "9999999999")) ++ ln "000000000" /\
    str_of_int (1 + 9999999999) = py "10000000000" /\
    forall n, skipn 27 h' <> skipn n (str_of_int (1 + 9999999999)).
Proof.
  eexists. eexists. eexists. eexists.
  split; [vm_compute; reflexivity|].
  split; [vm_compute; reflexivity|].
  split; [vm_compute; reflexivity|].
  split; [vm_compute; reflexivity|].
  split; [vm_compute; reflexivity|].
  intros n E.
  assert (Hin : In LF (skipn n (str_of_int (1 + 9999999999)))).
  { rewrite <- E. vm_compute. tauto. }
  assert (Hin' : In LF (str_of_int (1 + 9999999999))).
  { rewrite <- (firstn_skipn n). apply in_or_app. now right. }
  vm_compute in Hin'.
  repeat (destruct Hin' as [Hin'|Hin']; [discriminate|]). exact Hin'.
Qed.

(** C2, amended. The rebuilt header is the first 27 characters of the
    stored header followed by exactly 10 characters [field], made from the
    rest of the stored header with the new count substituted: its last 10
    characters when it is longer than 10, itself after spaces when it is
    shorter, itself when it has 10.  The field is the digits of the new
    count with leading characters dropped when these digits are more than
    10 and the stored header ends with the old count, nothing after it. *)
Theorem rebuilt_header_field
  (b : block) (d d' : dict) (h k : str) (ls : list str) :
  lookup (atomic_sym b) d = Some (h :: k :: ls) ->
  accumulate b d = Ok d' ->
  exists prev field,
    declared_count h = Ok prev /\
    lookup (atomic_sym b) d'
    = Some ((firstn 27 h ++ field) :: k :: sort str_leb (ls ++ splice b)) /\
    length field = 10%nat /\
    let new := str_of_int (atomic_lines b + prev) in
    let updated := replace (skipn 27 h) (str_of_int prev) new in
    ((10 < length updated)%nat ->
       field = skipn (length updated - 10) updated /\
       updated = firstn (length updated - 10) updated ++ field) /\
    ((length updated < 10)%nat ->
       field = repeat " "%char (10 - length updated) ++ updated) /\
    (length updated = 10%nat -> field = updated) /\
    (forall pad,
       skipn 27 h = pad ++ str_of_int prev ->
       Forall (fun c => isspace c = true) pad ->
       (10 < length new)%nat ->
       field = skipn (length new - 10) new).
Proof.
  intros Hl Ha.
  destruct (accumulate_merge_inv _ _ _ _ _ _ Hl Ha) as (prev & Hc & ->).
  exists prev.
  exists (justify (replace (skipn 27 h) (str_of_int prev)
                     (str_of_int (atomic_lines b + prev)))).
  split; trivial. split; [apply lookup_setitem_same|].
  split; [apply justify_length|].
  cbv zeta. split; [|split; [|split]].
  - intros H. rewrite justify_long by trivial. split; trivial.
    symmetry. apply firstn_skipn.
  - apply justify_short.
  - apply justify_exact.
  - intros pad Hpad Hsp Hlong.
    rewrite <- (app_nil_r (str_of_int prev)) in Hpad.
    rewrite Hpad, replace_padded, app_nil_r; trivial.
    rewrite justify_long by (rewrite length_app; lia).
    rewrite length_app, skipn_app, skipn_all2 by lia.
    simpl. f_equal. lia.
Qed.

Lemma rebuilt_header_field_witness :
  exists prev field,
    declared_count (ln (fe_header "         2")) = Ok prev /\
    lookup (atomic_sym fe_block_b)
      (setitem fe_key
         [ln (fe_header "        3"); fe_key;
          ln "4000.1 a"; ln "4500.3 c"; ln "5000.2 b"] dict_a)
    = Some ((firstn 27 (ln (fe_header "         2")) ++ field)
              :: fe_key :: sort str_leb ([ln "5000.2 b"; ln "4000.1 a"] ++ splice fe_block_b)) /\
    length field = 10%nat /\
    let new := str_of_int (atomic_lines fe_block_b + prev) in
    let updated := replace (skipn 27 (ln (fe_header "         2"))) (str_of_int prev) new in
    ((10 < length updated)%nat ->
       field = skipn (length updated - 10) updated /\
       updated = firstn (length updated - 10) updated ++ field) /\
    ((length updated < 10)%nat ->
       field = repeat " "%char (10 - length updated) ++ updated) /\
    (length updated = 10%nat -> field = updated) /\
    (forall pad,
       skipn 27 (ln (fe_header "         2")) = pad ++ str_of_int prev ->
       Forall (fun c => isspace c = true) pad ->
       (10 < length new)%nat ->
       field = skipn (length new - 10) new).
Proof.
  apply (rebuilt_header_field fe_block_b dict_a _ (ln (fe_header "         2")) fe_key
           [ln "5000.2 b"; ln "4000.1 a"]); vm_compute; reflexivity.
Defined.

(* ================================================================= *)
(** ** C3: the lines of a merged block are sorted *)

(** C3. After a merge of a block into the stored block with the same key,
    the data lines of the stored block are the sort of the whole combined
    list, the lines stored before followed by the lines just read: they are
    in sorted textual order and hold the same lines. *)
Theorem merge_sorts_all_lines (b : block) (d d' : dict) (h k : str) (ls : list str) :
  lookup (atomic_sym b) d = Some (h :: k :: ls) ->
  accumulate b d = Ok d' ->
  exists h',
    lookup (atomic_sym b) d' = Some (h' :: k :: sort str_leb (ls ++ splice b)) /\
    Sorted str_le (sort str_leb (ls ++ splice b)) /\
    Permutation (ls ++ splice b) (sort str_leb (ls ++ splice b)).
Proof.
  intros Hl Ha.
  destruct (accumulate_merge_inv _ _ _ _ _ _ Hl Ha) as (prev & _ & ->).
  eexists. split; [apply lookup_setitem_same|]. split.
  - apply (sort_sorted str_leb str_leb_total).
  - apply sort_perm.
Qed.

Lemma merge_sorts_all_lines_witness :
  exists h',
    lookup fe_key (setitem fe_key
                     [ln (fe_header "        3"); fe_key;
                      ln "4000.1 a"; ln "4500.3 c"; ln "5000.2 b"] dict_a)
    = Some (h' :: fe_key :: sort str_leb ([ln "5000.2 b"; ln "4000.1 a"] ++ [ln "4500.3 c"])) /\
    Sorted str_le (sort str_leb ([ln "5000.2 b"; ln "4000.1 a"] ++ [ln "4500.3 c"])) /\
    Permutation ([ln "5000.2 b"; ln "4000.1 a"] ++ [ln "4500.3 c"])
                (sort str_leb ([ln "5000.2 b"; ln "4000.1 a"] ++ [ln "4500.3 c"])).
Proof.
  apply (merge_sorts_all_lines fe_block_b dict_a _ (ln (fe_header "         2")) fe_key
           [ln "5000.2 b"; ln "4000.1 a"]); vm_compute; reflexivity.
Defined.

(* ================================================================= *)
(** ** C4: the order of the blocks in the output *)

(** C4. The lines written by a call are the concatenation of the
    accumulated blocks [[header, atomic_sym, line, ...]] taken in the order of
    the default comparison of lists: sorted by header text first, the keys
    being compared only between equal headers (and the lines only between
    equal headers and keys). *)
Theorem output_blocks_in_list_order
  (fuel : nat) (input_folder output_file : str) (w w' : world) :
  TurboSort fuel input_folder output_file w = (Ok tt, w') ->
  exists names atom_dict blocks,
    listdir w input_folder = Some names /\
    read_folder fuel w input_folder names [] = Ok atom_dict /\
    blocks = sort list_str_leb (values atom_dict) /\
    Permutation (values atom_dict) blocks /\
    StronglySorted list_str_le blocks /\
    files w' output_file = Some (concat (concat blocks)) /\
    forall h1 k1 l1 h2 k2 l2,
      list_str_le (h1 :: k1 :: l1) (h2 :: k2 :: l2) <->
      str_compare h1 h2 = Lt \/
      (h1 = h2 /\ (str_compare k1 k2 = Lt \/ (k1 = k2 /\ list_str_le l1 l2))).
Proof.
  intros H. apply TurboSort_Ok_inv in H. destruct H as (names & d & Hn & Hd & ->).
  exists names, d, (sort list_str_leb (values d)).
  repeat split; trivial.
  - apply sort_perm.
  - apply sort_blocks_sorted.
  - apply files_write_lines_same.
  - apply block_order.
  - apply block_order.
Qed.

Lemma output_blocks_in_list_order_witness :
  exists names atom_dict blocks,
    listdir two_files (py "in") = Some names /\
    read_folder 10 two_files (py "in") names [] = Ok atom_dict /\
    blocks = sort list_str_leb (values atom_dict) /\
    Permutation (values atom_dict) blocks /\
    StronglySorted list_str_le blocks /\
    files (write_lines (py "out.lst")
             [ li_header; li_key; ln "6707.8 d";
               ln (fe_header "        3"); fe_key;
               ln "4000.1 a"; ln "4500.3 c"; ln "5000.2 b" ] two_files) (py "out.lst")
    = Some (concat (concat blocks)) /\
    forall h1 k1 l1 h2 k2 l2,
      list_str_le (h1 :: k1 :: l1) (h2 :: k2 :: l2) <->
      str_compare h1 h2 = Lt \/
      (h1 = h2 /\ (str_compare k1 k2 = Lt \/ (k1 = k2 /\ list_str_le l1 l2))).
Proof.
  apply (output_blocks_in_list_order 10 (py "in") (py "out.lst") two_files).
  vm_compute. reflexivity.
Defined.

(* ================================================================= *)
(** ** C5: a count larger than the rest of the file *)

(** C5, as stated, fails: the header of the only file declares 5 lines and
    2 follow the key.  The call succeeds and writes the block with its 2
    lines. *)
Lemma truncated_block_is_accepted :
  exists w' h k,
    readlines file_truncated = [h; k; ln "5000.2 b"; ln "4000.1 a"] /\
    declared_count h = Ok 5 /\
    TurboSort 10 (py "in") (py "out.lst") (single_file file_truncated) = (Ok tt, w') /\
    files w' (py "out.lst") = Some file_truncated.
Proof.
  do 3 eexists. repeat split; vm_compute; reflexivity.
Qed.

(** C5, amended. A block whose declared count exceeds the number of lines
    left after its key line raises nothing: it is read with the lines that
    are left, fewer than declared, and the loop over its file ends with this
    block, the outcome being that of storing or merging it. *)
Theorem truncated_block_is_read
  (lines : list str) (file_line : Z) (h k : str) (c : Z) :
  1 <= file_line < len lines ->
  getitem lines (file_line - 1) = Ok h ->
  getitem lines file_line = Ok k ->
  declared_count h = Ok c ->
  len lines - (file_line + 1) < c ->
  let b := Block h k c (skipn (Z.to_nat (file_line + 1)) lines) in
  read_block lines file_line = Ok (b, file_line + 1 + c + 1) /\
  len (splice b) = len lines - (file_line + 1) /\
  len (splice b) < c /\
  forall (fuel : nat) (d : dict),
    walk (S fuel) lines file_line d = accumulate b d.
Proof.
  intros Hfl Hh Hk Hc Hshort b.
  assert (Hrd : read_block lines file_line = Ok (b, file_line + 1 + c + 1)).
  { unfold read_block. rewrite Hh. simpl.
    replace (file_line - 1 + 1) with file_line by lia. rewrite Hk. simpl.
    rewrite Hc. simpl. unfold b.
    rewrite slice_to_end by lia.
    now replace (file_line - 1 + 2) with (file_line + 1) by lia. }
  assert (Hlen : len (splice b) = len lines - (file_line + 1)).
  { unfold b, len. simpl. rewrite length_skipn. unfold len in Hfl. lia. }
  repeat split; trivial; try lia.
  intros fuel d. rewrite walk_step by lia. rewrite Hrd. simpl.
  rewrite <- (bind_ret (accumulate b d)) at 2.
  destruct (accumulate b d) as [d'| |]; simpl; trivial.
  apply walk_done. lia.
Qed.

Lemma truncated_block_is_read_witness :
  let lines := readlines file_truncated in
  let b := Block (ln (fe_header "         5")) fe_key 5
                 (skipn (Z.to_nat (1 + 1)) lines) in
  read_block lines 1 = Ok (b, 1 + 1 + 5 + 1) /\
  len (splice b) = len lines - (1 + 1) /\
  len (splice b) < 5 /\
  forall (fuel : nat) (d : dict), walk (S fuel) lines 1 d = accumulate b d.
Proof.
  apply (truncated_block_is_read (readlines file_truncated) 1
           (ln (fe_header "         5")) fe_key 5); vm_compute;
    try reflexivity; split; congruence.
Defined.

(* ================================================================= *)
(** ** C6: a header with fewer than 5 tokens *)

(** C6, as stated, fails: the last line of the only file stands where the
    next header would, and has 3 tokens; no line follows it, the loop never
    reads it, the call succeeds and creates the output file. *)
Lemma dangling_short_header_is_not_read :
  exists w' h k l last,
    readlines file_dangling = [h; k; l; last] /\
    reads (readlines file_dangling) 1 [Block h k 1 [l]] 4 /\
    length (split last) = 3%nat /\
    files (single_file file_dangling) (py "out.lst") = None /\
    TurboSort 10 (py "in") (py "out.lst") (single_file file_dangling) = (Ok tt, w') /\
    files w' (py "out.lst") = Some (h ++ k ++ l).
Proof.
  do 5 eexists.
  split; [vm_compute; reflexivity|].
  split; [|repeat split; vm_compute; reflexivity].
  eapply reads_block; [reflexivity|vm_compute; reflexivity|apply reads_here].
Qed.

(** C6, amended. When the loop arrives, everything before having been read
    and merged without an exception, at a header with fewer than 5
    whitespace-separated tokens that is followed by at least one more line
    of its file, the call raises [IndexError] (the index out of range of
    [header.split()[4]]) and leaves the file system as it was: no output
    file is created. *)
Theorem short_header_raises
  (fuel : nat) (input_folder output_file : str) (w : world)
  (before after : list str) (name text : str)
  (d0 d : dict) (bs : list block) (p : Z) (h : str) :
  listdir w input_folder = Some (before ++ name :: after) ->
  read_folder fuel w input_folder before [] = Ok d0 ->
  files w (path_join input_folder name) = Some text ->
  reads (readlines text) 1 bs p ->
  accumulate_all bs d0 = Ok d ->
  (length bs < fuel)%nat ->
  p < len (readlines text) ->
  getitem (readlines text) (p - 1) = Ok h ->
  (length (split h) < 5)%nat ->
  TurboSort fuel input_folder output_file w = (Raise IndexError, w).
Proof.
  intros Hdir Hbefore Htext Hreads Hacc Hfuel Hp Hh Hshort.
  unfold TurboSort. rewrite Hdir, read_folder_app, Hbefore. simpl.
  rewrite Htext.
  replace fuel with (length bs + S (fuel - length bs - 1))%nat by lia.
  rewrite (walk_reads _ _ _ _ Hreads d0 d _ Hacc).
  rewrite walk_step by trivial.
  now rewrite (read_block_short_header _ _ _ Hh Hshort).
Qed.

Lemma short_header_raises_witness :
  TurboSort 10 (py "in") (py "out.lst") (single_file file_short_header)
  = (Raise IndexError, single_file file_short_header).
Proof.
  apply (short_header_raises 10 (py "in") (py "out.lst") (single_file file_short_header)
           [] [] (py "a.lst") file_short_header [] 
           [(fe_key, [ln (fe_header "         1"); fe_key; ln "5000.2 b"])]
           [Block (ln (fe_header "         1")) fe_key 1 [ln "5000.2 b"]] 4
           (ln "'   3.0000           '")); try (vm_compute; reflexivity).
  - eapply reads_block; [reflexivity|vm_compute; reflexivity|apply reads_here].
  - simpl. lia.
  - vm_compute. lia.
Defined.

(* ================================================================= *)
(** ** C7: files without a common key *)

(** C7, as stated, fails: the first file holds two blocks under the key
    ['Fe I   '], the second one block under ['Li I   ']; the two sets of
    keys are disjoint, yet the blocks of the first file come out merged,
    under a header that neither of them had. *)
Lemma same_key_twice_in_a_file :
  exists bsA bsB w' text,
    reads (readlines file_twice) 1 bsA 7 /\
    reads (readlines file_li) 1 bsB 4 /\
    map atomic_sym bsA = [fe_key; fe_key] /\
    map atomic_sym bsB = [li_key] /\
    fe_key <> li_key /\
    TurboSort 10 (py "in") (py "out.lst") (folder_of file_twice file_li) = (Ok tt, w') /\
    files w' (py "out.lst") = Some text /\
    readlines text
    = [li_header; li_key; ln "6707.8 d";
       ln (fe_header "        2"); fe_key; ln "4000.1 a"; ln "5000.2 b"] /\
    ~ In (ln (fe_header "         1")) (readlines text).
Proof.
  exists [Block (ln (fe_header "         1")) fe_key 1 [ln "5000.2 b"];
          Block (ln (fe_header "         1")) fe_key 1 [ln "4000.1 a"]],
         [Block li_header li_key 1 [ln "6707.8 d"]].
  do 2 eexists.
  split.
  { eapply reads_block; [reflexivity|vm_compute; reflexivity|].
    eapply reads_block; [reflexivity|vm_compute; reflexivity|apply reads_here]. }
  split.
  { eapply reads_block; [reflexivity|vm_compute; reflexivity|apply reads_here]. }
  split; [reflexivity|]. split; [reflexivity|]. split; [discriminate|].
  split; [vm_compute; reflexivity|].
  split; [vm_compute; reflexivity|].
  split; [vm_compute; reflexivity|].
  vm_compute. intros H.
  repeat (destruct H as [H|H]; [discriminate|]). exact H.
Qed.

(** C7, amended. For two files in which no key occurs twice, whether
    inside one file or across the two, a call that lists them writes the
    blocks of both, each as it was read (header, key and lines in the order
    of the file), ordered by the comparison of their lists of lines. *)
Theorem distinct_keys_union
  (fuel : nat) (input_folder output_file : str) (w : world)
  (nameA nameB textA textB : str) (bsA bsB : list block) (pA pB : Z) :
  listdir w input_folder = Some [nameA; nameB] ->
  files w (path_join input_folder nameA) = Some textA ->
  files w (path_join input_folder nameB) = Some textB ->
  reads (readlines textA) 1 bsA pA -> len (readlines textA) <= pA ->
  reads (readlines textB) 1 bsB pB -> len (readlines textB) <= pB ->
  NoDup (map atomic_sym (bsA ++ bsB)) ->
  (length bsA <= fuel)%nat -> (length bsB <= fuel)%nat ->
  exists w' blocks,
    TurboSort fuel input_folder output_file w = (Ok tt, w') /\
    blocks = sort list_str_leb (map block_lines (bsA ++ bsB)) /\
    Permutation (map block_lines (bsA ++ bsB)) blocks /\
    StronglySorted list_str_le blocks /\
    files w' output_file = Some (concat (concat blocks)).
Proof.
  intros Hdir HA HB HrA HpA HrB HpB Hnd HfA HfB.
  pose proof (accumulate_all_fresh (bsA ++ bsB) [] Hnd (fun _ _ H => H)) as Hall.
  simpl in Hall.
  assert (HaccA : accumulate_all bsA []
                  = Ok (map (fun b => (atomic_sym b, block_lines b)) bsA)).
  { rewrite map_app in Hnd. apply NoDup_app_remove_r in Hnd.
    apply (accumulate_all_fresh bsA [] Hnd (fun _ _ H => H)). }
  assert (HaccB : accumulate_all bsB (map (fun b => (atomic_sym b, block_lines b)) bsA)
                  = Ok (map (fun b => (atomic_sym b, block_lines b)) (bsA ++ bsB))).
  { rewrite map_app. apply accumulate_all_fresh.
    - rewrite map_app in Hnd. now apply NoDup_app_remove_l in Hnd.
    - intros b Hb Hin. rewrite map_map in Hin. simpl in Hin.
      rewrite map_app in Hnd.
      apply (NoDup_app_disjoint _ _ (atomic_sym b) Hnd); trivial.
      now apply in_map. }
  do 2 eexists. split.
  - unfold TurboSort. rewrite Hdir. simpl. rewrite HA.
    rewrite (walk_all fuel _ pA bsA _ _ HrA HpA HaccA HfA). simpl. rewrite HB.
    rewrite (walk_all fuel _ pB bsB _ _ HrB HpB HaccB HfB). simpl. reflexivity.
  - unfold output_lines. rewrite values_fresh.
    split; [reflexivity|]. split; [apply sort_perm|].
    split; [apply sort_blocks_sorted|]. apply files_write_lines_same.
Qed.

Lemma distinct_keys_union_witness :
  exists w' blocks,
    TurboSort 10 (py "in") (py "out.lst") (folder_of file_a file_li) = (Ok tt, w') /\
    blocks = sort list_str_leb
               (map block_lines ([fe_block_a] ++ [Block li_header li_key 1 [ln "6707.8 d"]])) /\
    Permutation
      (map block_lines ([fe_block_a] ++ [Block li_header li_key 1 [ln "6707.8 d"]])) blocks /\
    StronglySorted list_str_le blocks /\
    files w' (py "out.lst") = Some (concat (concat blocks)).
Proof.
  apply (distinct_keys_union 10 (py "in") (py "out.lst") (folder_of file_a file_li)
           (py "a.lst") (py "b.lst") file_a file_li
           [fe_block_a] [Block li_header li_key 1 [ln "6707.8 d"]] 5 4);
    try (vm_compute; reflexivity); try (vm_compute; discriminate).
  - eapply reads_block; [reflexivity|vm_compute; reflexivity|apply reads_here].
  - eapply reads_block; [reflexivity|vm_compute; reflexivity|apply reads_here].
  - simpl. constructor; [intros [H|[]]; discriminate H|].
    constructor; [intros []|constructor].
  - simpl. lia.
  - simpl. lia.
Defined.

(* ================================================================= *)
(** ** C8: a block merged with itself *)

(** C8. A block merged with an identical copy of itself (first stored, then
    read again with the same key, count and lines) has its lines sorted and
    twice as many; sorting these lines once more leaves them as they are. *)
Theorem merge_with_itself (b : block) (d : dict) :
  lookup (atomic_sym b) d = None ->
  declared_count (header b) = Ok (atomic_lines b) ->
  exists d1 d2 h2 lines2,
    accumulate b d = Ok d1 /\
    accumulate b d1 = Ok d2 /\
    lookup (atomic_sym b) d2 = Some (h2 :: atomic_sym b :: lines2) /\
    lines2 = sort str_leb (splice b ++ splice b) /\
    Sorted str_le lines2 /\
    length lines2 = (2 * length (splice b))%nat /\
    sort str_leb lines2 = lines2.
Proof.
  intros Hnew Hc.
  pose proof (accumulate_new b d Hnew) as H1.
  pose proof (accumulate_merge b
                (setitem (atomic_sym b) (header b :: atomic_sym b :: splice b) d)
                (header b) (atomic_sym b) (splice b) _
                (lookup_setitem_same _ _ _) Hc) as H2.
  exists (setitem (atomic_sym b) (header b :: atomic_sym b :: splice b) d).
  eexists. exists (rebuild_header (header b) (atomic_lines b) (atomic_lines b + atomic_lines b)).
  exists (sort str_leb (splice b ++ splice b)).
  split; [exact H1|]. split; [exact H2|].
  split; [apply lookup_setitem_same|]. split; [reflexivity|].
  split; [apply (sort_sorted str_leb str_leb_total)|].
  split; [|apply sort_idempotent, str_leb_total].
  rewrite sort_length, length_app. lia.
Qed.

Lemma merge_with_itself_witness :
  exists d1 d2 h2 lines2,
    accumulate fe_block_a [] = Ok d1 /\
    accumulate fe_block_a d1 = Ok d2 /\
    lookup fe_key d2 = Some (h2 :: fe_key :: lines2) /\
    lines2 = sort str_leb (splice fe_block_a ++ splice fe_block_a) /\
    Sorted str_le lines2 /\
    length lines2 = (2 * length (splice fe_block_a))%nat /\
    sort str_leb lines2 = lines2.
Proof.
  apply (merge_with_itself fe_block_a []); vm_compute; reflexivity.
Defined.

(* ================================================================= *)
(** ** C9: what a call writes and what it keeps *)

(** C9, as stated, fails in three ways.  The output path may be one of the
    input files, which the call then overwrites. A stored header shorter
    than 27 characters is kept whole and followed by 10 spaces, so the first
    27 characters of the rewritten header are not those of the stored one.
    A call that raises writes no file at all. *)
Lemma input_overwritten_short_header_padded_nothing_written :
  (exists w',
     TurboSort 10 (py "in") (py "in/a.lst") narrow_files = (Ok tt, w') /\
     files narrow_files (py "in/a.lst") = Some (file_narrow "5000.2 b") /\
     files w' (py "in/a.lst")
     = Some (ln "a b c d 1" ++ py "          " ++ fe_key ++ ln "4000.1 a" ++ ln "5000.2 b") /\
     files w' (py "in/a.lst") <> files narrow_files (py "in/a.lst")) /\
  (exists d h' rest,
     read_folder 10 narrow_files (py "in") [py "a.lst"; py "b.lst"] [] = Ok d /\
     lookup fe_key d = Some (h' :: rest) /\
     h' = ln "a b c d 1" ++ py "          " /\
     firstn 27 (ln "a b c d 1") = ln "a b c d 1" /\
     firstn 27 h' <> firstn 27 (ln "a b c d 1")) /\
  (TurboSort 10 (py "in") (py "out.lst") (single_file file_short_header)
   = (Raise IndexError, single_file file_short_header) /\
   files (single_file file_short_header) (py "out.lst") = None).
Proof.
  split; [|split].
  - eexists. split; [vm_compute; reflexivity|].
    split; [vm_compute; reflexivity|].
    split; [vm_compute; reflexivity|].
    vm_compute. discriminate.
  - do 3 eexists. split; [vm_compute; reflexivity|].
    split; [vm_compute; reflexivity|].
    split; [vm_compute; reflexivity|].
    split; [vm_compute; reflexivity|].
    vm_compute. discriminate.
  - split; vm_compute; reflexivity.
Qed.

(** The output path need not be spelled as the input file is: written at
    [./in/a.lst], the lines replace those of the input file [in/a.lst]. *)
Example input_overwritten_through_another_path :
  exists w',
    TurboSort 10 (py "in") (py "./in/a.lst") dotted_files = (Ok tt, w') /\
    files dotted_files (py "in/a.lst") = Some (file_narrow "5000.2 b") /\
    files w' (py "in/a.lst")
    = Some (ln "a b c d 1" ++ py "          " ++ fe_key ++ ln "4000.1 a" ++ ln "5000.2 b").
Proof.
  eexists. split; [vm_compute; reflexivity|].
  split; vm_compute; reflexivity.
Qed.

(** C9, amended. A call that completes writes one file, the one that the
    output path names, and leaves as it was every path that does not name
    this file (an input file is changed only when the output path names it,
    spelled alike or not); a call that raises writes nothing.  Every data
    line of every block read appears among the lines written, as it was
    read.  A merge rewrites only the header: the new header is the first 27
    characters of the stored one (all of it when it is shorter) followed by
    10 characters, so that its first 27 characters are those of the stored
    header when that has at least 27. *)
Theorem TurboSort_frame
  (fuel : nat) (input_folder output_file : str) (w w' : world) (r : outcome unit) :
  TurboSort fuel input_folder output_file w = (r, w') ->
  (forall p, p <> output_file -> same_file w p output_file = false ->
             files w' p = files w p) /\
  (r <> Ok tt -> w' = w) /\
  (r = Ok tt ->
   exists names atom_dict,
     listdir w input_folder = Some names /\
     read_folder fuel w input_folder names [] = Ok atom_dict /\
     created w' = output_file :: created w /\
     (forall p, p = output_file \/ same_file w p output_file = true ->
                files w' p = Some (concat (output_lines atom_dict))) /\
     forall name text bs p b l,
       In name names -> files w (path_join input_folder name) = Some text ->
       reads (readlines text) 1 bs p -> In b bs -> In l (splice b) ->
       In l (output_lines atom_dict)) /\
  (forall b d d' h k ls,
     lookup (atomic_sym b) d = Some (h :: k :: ls) ->
     accumulate b d = Ok d' ->
     exists field,
       lookup (atomic_sym b) d'
       = Some ((firstn 27 h ++ field) :: k :: sort str_leb (ls ++ splice b)) /\
       length field = 10%nat /\
       ((27 <= length h)%nat -> firstn 27 (firstn 27 h ++ field) = firstn 27 h)).
Proof.
  intros H.
  assert (Hmerge : forall b d d' h k ls,
     lookup (atomic_sym b) d = Some (h :: k :: ls) ->
     accumulate b d = Ok d' ->
     exists field,
       lookup (atomic_sym b) d'
       = Some ((firstn 27 h ++ field) :: k :: sort str_leb (ls ++ splice b)) /\
       length field = 10%nat /\
       ((27 <= length h)%nat -> firstn 27 (firstn 27 h ++ field) = firstn 27 h)).
  { intros b d d' h k ls Hl Ha.
    destruct (accumulate_merge_inv _ _ _ _ _ _ Hl Ha) as (prev & _ & ->).
    eexists. split; [apply lookup_setitem_same|].
    split; [apply justify_length|].
    intros Hlen. rewrite firstn_app, firstn_firstn, length_firstn.
    replace (27 - Nat.min 27 (length h))%nat with 0%nat by lia.
    simpl. now rewrite app_nil_r. }
  unfold TurboSort in H.
  destruct (listdir w input_folder) as [names|] eqn:Hdir.
  - destruct (read_folder fuel w input_folder names []) as [d|e|] eqn:Hread;
      injection H as <- <-.
    + split; [intros p Hp Hs; now apply files_write_lines_other|].
      split; [congruence|]. split; [|exact Hmerge].
      intros _. exists names, d. split; trivial. split; trivial.
      split; [reflexivity|]. split.
      * intros p [->|Hs];
          [apply files_write_lines_same|now apply files_write_lines_alias].
      * intros name text bs p b l Hname Htext Hreads Hb Hl.
        apply tails_in_output.
        destruct (read_folder_keeps fuel w input_folder l names [] d Hread) as [_ K].
        eauto.
    + repeat split; trivial; discriminate.
    + repeat split; trivial; discriminate.
  - injection H as <- <-. repeat split; trivial; discriminate.
Qed.

Lemma TurboSort_frame_witness :
  let w' := write_lines (py "./in/a.lst")
              [ ln "a b c d 1" ++ py "          "; fe_key;
                ln "4000.1 a"; ln "5000.2 b" ] dotted_files in
  (forall p, p <> py "./in/a.lst" -> same_file dotted_files p (py "./in/a.lst") = false ->
             files w' p = files dotted_files p) /\
  (Ok tt <> Ok tt -> w' = dotted_files) /\
  (Ok tt = Ok tt ->
   exists names atom_dict,
     listdir dotted_files (py "in") = Some names /\
     read_folder 10 dotted_files (py "in") names [] = Ok atom_dict /\
     created w' = py "./in/a.lst" :: created dotted_files /\
     (forall p, p = py "./in/a.lst" \/ same_file dotted_files p (py "./in/a.lst") = true ->
                files w' p = Some (concat (output_lines atom_dict))) /\
     forall name text bs p b l,
       In name names -> files dotted_files (path_join (py "in") name) = Some text ->
       reads (readlines text) 1 bs p -> In b bs -> In l (splice b) ->
       In l (output_lines atom_dict)) /\
  (forall b d d' h k ls,
     lookup (atomic_sym b) d = Some (h :: k :: ls) ->
     accumulate b d = Ok d' ->
     exists field,
       lookup (atomic_sym b) d'
       = Some ((firstn 27 h ++ field) :: k :: sort str_leb (ls ++ splice b)) /\
       length field = 10%nat /\
       ((27 <= length h)%nat -> firstn 27 (firstn 27 h ++ field) = firstn 27 h)).
Proof.
  apply (TurboSort_frame 10 (py "in") (py "./in/a.lst") dotted_files).
  vm_compute. reflexivity.
Defined.

(* ================================================================= *)
(** ** C10: every occurrence of the old count is replaced *)

(** C10, as stated, fails: line 89 replaces every occurrence, but lines
    90-92 then keep the last 10 characters only.  In a stored header with 12
    more characters after the count [1] and the field [1.5], both are
    replaced and then cut off: the rebuilt header holds neither the new
    count nor the other field. *)
Lemma rewritten_fields_are_cut_off :
  exists d',
    declared_count (ln (fe_header "   1  1.5   xxxxxxxxxxxx")) = Ok 1 /\
    skipn 27 (ln (fe_header "   1  1.5   xxxxxxxxxxxx"))
    = join (str_of_int 1) [py "   "; py "  "; ln ".5   xxxxxxxxxxxx"] /\
    accumulate fe_block_a dict_long_tail = Ok d' /\
    lookup fe_key d'
    = Some [ln (fe_header "xxxxxxxxx"); fe_key;
            ln "4000.1 a"; ln "4500.3 c"; ln "5000.2 b"] /\
    contains (skipn 27 (ln (fe_header "xxxxxxxxx"))) (str_of_int (2 + 1)) = false.
Proof.
  eexists. split; [vm_compute; reflexivity|].
  split; [vm_compute; reflexivity|].
  split; [vm_compute; reflexivity|].
  split; vm_compute; reflexivity.
Qed.

(** C10, amended. When a block merges into a stored block with the same
    key, line 89 replaces every occurrence of the digits of the old count in
    the stored header from character 27 on: if that part is the pieces
    [pieces] with the old digits between each two of them (the occurrences
    found from the left, without overlap), the replaced text is the same
    pieces with the new digits between them, whether the digits stood in the
    count or in another field.  The rebuilt header is the first 27
    characters followed by this text after spaces up to 10 characters when
    it has at most 10, and by its last 10 characters otherwise: a rewritten
    field is in the rebuilt header as far as it lies within these 10
    characters. *)
Theorem merge_replaces_every_occurrence
  (b : block) (d : dict) (h k : str) (ls : list str) (prev : Z) (pieces : list str) :
  lookup (atomic_sym b) d = Some (h :: k :: ls) ->
  declared_count h = Ok prev ->
  skipn 27 h = join (str_of_int prev) pieces ->
  leftmost_pieces (str_of_int prev) pieces = true ->
  exists d' h',
    accumulate b d = Ok d' /\
    lookup (atomic_sym b) d' = Some (h' :: k :: sort str_leb (ls ++ splice b)) /\
    let replaced := join (str_of_int (atomic_lines b + prev)) pieces in
    ((length replaced <= 10)%nat ->
     h' = firstn 27 h ++ repeat " "%char (10 - length replaced) ++ replaced) /\
    ((10 < length replaced)%nat ->
     h' = firstn 27 h ++ skipn (length replaced - 10) replaced).
Proof.
  intros Hl Hc Hj Hp. do 2 eexists. split; [|split].
  - apply (accumulate_merge b d h k ls prev Hl Hc).
  - apply lookup_setitem_same.
  - unfold rebuild_header. rewrite Hj, replace_join; trivial;
      [|apply str_of_int_nonempty].
    cbv zeta. split; intros Hlen.
    + destruct (Nat.eq_dec
                  (length (join (str_of_int (atomic_lines b + prev)) pieces)) 10)
        as [E|E].
      * rewrite justify_exact by trivial. rewrite E. reflexivity.
      * rewrite justify_short by lia. reflexivity.
    + now rewrite justify_long.
Qed.

Lemma merge_replaces_every_occurrence_witness :
  exists d' h',
    accumulate fe_block_a dict_two_fields = Ok d' /\
    lookup fe_key d'
    = Some (h' :: fe_key :: sort str_leb ([ln "4500.3 c"] ++ splice fe_block_a)) /\
    let replaced := join (str_of_int (2 + 1)) [py "   "; py "  "; ln ".5"] in
    ((length replaced <= 10)%nat ->
     h' = firstn 27 (ln (fe_header "   1  1.5"))
          ++ repeat " "%char (10 - length replaced) ++ replaced) /\
    ((10 < length replaced)%nat ->
     h' = firstn 27 (ln (fe_header "   1  1.5"))
          ++ skipn (length replaced - 10) replaced).
Proof.
  apply (merge_replaces_every_occurrence fe_block_a dict_two_fields
           (ln (fe_header "   1  1.5")) fe_key [ln "4500.3 c"] 1
           [py "   "; py "  "; ln ".5"]); vm_compute; reflexivity.
Defined.

Example two_fields_rewritten :
  firstn 27 (ln (fe_header "   1  1.5"))
    ++ justify (join (str_of_int (2 + 1)) [py "   "; py "  "; ln ".5"])
  = ln (fe_header "   3  3.5").
Proof. reflexivity. Qed.

(* ################################################################# *)
(** * Further properties of [TurboSort] *)

(** From here on [simpl] leaves sums and differences of integers alone. *)
Local Arguments Z.add : simpl never.
Local Arguments Z.sub : simpl never.

(* ================================================================= *)
(** ** Lists at an offset *)

Lemma getitem_app_at {A : Type} (pre rest : list A) (x : A) :
  getitem (pre ++ x :: rest) (len pre) = Ok x.
Proof.
  apply getitem_nth; [apply len_nonneg|].
  unfold len. rewrite Nat2Z.id, nth_error_app2, Nat.sub_diag by lia. reflexivity.
Qed.

Lemma slice_app_at {A : Type} (pre mid post : list A) :
  slice (pre ++ mid ++ post) (len pre) (len pre + len mid) = mid.
Proof.
  pose proof (len_nonneg pre). pose proof (len_nonneg mid). pose proof (len_nonneg post).
  rewrite slice_inside by (rewrite ?len_app; lia).
  replace (len pre + len mid - len pre) with (len mid) by lia.
  unfold len. rewrite !Nat2Z.id.
  rewrite skipn_app, skipn_all, Nat.sub_diag. simpl.
  rewrite firstn_app, firstn_all, Nat.sub_diag. simpl. apply app_nil_r.
Qed.

(** A slice from a position onwards, of a length that is not negative. *)
Lemma slice_from {A : Type} (l : list A) (start n : Z) :
  0 <= start -> 0 <= n ->
  slice l start (start + n) = firstn (Z.to_nat n) (skipn (Z.to_nat start) l).
Proof.
  intros Hs Hn. pose proof (len_nonneg l) as Hl. unfold slice, clamp.
  destruct (start <? 0) eqn:E1; [lia|].
  destruct (start + n <? 0) eqn:E2; [lia|].
  destruct (Z_le_gt_dec (len l) start) as [Hout|Hin].
  - rewrite !skipn_all2 by (unfold len in *; lia). now rewrite !firstn_nil.
  - rewrite (Z.min_l start) by lia.
    destruct (Z_le_gt_dec (start + n) (len l)) as [Hfit|Hcut].
    + rewrite Z.min_l by lia. f_equal. lia.
    + rewrite Z.min_r by lia.
      rewrite !firstn_all2; trivial; rewrite length_skipn; unfold len in *; lia.
Qed.

Lemma firstn_plus {A : Type} (a b : nat) (l : list A) :
  firstn (a + b) l = firstn a l ++ firstn b (skipn a l).
Proof.
  revert l. induction a as [|a IH]; intros l; simpl; trivial.
  destruct l as [|x l]; simpl.
  - now rewrite firstn_nil.
  - now rewrite IH.
Qed.

Lemma getitem_skipn {A : Type} (l : list A) (i : Z) (x : A) :
  0 <= i -> getitem l i = Ok x ->
  skipn (Z.to_nat i) l = x :: skipn (S (Z.to_nat i)) l.
Proof.
  intros Hi H. apply getitem_nth in H; trivial.
  revert H. generalize (Z.to_nat i). clear.
  intros n. revert l. induction n as [|n IH]; intros [|y l] H; simpl in *;
    try discriminate.
  - congruence.
  - now apply IH.
Qed.

Lemma getitem_In {A : Type} (l : list A) (i : Z) (x : A) :
  getitem l i = Ok x -> In x l.
Proof.
  unfold getitem. destruct (_ <? 0); [discriminate|].
  destruct (nth_error l _) eqn:E; [|discriminate].
  intros H. injection H as <-. eapply nth_error_In, E.
Qed.

(* ================================================================= *)
(** ** Blocks and the lines of a file *)

Lemma read_block_at (pre post : list str) (b : block) :
  block_complete b ->
  read_block (pre ++ block_lines b ++ post) (1 + len pre)
  = Ok (b, 1 + len pre + len (block_lines b)).
Proof.
  intros [Hc Hlen]. destruct b as [h k c ls]. unfold block_lines in *.
  cbn [header atomic_sym atomic_lines splice] in *.
  change ((h :: k :: ls) ++ post) with (h :: k :: ls ++ post).
  unfold read_block. cbv zeta.
  replace (1 + len pre - 1) with (len pre) by lia.
  rewrite getitem_app_at. cbn [bind].
  assert (Hk : getitem (pre ++ h :: k :: ls ++ post) (len pre + 1) = Ok k).
  { replace (len pre + 1) with (len (pre ++ [h])) by (rewrite len_app; reflexivity).
    replace (pre ++ h :: k :: ls ++ post) with ((pre ++ [h]) ++ k :: ls ++ post)
      by now rewrite <- app_assoc.
    apply getitem_app_at. }
  rewrite Hk. cbn [bind]. rewrite Hc. cbn [bind].
  assert (Hs : slice (pre ++ h :: k :: ls ++ post) (len pre + 2) (len pre + 2 + c) = ls).
  { replace (len pre + 2) with (len (pre ++ [h; k])) by (rewrite len_app; reflexivity).
    replace (pre ++ h :: k :: ls ++ post) with ((pre ++ [h; k]) ++ ls ++ post)
      by now rewrite <- app_assoc.
    rewrite <- Hlen. apply slice_app_at. }
  rewrite Hs. do 2 f_equal. unfold len in *. cbn [length]. lia.
Qed.

Lemma len_cons {A : Type} (x : A) (l : list A) : len (x :: l) = 1 + len l.
Proof. unfold len. cbn [length]. lia. Qed.

Lemma reads_at (bs : list block) :
  Forall block_complete bs ->
  forall pre post,
    reads (pre ++ concat (map block_lines bs) ++ post) (1 + len pre) bs
          (1 + len pre + len (concat (map block_lines bs))).
Proof.
  induction 1 as [|b bs Hb _ IH]; intros pre post; cbn [concat map].
  - change (len (@nil str)) with 0. rewrite Z.add_0_r. constructor.
  - rewrite <- app_assoc.
    apply reads_block with (next := 1 + len pre + len (block_lines b)).
    + rewrite !len_app.
      pose proof (len_nonneg (concat (map block_lines bs))).
      pose proof (len_nonneg post). pose proof (len_nonneg (splice b)).
      unfold block_lines at 1. rewrite !len_cons. lia.
    + now apply read_block_at.
    + specialize (IH (pre ++ block_lines b) post).
      rewrite len_app, <- app_assoc in IH.
      rewrite len_app. rewrite !Z.add_assoc in *. exact IH.
Qed.

(** The loop over blocks that [reads] gives, whatever their merge does. *)
Lemma walk_reads_bind (lines : list str) (p p' : Z) (bs : list block) :
  reads lines p bs p' ->
  forall (d : dict) (fuel : nat),
    walk (length bs + fuel) lines p d
    = (d' <- accumulate_all bs d ;; walk fuel lines p' d').
Proof.
  induction 1 as [p|p next p' b bs Hlt Hrd Hreads IH]; intros d fuel; simpl length.
  - reflexivity.
  - change (S (length bs) + fuel)%nat with (S (length bs + fuel)).
    rewrite walk_step by trivial. rewrite Hrd. simpl.
    destruct (accumulate b d) as [d1| |]; simpl; trivial.
Qed.

(** X1. A file made of complete blocks (each header declaring the number
    of lines that follow its key) is read back as exactly these blocks, the
    loop ending at the end of the file; its effect on the accumulator is
    that of storing or merging these blocks in turn. *)
Theorem complete_blocks_read_back (bs : list block) (fuel : nat) (d : dict) :
  Forall block_complete bs ->
  (length bs <= fuel)%nat ->
  let lines := concat (map block_lines bs) in
  reads lines 1 bs (1 + len lines) /\
  walk fuel lines 1 d = accumulate_all bs d.
Proof.
  intros Hbs Hfuel lines.
  assert (Hr : reads lines 1 bs (1 + len lines)).
  { pose proof (reads_at bs Hbs [] []) as H. simpl in H.
    rewrite app_nil_r in H. exact H. }
  split; trivial.
  replace fuel with (length bs + (fuel - length bs))%nat by lia.
  rewrite (walk_reads_bind _ _ _ _ Hr).
  destruct (accumulate_all bs d) as [d'| |]; simpl; trivial.
  apply walk_done. lia.
Qed.

Lemma complete_blocks_read_back_witness :
  let lines := concat (map block_lines two_blocks) in
  reads lines 1 two_blocks (1 + len lines) /\
  walk 5 lines 1 [] = accumulate_all two_blocks [].
Proof.
  apply (complete_blocks_read_back two_blocks 5 []).
  - repeat constructor.
  - simpl. lia.
Defined.

Lemma read_block_lines (lines : list str) (p next : Z) (b : block) :
  1 <= p -> read_block lines p = Ok (b, next) -> 0 <= atomic_lines b ->
  next = p + atomic_lines b + 2 /\
  block_lines b
  = firstn (Z.to_nat (atomic_lines b + 2)) (skipn (Z.to_nat (p - 1)) lines).
Proof.
  intros Hp Hrd Hc. unfold read_block in Hrd.
  invert_bind Hrd. rename x into h, Hx into Hh.
  invert_bind Hrd. rename x into k, Hx into Hk.
  invert_bind Hrd. rename x into c, Hx into Hcount.
  injection Hrd as <- <-. simpl in *. split; [lia|].
  unfold block_lines. simpl.
  rewrite (getitem_skipn lines (p - 1) h) by (trivial; lia).
  replace (S (Z.to_nat (p - 1))) with (Z.to_nat (p - 1 + 1)) by lia.
  rewrite (getitem_skipn lines (p - 1 + 1) k) by (trivial; lia).
  replace (Z.to_nat (c + 2)) with (S (S (Z.to_nat c))) by lia.
  cbn [firstn]. do 2 f_equal.
  rewrite slice_from by lia. do 2 f_equal. lia.
Qed.

(** X2. The blocks that the loop reads, when none declares a negative
    count, are consecutive pieces of the file: put end to end, their headers,
    keys and lines are the lines of the file from the first header read up
    to the position where the loop stands; no line is skipped and none is
    read twice. *)
Theorem blocks_tile_the_file (lines : list str) (p p' : Z) (bs : list block) :
  reads lines p bs p' ->
  1 <= p ->
  Forall (fun b => 0 <= atomic_lines b) bs ->
  p <= p' /\
  concat (map block_lines bs)
  = firstn (Z.to_nat (p' - p)) (skipn (Z.to_nat (p - 1)) lines).
Proof.
  induction 1 as [p|p next p' b bs Hlt Hrd Hreads IH]; intros Hp Hbs.
  - split; [lia|]. now rewrite Z.sub_diag.
  - inversion_clear Hbs as [|? ? Hb Hbs'].
    destruct (read_block_lines lines p next b Hp Hrd Hb) as [-> Hlines].
    destruct (IH ltac:(lia) Hbs') as [Hle Hrest].
    split; [lia|]. cbn [concat map]. rewrite Hlines, Hrest.
    replace (Z.to_nat (p' - p))
      with (Z.to_nat (atomic_lines b + 2)
            + Z.to_nat (p' - (p + atomic_lines b + 2)))%nat by lia.
    rewrite firstn_plus, skipn_skipn. do 3 f_equal. lia.
Qed.

Lemma blocks_tile_the_file_witness :
  1 <= 7 /\
  concat (map block_lines [fe_block_b; li_block])
  = firstn (Z.to_nat (7 - 1)) (skipn (Z.to_nat (1 - 1)) (readlines file_b)).
Proof.
  apply (blocks_tile_the_file (readlines file_b) 1 7 [fe_block_b; li_block]).
  - eapply reads_block; [reflexivity|vm_compute; reflexivity|].
    eapply reads_block; [reflexivity|vm_compute; reflexivity|apply reads_here].
  - lia.
  - repeat constructor; vm_compute; discriminate.
Defined.

(* ================================================================= *)
(** ** Outcomes of one turn of the loop *)

Lemma declared_count_not_timeout (h : str) : declared_count h <> Timeout.
Proof.
  unfold declared_count.
  destruct (getitem_raises (split h) 4) as [[tok ->]| ->]; simpl; [|discriminate].
  unfold int. destruct tok as [|c s]; [discriminate|].
  destruct (Ascii.eqb c "-"); [|destruct (Ascii.eqb c "+")];
    destruct (int_digits 0 false _); discriminate.
Qed.

Lemma accumulate_not_timeout (b : block) (d : dict) : accumulate b d <> Timeout.
Proof.
  unfold accumulate. destruct (lookup _ d) as [[|h rest]|]; try discriminate.
  pose proof (declared_count_not_timeout h).
  destruct (declared_count h); simpl; congruence.
Qed.

Lemma read_block_not_timeout (lines : list str) (p : Z) : read_block lines p <> Timeout.
Proof.
  unfold read_block.
  destruct (getitem_raises lines (p - 1)) as [[h ->]| ->]; simpl; [|discriminate].
  destruct (getitem_raises lines (p - 1 + 1)) as [[k ->]| ->]; simpl; [|discriminate].
  pose proof (declared_count_not_timeout h).
  destruct (declared_count h); simpl; congruence.
Qed.

(** What line 84 leaves in [file_line]. *)
Lemma read_block_next (lines : list str) (p next : Z) (b : block) :
  read_block lines p = Ok (b, next) ->
  next = p + atomic_lines b + 2 /\
  In (header b) lines /\
  declared_count (header b) = Ok (atomic_lines b).
Proof.
  unfold read_block. intros H.
  invert_bind H. rename x into h, Hx into Hh.
  invert_bind H. invert_bind H.
  injection H as <- <-. simpl. split; [lia|]. split; trivial.
  eapply getitem_In, Hh.
Qed.

(** A loop that ends has read the blocks of [reads] and merged them. *)
Lemma walk_reads_inv (lines : list str) (p p' : Z) (bs : list block) :
  reads lines p bs p' ->
  forall (fuel : nat) (d d1 : dict),
    walk fuel lines p d = Ok d1 ->
    exists d' fuel',
      accumulate_all bs d = Ok d' /\ walk fuel' lines p' d' = Ok d1.
Proof.
  induction 1 as [p|p next p' b bs Hlt Hrd Hreads IH]; intros fuel d d1 Hw.
  - exists d, fuel. auto.
  - destruct fuel as [|fuel].
    + simpl in Hw. destruct (p <? len lines) eqn:E; [discriminate|lia].
    + rewrite walk_step in Hw by trivial. rewrite Hrd in Hw. simpl in Hw.
      invert_bind Hw. destruct (IH _ _ _ Hw) as (d' & fuel' & Hall & Hw').
      exists d', fuel'. simpl. rewrite Hx. auto.
Qed.

(* ================================================================= *)
(** ** When the loop ends *)

Lemma walk_ends (lines : list str) :
  (forall h c, In h lines -> declared_count h = Ok c -> 0 <= c) ->
  forall (fuel : nat) (p : Z) (d : dict),
    len lines - p <= Z.of_nat fuel ->
    walk fuel lines p d <> Timeout.
Proof.
  intros Hpos. induction fuel as [|fuel IH]; intros p d Hfuel.
  - rewrite walk_done by lia. discriminate.
  - destruct (Z_lt_ge_dec p (len lines)) as [Hlt|Hge];
      [|rewrite walk_done by lia; discriminate].
    rewrite walk_step by trivial.
    pose proof (read_block_not_timeout lines p) as Hrd.
    destruct (read_block lines p) as [[b next]|e|] eqn:E; simpl;
      [|discriminate|congruence].
    pose proof (accumulate_not_timeout b d) as Hacc.
    destruct (accumulate b d) as [d'|e|]; simpl; [|discriminate|congruence].
    destruct (read_block_next _ _ _ _ E) as (-> & Hin & Hc).
    pose proof (Hpos _ _ Hin Hc). apply IH. lia.
Qed.

(** X3. When no line of any file of the folder declares a negative count
    (token 4, where it parses as an integer), the loop over each file ends
    within as many turns as the file has lines: the call returns or raises,
    it cannot run forever. *)
Theorem TurboSort_ends
  (fuel : nat) (input_folder output_file : str) (w : world) :
  (forall names name text,
     listdir w input_folder = Some names -> In name names ->
     files w (path_join input_folder name) = Some text ->
     (length (readlines text) <= fuel)%nat /\
     forall h c, In h (readlines text) -> declared_count h = Ok c -> 0 <= c) ->
  fst (TurboSort fuel input_folder output_file w) <> Timeout.
Proof.
  intros H. unfold TurboSort.
  destruct (listdir w input_folder) as [names|] eqn:Hdir; [|discriminate].
  assert (H' : forall name text,
             In name names -> files w (path_join input_folder name) = Some text ->
             (length (readlines text) <= fuel)%nat /\
             forall h c, In h (readlines text) -> declared_count h = Ok c -> 0 <= c)
    by (intros; eapply H; eauto).
  clear H Hdir.
  assert (Hread : forall d, read_folder fuel w input_folder names d <> Timeout).
  { induction names as [|n ns IH]; intros d; simpl; [discriminate|].
    destruct (files w (path_join input_folder n)) as [text|] eqn:Hf; [|discriminate].
    destruct (H' n text (or_introl eq_refl) Hf) as [Hlen Hpos].
    pose proof (walk_ends (readlines text) Hpos fuel 1 d) as Hw.
    destruct (walk fuel (readlines text) 1 d) as [d'|e|]; simpl.
    - apply IH. intros name text' Hin. apply H'. now right.
    - discriminate.
    - apply Hw. unfold len. lia. }
  specialize (Hread []).
  destruct (read_folder fuel w input_folder names []); simpl; congruence.
Qed.

Lemma TurboSort_ends_witness :
  fst (TurboSort 6 (py "in") (py "out.lst") two_files) <> Timeout.
Proof.
  apply (TurboSort_ends 6 (py "in") (py "out.lst") two_files).
  intros names name text Hdir Hin Hf.
  injection Hdir as <-.
  destruct Hin as [<-|[<-|[]]]; injection Hf as <-;
    (split; [vm_compute; lia|]);
    intros h c Hh Hc;
    repeat (destruct Hh as [<-|Hh];
            [vm_compute in Hc; first [discriminate | (injection Hc as <-; lia)]|]);
    destruct Hh.
Defined.

(* ================================================================= *)
(** ** A header that declares -2 lines *)

Lemma walk_stuck (lines : list str) (p : Z) (b : block) :
  p < len lines -> read_block lines p = Ok (b, p) ->
  forall (fuel : nat) (d d1 : dict), walk fuel lines p d <> Ok d1.
Proof.
  intros Hlt Hrd. induction fuel as [|fuel IH]; intros d d1.
  - simpl. destruct (p <? len lines) eqn:E; [discriminate|lia].
  - rewrite walk_step by trivial. rewrite Hrd. simpl.
    destruct (accumulate b d) as [d'|e|]; simpl; try discriminate. apply IH.
Qed.

(** X4. When the loop arrives at a header that declares -2 lines (and a
    line follows it), line 84 sets [file_line] back to this header: whatever
    the number of turns allowed, the call does not return normally (it runs
    on, or raises in a later merge), and it writes nothing. *)
Theorem count_minus_two_never_returns
  (fuel : nat) (input_folder output_file : str) (w : world)
  (before after : list str) (name text : str)
  (bs : list block) (p next : Z) (b : block) :
  listdir w input_folder = Some (before ++ name :: after) ->
  files w (path_join input_folder name) = Some text ->
  reads (readlines text) 1 bs p ->
  p < len (readlines text) ->
  read_block (readlines text) p = Ok (b, next) ->
  atomic_lines b = -2 ->
  fst (TurboSort fuel input_folder output_file w) <> Ok tt /\
  snd (TurboSort fuel input_folder output_file w) = w.
Proof.
  intros Hdir Htext Hreads Hlt Hrd Hc.
  assert (Hnext : next = p).
  { destruct (read_block_next _ _ _ _ Hrd) as (-> & _). lia. }
  subst next.
  assert (Hno : forall d, read_folder fuel w input_folder (before ++ name :: after) []
                          <> Ok d).
  { intros d Hd. rewrite read_folder_app in Hd. invert_bind Hd.
    simpl in Hd. rewrite Htext in Hd. invert_bind Hd.
    destruct (walk_reads_inv _ _ _ _ Hreads _ _ _ Hx0) as (d' & fuel' & _ & Hw).
    exact (walk_stuck _ _ _ Hlt Hrd _ _ _ Hw). }
  unfold TurboSort. rewrite Hdir.
  destruct (read_folder fuel w input_folder (before ++ name :: after) []) as [d|e|];
    simpl; [destruct (Hno d eq_refl)| |]; split; trivial; discriminate.
Qed.

Lemma count_minus_two_never_returns_witness :
  fst (TurboSort 1000 (py "in") (py "out.lst") (single_file file_minus_two)) <> Ok tt /\
  snd (TurboSort 1000 (py "in") (py "out.lst") (single_file file_minus_two))
  = single_file file_minus_two.
Proof.
  apply (count_minus_two_never_returns 1000 (py "in") (py "out.lst")
           (single_file file_minus_two) [] [] (py "a.lst") file_minus_two [] 1 1
           (Block (ln "'  26.0000           '    1        -2") fe_key (-2) []));
    try reflexivity.
  - constructor.
Defined.

(* ================================================================= *)
(** ** A count that is not an integer literal *)

Lemma int_digits_bad (c : ascii) (s : str) :
  In c s -> isdigit c = false -> c <> "_"%char ->
  forall acc after, int_digits acc after s = None.
Proof.
  intros Hin Hd Hu. induction s as [|x s IH]; intros acc after; [destruct Hin|].
  simpl. destruct Hin as [->|Hin].
  - rewrite Hd. destruct (Ascii.eqb_spec c "_"); [congruence|reflexivity].
  - destruct (isdigit x); [now apply IH|].
    destruct (Ascii.eqb x "_" && after); [now apply IH|reflexivity].
Qed.

(** [int] raises [ValueError] on a token that holds a character other than
    a digit, an underscore or a sign. *)
Lemma int_bad_character (c : ascii) (tok : str) :
  In c tok -> isdigit c = false ->
  c <> "_"%char -> c <> "+"%char -> c <> "-"%char ->
  int tok = Raise ValueError.
Proof.
  intros Hin Hd Hu Hp Hm. unfold int. destruct tok as [|x s]; trivial.
  destruct (Ascii.eqb_spec x "-") as [->|_];
    [|destruct (Ascii.eqb_spec x "+") as [->|_]].
  - destruct Hin as [E|Hin]; [congruence|]. now rewrite int_digits_bad with (c := c).
  - destruct Hin as [E|Hin]; [congruence|]. now rewrite int_digits_bad with (c := c).
  - now rewrite int_digits_bad with (c := c).
Qed.

(** X5. When the loop arrives, everything before having been read and
    merged without an exception, at a header whose token 4 holds a character
    that is neither a digit, an underscore nor a sign (a count written
    [2.00], say), the call raises [ValueError] and writes nothing. *)
Theorem non_integer_count_raises
  (fuel : nat) (input_folder output_file : str) (w : world)
  (before after : list str) (name text : str)
  (d0 d : dict) (bs : list block) (p : Z) (h k tok : str) (c : ascii) :
  listdir w input_folder = Some (before ++ name :: after) ->
  read_folder fuel w input_folder before [] = Ok d0 ->
  files w (path_join input_folder name) = Some text ->
  reads (readlines text) 1 bs p ->
  accumulate_all bs d0 = Ok d ->
  (length bs < fuel)%nat ->
  p < len (readlines text) ->
  getitem (readlines text) (p - 1) = Ok h ->
  getitem (readlines text) p = Ok k ->
  getitem (split h) 4 = Ok tok ->
  In c tok -> isdigit c = false ->
  c <> "_"%char -> c <> "+"%char -> c <> "-"%char ->
  TurboSort fuel input_folder output_file w = (Raise ValueError, w).
Proof.
  intros Hdir Hbefore Htext Hreads Hacc Hfuel Hp Hh Hk Htok Hin Hd Hu Hpl Hm.
  unfold TurboSort. rewrite Hdir, read_folder_app, Hbefore. simpl.
  rewrite Htext.
  replace fuel with (length bs + S (fuel - length bs - 1))%nat by lia.
  rewrite (walk_reads _ _ _ _ Hreads d0 d _ Hacc).
  rewrite walk_step by trivial.
  unfold read_block. rewrite Hh. simpl.
  replace (p - 1 + 1) with p by lia. rewrite Hk. simpl.
  unfold declared_count. rewrite Htok. simpl.
  now rewrite (int_bad_character c tok).
Qed.

Lemma non_integer_count_raises_witness :
  TurboSort 10 (py "in") (py "out.lst") (single_file file_float_count)
  = (Raise ValueError, single_file file_float_count).
Proof.
  apply (non_integer_count_raises 10 (py "in") (py "out.lst")
           (single_file file_float_count) [] [] (py "a.lst") file_float_count
           [] [] [] 1 (ln "'  26.0000           '    1      2.00") fe_key
           (py "2.00") "."%char); try reflexivity; try discriminate.
  - constructor.
  - simpl. lia.
  - simpl. tauto.
Defined.

(* ================================================================= *)
(** ** Files in which the loop reads nothing *)

Lemma read_folder_skips (fuel : nat) (w : world) (folder : str) (names : list str) :
  forall d,
    read_folder fuel w folder names d
    = read_folder fuel w folder (filter (has_block w folder) names) d.
Proof.
  induction names as [|n names IH]; intros d; simpl; trivial.
  unfold has_block at 1.
  destruct (files w (path_join folder n)) as [text|] eqn:Hf.
  - destruct (Z.ltb_spec 1 (len (readlines text))) as [Hlt|Hge].
    + simpl. rewrite Hf.
      destruct (walk fuel (readlines text) 1 d); simpl; trivial.
    + rewrite walk_done by trivial. simpl. apply IH.
  - simpl. now rewrite Hf.
Qed.

(** X6. A file with fewer than two lines (an empty file, or a lone
    header) is passed over: the call does what it would do without it.  In
    particular a folder with no other files, or no file at all, gives an
    empty output file. *)
Theorem short_files_are_skipped
  (fuel : nat) (input_folder output_file : str) (w : world) (names : list str) :
  listdir w input_folder = Some names ->
  TurboSort fuel input_folder output_file w
  = match read_folder fuel w input_folder
            (filter (has_block w input_folder) names) [] with
    | Ok atom_dict =>
        (Ok tt, write_lines output_file (output_lines atom_dict) w)
    | Raise e => (Raise e, w)
    | Timeout => (Timeout, w)
    end /\
  (filter (has_block w input_folder) names = [] ->
   TurboSort fuel input_folder output_file w
   = (Ok tt, write_lines output_file [] w)).
Proof.
  intros Hdir. unfold TurboSort. rewrite Hdir, read_folder_skips.
  split; trivial. intros ->. reflexivity.
Qed.

Lemma short_files_are_skipped_witness :
  TurboSort 10 (py "in") (py "out.lst") (folder_of (ln "a b c d 7") file_li)
  = match read_folder 10 (folder_of (ln "a b c d 7") file_li) (py "in")
            (filter (has_block (folder_of (ln "a b c d 7") file_li) (py "in"))
                    [py "a.lst"; py "b.lst"]) [] with
    | Ok atom_dict =>
        (Ok tt, write_lines (py "out.lst") (output_lines atom_dict)
                  (folder_of (ln "a b c d 7") file_li))
    | Raise e => (Raise e, folder_of (ln "a b c d 7") file_li)
    | Timeout => (Timeout, folder_of (ln "a b c d 7") file_li)
    end /\
  (filter (has_block (folder_of (ln "a b c d 7") file_li) (py "in"))
          [py "a.lst"; py "b.lst"] = [] ->
   TurboSort 10 (py "in") (py "out.lst") (folder_of (ln "a b c d 7") file_li)
   = (Ok tt, write_lines (py "out.lst") [] (folder_of (ln "a b c d 7") file_li))).
Proof.
  apply (short_files_are_skipped 10 (py "in") (py "out.lst")
           (folder_of (ln "a b c d 7") file_li) [py "a.lst"; py "b.lst"]).
  reflexivity.
Defined.

Example lone_header_is_skipped :
  filter (has_block (folder_of (ln "a b c d 7") file_li) (py "in"))
         [py "a.lst"; py "b.lst"] = [py "b.lst"].
Proof. reflexivity. Qed.

(* ================================================================= *)
(** ** One block for each key *)

Lemma lines_read_snoc (k : str) (bs : list block) (b : block) :
  lines_read k (bs ++ [b])
  = lines_read k bs ++ (if str_eqb (atomic_sym b) k then splice b else []).
Proof.
  unfold lines_read. rewrite filter_app, flat_map_app. simpl.
  destruct (str_eqb (atomic_sym b) k); simpl; now rewrite ?app_nil_r.
Qed.

Lemma lines_read_absent (k : str) (bs : list block) :
  ~ In k (map atomic_sym bs) -> lines_read k bs = [].
Proof.
  unfold lines_read. induction bs as [|b bs IH]; simpl; intros Hk; trivial.
  destruct (str_eqb (atomic_sym b) k) eqn:E.
  - apply str_eqb_eq in E. tauto.
  - apply IH. tauto.
Qed.

Lemma map_fst_setitem (k : str) (v : entry) (d : dict) :
  map fst (setitem k v d)
  = match lookup k d with
    | Some _ => map fst d
    | None => map fst d ++ [k]
    end.
Proof.
  induction d as [|[k' v'] d IH]; simpl; trivial.
  destruct (str_eqb k k'); simpl; trivial.
  rewrite IH. now destruct (lookup k d).
Qed.

Lemma lookup_In (k : str) (e : entry) (d : dict) :
  lookup k d = Some e -> In (k, e) d.
Proof.
  induction d as [|[k' v] d IH]; simpl; [discriminate|].
  destruct (str_eqb k k') eqn:E.
  - apply str_eqb_eq in E. intros H. left. congruence.
  - auto.
Qed.

Lemma In_lookup (k : str) (e : entry) (d : dict) :
  NoDup (map fst d) -> In (k, e) d -> lookup k d = Some e.
Proof.
  induction d as [|[k' v] d IH]; simpl; intros Hnd Hin; [destruct Hin|].
  inversion_clear Hnd as [|? ? Hk Hnd'].
  destruct Hin as [E|Hin].
  - injection E as -> ->. now rewrite str_eqb_refl.
  - destruct (str_eqb k k') eqn:E; [|auto].
    apply str_eqb_eq in E. subst k'. exfalso. apply Hk.
    apply in_map_iff. exists (k, e). auto.
Qed.

Lemma accumulate_keys (b : block) (d d' : dict) :
  accumulate b d = Ok d' -> NoDup (map fst d) -> NoDup (map fst d').
Proof.
  unfold accumulate. intros Ha Hnd.
  destruct (lookup (atomic_sym b) d) as [stored|] eqn:Hl.
  - destruct stored as [|h rest]; [discriminate|]. invert_bind Ha.
    injection Ha as <-. now rewrite map_fst_setitem, Hl.
  - injection Ha as <-. rewrite map_fst_setitem, Hl.
    apply NoDup_app; trivial.
    + constructor; [intros []|constructor].
    + intros k Hk [<-|[]]. now apply lookup_None in Hl.
Qed.

Lemma accumulate_merges (b : block) (d d' : dict) (bs : list block) :
  accumulate b d = Ok d' -> dict_merges d bs -> dict_merges d' (bs ++ [b]).
Proof.
  intros Ha Hd k. specialize (Hd k).
  assert (Hkeys : In k (map atomic_sym (bs ++ [b]))
                  <-> In k (map atomic_sym bs) \/ atomic_sym b = k).
  { rewrite map_app, in_app_iff. simpl. tauto. }
  rewrite lines_read_snoc.
  destruct (list_eq_dec ascii_dec k (atomic_sym b)) as [->|Hne].
  - rewrite str_eqb_refl.
    destruct (lookup (atomic_sym b) d) as [e|] eqn:Hl.
    + destruct Hd as (h & ls & -> & Hperm & Hin).
      destruct (accumulate_merge_inv _ _ _ _ _ _ Hl Ha) as (prev & _ & ->).
      rewrite lookup_setitem_same. do 2 eexists. split; [reflexivity|].
      split; [|tauto].
      eapply perm_trans; [apply Permutation_app_tail, Hperm|apply sort_perm].
    + rewrite accumulate_new in Ha by trivial. injection Ha as <-.
      rewrite lookup_setitem_same. do 2 eexists. split; [reflexivity|].
      split; [|tauto].
      rewrite lines_read_absent by trivial. apply Permutation_refl.
  - assert (Hsame : lookup k d' = lookup k d).
    { unfold accumulate in Ha.
      destruct (lookup (atomic_sym b) d) as [[|h rest]|]; try discriminate.
      - invert_bind Ha. injection Ha as <-. now apply lookup_setitem_other.
      - injection Ha as <-. now apply lookup_setitem_other. }
    rewrite Hsame.
    assert (E : str_eqb (atomic_sym b) k = false) by (apply str_eqb_neq; congruence).
    rewrite E, app_nil_r.
    destruct (lookup k d) as [e|].
    + destruct Hd as (h & ls & -> & Hperm & Hin). exists h, ls. tauto.
    + rewrite Hkeys. intros [H|H]; [tauto|congruence].
Qed.

Lemma accumulate_all_merges (bs : list block) :
  forall (d d' : dict) (pre : list block),
    accumulate_all bs d = Ok d' ->
    NoDup (map fst d) -> dict_merges d pre ->
    NoDup (map fst d') /\ dict_merges d' (pre ++ bs).
Proof.
  induction bs as [|b bs IH]; intros d d' pre Hall Hnd Hd; simpl in Hall.
  - injection Hall as <-. now rewrite app_nil_r.
  - invert_bind Hall.
    destruct (IH x d' (pre ++ [b]) Hall (accumulate_keys _ _ _ Hx Hnd)
                (accumulate_merges _ _ _ _ Hx Hd)) as [H1 H2].
    split; trivial. now rewrite <- app_assoc in H2.
Qed.

(** A folder read to the end has merged the blocks of its files in turn. *)
Lemma read_folder_blocks_inv (fuel : nat) (w : world) (folder : str)
  (names : list str) (bss : list (list block)) :
  folder_blocks w folder names bss ->
  forall d d',
    read_folder fuel w folder names d = Ok d' ->
    accumulate_all (concat bss) d = Ok d'.
Proof.
  induction 1 as [|name bs names bss (text & p & Htext & Hreads & Hp) _ IH];
    intros d d' Hread; simpl in *.
  - exact Hread.
  - rewrite Htext in Hread. invert_bind Hread.
    destruct (walk_reads_inv _ _ _ _ Hreads _ _ _ Hx) as (d1 & fuel' & Hall & Hw).
    rewrite walk_done in Hw by trivial. injection Hw as ->.
    rewrite accumulate_all_app, Hall. simpl. now apply IH.
Qed.

Lemma folder_merges (fuel : nat) (w : world) (folder : str)
  (names : list str) (bss : list (list block)) (d : dict) :
  folder_blocks w folder names bss ->
  read_folder fuel w folder names [] = Ok d ->
  NoDup (map fst d) /\ dict_merges d (concat bss).
Proof.
  intros Hb Hr.
  apply (accumulate_all_merges (concat bss) [] d []).
  - eapply read_folder_blocks_inv; eauto.
  - constructor.
  - intros k. simpl. tauto.
Qed.

Lemma in_values (d : dict) (e : entry) :
  In e (values d) <-> exists k, In (k, e) d.
Proof.
  unfold values. rewrite in_map_iff. split.
  - intros ([k e'] & <- & H). eauto.
  - intros (k & H). exists (k, e). auto.
Qed.

(* ================================================================= *)
(** ** Lines and their terminators *)

Lemma terminated_app (a b : str) :
  b <> [] -> terminated (a ++ b) = forallb plain a && terminated b.
Proof.
  intros Hb. induction a as [|c a IH]; trivial.
  change ((c :: a) ++ b) with (c :: (a ++ b)). cbn [terminated forallb].
  destruct (a ++ b) as [|c' r] eqn:E.
  - apply app_eq_nil in E. tauto.
  - rewrite IH. apply andb_assoc.
Qed.

Lemma terminated_has_LF (l : str) : terminated l = true -> In LF l.
Proof.
  induction l as [|c l IH]; [discriminate|]. cbn [terminated].
  destruct l as [|c' l'].
  - intros H. apply Ascii.eqb_eq in H. now left.
  - intros H. apply andb_prop in H. right. now apply IH.
Qed.

Lemma not_space_plain (c : ascii) : isspace c = false -> plain c = true.
Proof.
  intros H. unfold plain.
  destruct (Ascii.eqb_spec c LF) as [->|_]; [discriminate|].
  destruct (Ascii.eqb_spec c CR) as [->|_]; [discriminate|reflexivity].
Qed.

Lemma str_of_int_plain (n : Z) : forallb plain (str_of_int n) = true.
Proof.
  apply forallb_forall. intros c Hc. apply not_space_plain.
  pose proof (str_of_int_no_space n) as H.
  rewrite Forall_forall in H. auto.
Qed.

Lemma str_of_int_not_terminated (n : Z) : terminated (str_of_int n) = false.
Proof.
  destruct (terminated (str_of_int n)) eqn:E; trivial.
  apply terminated_has_LF in E.
  pose proof (str_of_int_no_space n) as H. rewrite Forall_forall in H.
  specialize (H _ E). discriminate.
Qed.

Lemma terminated_skipn (n : nat) (l : str) :
  terminated l = true -> (n < length l)%nat -> terminated (skipn n l) = true.
Proof.
  intros H Hn. rewrite <- (firstn_skipn n l) in H.
  rewrite terminated_app in H.
  - now apply andb_prop in H.
  - intros E. apply (f_equal (@length ascii)) in E.
    rewrite length_skipn in E. simpl in E. lia.
Qed.

Lemma terminated_justify (r : str) :
  terminated r = true -> terminated (justify r) = true.
Proof.
  intros H.
  assert (Hne : r <> []) by (intros ->; discriminate).
  destruct (Nat.lt_trichotomy (length r) 10) as [Hlt|[Heq|Hgt]].
  - rewrite justify_short, terminated_app, H, andb_true_r by trivial.
    apply forallb_forall. intros c Hc. apply repeat_spec in Hc. now subst c.
  - now rewrite justify_exact.
  - rewrite justify_long by trivial. apply terminated_skipn; trivial. lia.
Qed.

(** The header rebuilt from a terminated header is terminated. *)
Lemma rebuild_terminated (h : str) (c c' : Z) :
  header_layout h c -> terminated h = true ->
  terminated (rebuild_header h c c') = true.
Proof.
  intros (start & pad & tail & -> & Hlen & _ & Hpad & Hsp & Htail & _) H.
  unfold rebuild_header.
  destruct (layout_parts start (pad ++ str_of_int c ++ tail) Hlen) as [-> ->].
  rewrite replace_padded by trivial.
  rewrite terminated_app in H
    by (intros E; apply app_eq_nil in E; tauto).
  apply andb_prop in H. destruct H as [Hstart H].
  rewrite terminated_app in H
    by (intros E; apply app_eq_nil in E; destruct E as [E _];
        now apply str_of_int_nonempty in E).
  apply andb_prop in H. destruct H as [Hplain H].
  assert (Hne : tail <> []).
  { intros ->. rewrite app_nil_r, str_of_int_not_terminated in H. discriminate. }
  rewrite terminated_app in H by trivial.
  apply andb_prop in H. destruct H as [_ Hend].
  assert (Hnew : terminated (pad ++ str_of_int c' ++ tail) = true).
  { rewrite terminated_app
      by (intros E; apply app_eq_nil in E; tauto).
    rewrite terminated_app by trivial.
    now rewrite Hplain, str_of_int_plain, Hend. }
  apply terminated_justify in Hnew.
  rewrite terminated_app by (intros E; rewrite E in Hnew; discriminate).
  now rewrite Hstart, Hnew.
Qed.

Lemma universal_newlines_line (l rest : str) :
  terminated l = true ->
  universal_newlines (l ++ rest) = l ++ universal_newlines rest.
Proof.
  induction l as [|c l IH]; [discriminate|]. cbn [terminated].
  destruct l as [|c' l'].
  - intros H. apply Ascii.eqb_eq in H. subst c. reflexivity.
  - intros H. apply andb_prop in H. destruct H as [Hc H].
    unfold plain in Hc. apply andb_prop in Hc. destruct Hc as [_ Hc].
    apply negb_true_iff in Hc.
    change ((c :: c' :: l') ++ rest) with (c :: ((c' :: l') ++ rest)).
    cbn [universal_newlines]. rewrite Hc, IH by trivial. reflexivity.
Qed.

Lemma keepends_line (l rest : str) :
  terminated l = true -> keepends (l ++ rest) = l :: keepends rest.
Proof.
  induction l as [|c l IH]; [discriminate|]. cbn [terminated].
  destruct l as [|c' l'].
  - intros H. apply Ascii.eqb_eq in H. subst c. reflexivity.
  - intros H. apply andb_prop in H. destruct H as [Hc H].
    unfold plain in Hc. apply andb_prop in Hc. destruct Hc as [Hc _].
    apply negb_true_iff in Hc.
    change ((c :: c' :: l') ++ rest) with (c :: ((c' :: l') ++ rest)).
    cbn [keepends]. rewrite Hc, IH by trivial. reflexivity.
Qed.

(** Terminated lines written one after the other are read back as they
    were written. *)
Lemma readlines_concat (ls : list str) :
  forallb terminated ls = true -> readlines (concat ls) = ls.
Proof.
  unfold readlines. induction ls as [|l ls IH]; cbn [forallb concat]; trivial.
  intros H. apply andb_prop in H. destruct H as [Hl Hls].
  rewrite universal_newlines_line, keepends_line by trivial.
  now rewrite IH.
Qed.

(* ================================================================= *)
(** ** Merging the output again *)

Lemma accumulate_other (b : block) (d d' : dict) (k : str) :
  accumulate b d = Ok d' -> k <> atomic_sym b -> lookup k d' = lookup k d.
Proof.
  unfold accumulate. intros Ha Hne.
  destruct (lookup (atomic_sym b) d) as [[|h rest]|]; try discriminate.
  - invert_bind Ha. injection Ha as <-. now apply lookup_setitem_other.
  - injection Ha as <-. now apply lookup_setitem_other.
Qed.

Lemma forallb_sort (f : str -> bool) (l : list str) :
  forallb f l = true -> forallb f (sort str_leb l) = true.
Proof.
  rewrite !forallb_forall. intros H x Hx. apply H.
  eapply Permutation_in; [apply Permutation_sym, sort_perm|exact Hx].
Qed.

Lemma accumulate_terminated (b : block) (d d' : dict) :
  dict_counted d -> dict_terminated d ->
  forallb terminated (block_lines b) = true ->
  accumulate b d = Ok d' -> dict_terminated d'.
Proof.
  intros Hd Ht Hb Ha k e Hk.
  destruct (list_eq_dec ascii_dec k (atomic_sym b)) as [->|Hne];
    [|rewrite (accumulate_other _ _ _ _ Ha Hne) in Hk; eauto].
  destruct (lookup (atomic_sym b) d) as [e0|] eqn:Hl.
  - destruct (Hd _ _ Hl) as (h & ls & -> & Hlay).
    destruct (accumulate_merge_inv _ _ _ _ _ _ Hl Ha) as (prev & Hprev & ->).
    rewrite (layout_declared_count _ _ Hlay) in Hprev. injection Hprev as <-.
    rewrite lookup_setitem_same in Hk. injection Hk as <-.
    specialize (Ht _ _ Hl). unfold block_lines in Hb.
    cbn [forallb] in *.
    apply andb_prop in Ht. destruct Ht as [Hh Ht].
    apply andb_prop in Ht. destruct Ht as [Hkey Hls].
    apply andb_prop in Hb. destruct Hb as [_ Hb].
    apply andb_prop in Hb. destruct Hb as [_ Hb].
    rewrite (rebuild_terminated _ _ _ Hlay Hh), Hkey. simpl.
    apply forallb_sort. rewrite forallb_app. now rewrite Hls, Hb.
  - rewrite accumulate_new in Ha by trivial. injection Ha as <-.
    rewrite lookup_setitem_same in Hk. injection Hk as <-. exact Hb.
Qed.

Lemma accumulate_all_terminated (bs : list block) :
  forall (d d' : dict) (n : Z),
    Forall block_ok bs ->
    Forall (fun b => forallb terminated (block_lines b) = true) bs ->
    dict_counted d -> dict_within d n -> dict_terminated d ->
    0 <= n -> n + total_lines bs < 10 ^ 8 ->
    accumulate_all bs d = Ok d' ->
    dict_counted d' /\ dict_terminated d'.
Proof.
  induction bs as [|b bs IH]; intros d d' n Hbs Hls Hd Hn Ht Hn0 Hfit Hall;
    simpl in *.
  - injection Hall as <-. auto.
  - inversion_clear Hbs as [|? ? Hb Hbs']. inversion_clear Hls as [|? ? Hl Hls'].
    pose proof (total_lines_nonneg bs Hbs') as Htot.
    assert (Hc0 : 0 <= atomic_lines b).
    { destruct Hb as [_ <-]. apply len_nonneg. }
    destruct (accumulate_counted b d n Hd Hn Hb Hn0 ltac:(lia))
      as (d1 & Ha & Hd1 & Hn1 & _).
    rewrite Ha in Hall. simpl in Hall.
    apply (IH d1 d' (n + atomic_lines b)); trivial; try lia.
    now apply (accumulate_terminated b d d1).
Qed.

Lemma in_values_lookup (d : dict) (e : entry) :
  NoDup (map fst d) -> In e (values d) -> exists k, lookup k d = Some e.
Proof.
  intros Hnd He. apply in_values in He. destruct He as [k He].
  exists k. now apply In_lookup.
Qed.

Lemma counted_keys (d : dict) :
  NoDup (map fst d) -> dict_counted d -> map key_of (values d) = map fst d.
Proof.
  intros Hnd Hd. unfold values. rewrite map_map. apply map_ext_in.
  intros [k e] Hin. apply In_lookup in Hin; trivial.
  destruct (Hd _ _ Hin) as (h & ls & -> & _). reflexivity.
Qed.

Lemma counted_block_of (d : dict) (e : entry) :
  NoDup (map fst d) -> dict_counted d -> In e (values d) ->
  block_lines (block_of e) = e /\ block_complete (block_of e).
Proof.
  intros Hnd Hd He. destruct (in_values_lookup _ _ Hnd He) as [k Hk].
  destruct (Hd _ _ Hk) as (h & ls & -> & Hlay).
  split; [reflexivity|]. split; [|reflexivity].
  apply layout_declared_count, Hlay.
Qed.

(** The loop over a file made of the blocks stored in [d], in the order in
    which they are written. *)
Lemma walk_output (fuel : nat) (d : dict) :
  NoDup (map fst d) -> dict_counted d -> (length d <= fuel)%nat ->
  walk fuel (output_lines d) 1 []
  = Ok (map (fun b => (atomic_sym b, block_lines b))
          (map block_of (sort list_str_leb (values d)))).
Proof.
  intros Hnd Hd Hfuel.
  set (vs := sort list_str_leb (values d)).
  assert (Hperm : Permutation (values d) vs) by apply sort_perm.
  assert (Hin : forall e, In e vs -> In e (values d))
    by (intros e; apply Permutation_in, Permutation_sym, Hperm).
  assert (Hlines : map block_lines (map block_of vs) = vs).
  { rewrite map_map. rewrite <- (map_id vs) at 2. apply map_ext_in.
    intros e He. apply (counted_block_of d e Hnd Hd (Hin e He)). }
  assert (Hcomplete : Forall block_complete (map block_of vs)).
  { apply Forall_map, Forall_forall. intros e He.
    apply (counted_block_of d e Hnd Hd (Hin e He)). }
  assert (Hkeys : NoDup (map atomic_sym (map block_of vs))).
  { rewrite map_map. change (NoDup (map key_of vs)).
    eapply Permutation_NoDup; [apply Permutation_map, Hperm|].
    now rewrite counted_keys. }
  assert (Hlen : (length (map block_of vs) <= fuel)%nat).
  { rewrite length_map, <- (Permutation_length Hperm). unfold values.
    now rewrite length_map. }
  unfold output_lines. fold vs. rewrite <- Hlines at 1.
  pose proof (reads_at _ Hcomplete [] []) as Hr. simpl in Hr.
  rewrite app_nil_r in Hr.
  replace fuel with (length (map block_of vs) + (fuel - length (map block_of vs)))%nat
    by lia.
  rewrite (walk_reads_bind _ _ _ _ Hr).
  rewrite accumulate_all_fresh; trivial; [|intros b _ []].
  cbn [bind app]. apply walk_done. change (len (@nil str)) with 0. lia.
Qed.

Lemma output_of_output (d : dict) :
  NoDup (map fst d) -> dict_counted d ->
  output_lines (map (fun b => (atomic_sym b, block_lines b))
                  (map block_of (sort list_str_leb (values d))))
  = output_lines d.
Proof.
  intros Hnd Hd. unfold output_lines. rewrite values_fresh.
  assert (Hlines : map block_lines (map block_of (sort list_str_leb (values d)))
                   = sort list_str_leb (values d)).
  { rewrite map_map.
    rewrite <- (map_id (sort list_str_leb (values d))) at 2. apply map_ext_in.
    intros e He. apply (counted_block_of d); trivial.
    eapply Permutation_in; [apply Permutation_sym, sort_perm|exact He]. }
  rewrite Hlines. f_equal. apply sort_idempotent, list_str_leb_total.
Qed.

Lemma output_terminated (d : dict) :
  NoDup (map fst d) -> dict_terminated d ->
  forallb terminated (output_lines d) = true.
Proof.
  intros Hnd Ht. apply forallb_forall. intros l Hl.
  unfold output_lines in Hl. apply in_concat in Hl. destruct Hl as (e & He & Hl).
  apply (Permutation_in _ (Permutation_sym (sort_perm list_str_leb (values d)))) in He.
  destruct (in_values_lookup _ _ Hnd He) as [k Hk].
  specialize (Ht _ _ Hk). rewrite forallb_forall in Ht. auto.
Qed.

(** X9. The file written by a call is a fixed point of the merge: when the
    blocks read have the fixed layout, hold as many lines as they declare
    (fewer than 10^8 together) and every line read ends with its line feed,
    a second call on a folder that holds this file alone writes the same
    lines again. *)
Theorem merging_the_output_changes_nothing
  (fuel fuel' : nat) (input_folder output_file : str) (w w' : world)
  (names : list str) (bss : list (list block))
  (folder' name' output_file' : str) (v : world) :
  listdir w input_folder = Some names ->
  folder_blocks w input_folder names bss ->
  Forall block_ok (concat bss) ->
  Forall (fun b => forallb terminated (block_lines b) = true) (concat bss) ->
  total_lines (concat bss) < 10 ^ 8 ->
  TurboSort fuel input_folder output_file w = (Ok tt, w') ->
  listdir v folder' = Some [name'] ->
  files v (path_join folder' name') = files w' output_file ->
  (length (concat bss) <= fuel')%nat ->
  exists lines,
    w' = write_lines output_file lines w /\
    TurboSort fuel' folder' output_file' v
    = (Ok tt, write_lines output_file' lines v).
Proof.
  intros Hdir Hb Hok Hterm Hfit Hts Hdir' Hfile Hfuel.
  apply TurboSort_Ok_inv in Hts.
  destruct Hts as (names0 & d & Hdir0 & Hread & ->).
  rewrite Hdir in Hdir0. injection Hdir0 as <-.
  destruct (folder_merges _ _ _ _ _ _ Hb Hread) as [Hnd Hm].
  pose proof (read_folder_blocks_inv _ _ _ _ _ Hb _ _ Hread) as Hall.
  destruct (accumulate_all_terminated (concat bss) [] d 0 Hok Hterm) as [Hd Ht];
    trivial; try lia; try (intros k e Hk; discriminate).
  assert (Hsize : (length d <= fuel')%nat).
  { etransitivity; [|exact Hfuel].
    rewrite <- (length_map fst d), <- (length_map atomic_sym (concat bss)).
    apply NoDup_incl_length; trivial.
    intros k Hk. specialize (Hm k).
    destruct (lookup k d) as [e|] eqn:Hl.
    - destruct Hm as (h & ls & _ & _ & H). exact H.
    - apply lookup_None in Hl. tauto. }
  exists (output_lines d). split; [reflexivity|].
  rewrite files_write_lines_same in Hfile.
  unfold TurboSort. rewrite Hdir'. cbn [read_folder]. rewrite Hfile.
  rewrite readlines_concat by now apply output_terminated.
  rewrite walk_output by trivial. cbn [bind].
  now rewrite output_of_output.
Qed.

Lemma merging_the_output_changes_nothing_witness :
  exists lines,
    write_lines (py "out.lst")
      [ li_header; li_key; ln "6707.8 d";
        ln (fe_header "        3"); fe_key;
        ln "4000.1 a"; ln "4500.3 c"; ln "5000.2 b" ] two_files
    = write_lines (py "out.lst") lines two_files /\
    TurboSort 3 [] (py "again.lst")
      (lone_file (py "out.lst")
         (write_lines (py "out.lst")
            [ li_header; li_key; ln "6707.8 d";
              ln (fe_header "        3"); fe_key;
              ln "4000.1 a"; ln "4500.3 c"; ln "5000.2 b" ] two_files))
    = (Ok tt,
       write_lines (py "again.lst") lines
         (lone_file (py "out.lst")
            (write_lines (py "out.lst")
               [ li_header; li_key; ln "6707.8 d";
                 ln (fe_header "        3"); fe_key;
                 ln "4000.1 a"; ln "4500.3 c"; ln "5000.2 b" ] two_files))).
Proof.
  apply (merging_the_output_changes_nothing 10 3 (py "in") (py "out.lst") two_files _
           [py "a.lst"; py "b.lst"] [[fe_block_a]; [fe_block_b; li_block]]
           [] (py "out.lst") (py "again.lst")).
  - reflexivity.
  - constructor; [|constructor; [|constructor]].
    + exists file_a, 5. split; [reflexivity|]. split; [|vm_compute; discriminate].
      eapply reads_block; [reflexivity|vm_compute; reflexivity|apply reads_here].
    + exists file_b, 7. split; [reflexivity|]. split; [|vm_compute; discriminate].
      eapply reads_block; [reflexivity|vm_compute; reflexivity|].
      eapply reads_block; [reflexivity|vm_compute; reflexivity|apply reads_here].
  - repeat constructor;
      try apply (fe_header_layout "         " 2);
      try apply (fe_header_layout "         " 1);
      try apply li_header_layout;
      try discriminate; repeat constructor.
  - repeat constructor.
  - vm_compute. reflexivity.
  - vm_compute. reflexivity.
  - reflexivity.
  - reflexivity.
  - simpl. lia.
Defined.

(* ================================================================= *)
(** ** Sorted lists with the same elements *)

Lemma str_leb_antisym (a b : str) :
  str_leb a b = true -> str_leb b a = true -> a = b.
Proof.
  unfold str_leb. rewrite (str_compare_opp a b). intros H1 H2.
  apply str_compare_eq. destruct (str_compare a b); simpl in *; congruence.
Qed.

Lemma list_str_leb_antisym (a b : list str) :
  list_str_leb a b = true -> list_str_leb b a = true -> a = b.
Proof.
  unfold list_str_leb. rewrite (list_str_compare_opp a b). intros H1 H2.
  apply list_str_compare_eq.
  destruct (list_str_compare a b); simpl in *; congruence.
Qed.

Section SortedFacts.
Context {A : Type} (leb : A -> A -> bool).
Hypothesis leb_total : forall x y, leb x y = false -> leb y x = true.
Hypothesis leb_trans :
  forall x y z, leb x y = true -> leb y z = true -> leb x z = true.
Hypothesis leb_antisym : forall x y, leb x y = true -> leb y x = true -> x = y.

Lemma sorted_perm_eq (l : list A) :
  forall l',
    StronglySorted (fun x y => leb x y = true) l ->
    StronglySorted (fun x y => leb x y = true) l' ->
    Permutation l l' -> l = l'.
Proof.
  induction l as [|x l IH]; intros l' Hl Hl' Hp.
  - apply Permutation_nil in Hp. now subst.
  - destruct l' as [|y l'].
    + apply Permutation_sym, Permutation_nil in Hp. discriminate.
    + apply StronglySorted_inv in Hl, Hl'.
      destruct Hl as [Hl Hx], Hl' as [Hl' Hy].
      rewrite Forall_forall in Hx, Hy.
      assert (E : x = y).
      { destruct (Permutation_in _ Hp (or_introl eq_refl)) as [E|Hin];
          [now symmetry|].
        destruct (Permutation_in _ (Permutation_sym Hp) (or_introl eq_refl))
          as [E|Hin']; [trivial|].
        apply leb_antisym; auto. }
      subst y. f_equal. apply IH; trivial. eapply Permutation_cons_inv, Hp.
Qed.

(** Sorting forgets the order in which the elements came. *)
Lemma sort_of_perm (l l' : list A) :
  Permutation l l' -> sort leb l = sort leb l'.
Proof.
  intros Hp. apply sorted_perm_eq.
  - apply Sorted_StronglySorted; [intros x y z; apply leb_trans|].
    apply sort_sorted, leb_total.
  - apply Sorted_StronglySorted; [intros x y z; apply leb_trans|].
    apply sort_sorted, leb_total.
  - eapply perm_trans; [apply Permutation_sym, sort_perm|].
    eapply perm_trans; [exact Hp|apply sort_perm].
Qed.

End SortedFacts.

Lemma sort_lines_perm (l l' : list str) :
  Permutation l l' -> sort str_leb l = sort str_leb l'.
Proof.
  apply sort_of_perm.
  - apply str_leb_total.
  - apply str_le_trans.
  - apply str_leb_antisym.
Qed.

Lemma sort_blocks_perm (l l' : list entry) :
  Permutation l l' -> sort list_str_leb l = sort list_str_leb l'.
Proof.
  apply sort_of_perm.
  - apply list_str_leb_total.
  - apply list_str_le_trans.
  - apply list_str_leb_antisym.
Qed.

Lemma Permutation_filter {A : Type} (f : A -> bool) (l l' : list A) :
  Permutation l l' -> Permutation (filter f l) (filter f l').
Proof.
  induction 1 as [|x l l' _ IH|x y l|l l' l'' _ IH1 _ IH2]; simpl.
  - constructor.
  - destruct (f x); [now constructor|trivial].
  - destruct (f x), (f y); try apply Permutation_refl. apply perm_swap.
  - eapply perm_trans; eauto.
Qed.

Lemma Permutation_concat {A : Type} (l l' : list (list A)) :
  Permutation l l' -> Permutation (concat l) (concat l').
Proof.
  induction 1 as [|x l l' _ IH|x y l|l l' l'' _ IH1 _ IH2]; simpl.
  - constructor.
  - now apply Permutation_app_head.
  - rewrite !app_assoc. apply Permutation_app_tail, Permutation_app_comm.
  - eapply perm_trans; eauto.
Qed.

Lemma total_lines_perm (bs bs' : list block) :
  Permutation bs bs' -> total_lines bs = total_lines bs'.
Proof.
  induction 1 as [|x l l' _ IH|x y l|l l' l'' _ IH1 _ IH2]; simpl; lia.
Qed.

(* ================================================================= *)
(** ** Headers with spaces before the count *)

Lemma justify_spaced (n : nat) (tok : str) :
  (length tok <= 8)%nat ->
  justify (repeat " "%char (S n) ++ tok ++ [LF])
  = repeat " "%char (9 - length tok) ++ tok ++ [LF].
Proof.
  intros Htok.
  assert (Hlen : length (repeat " "%char (S n) ++ tok ++ [LF])
                 = (S n + length tok + 1)%nat).
  { rewrite !length_app, repeat_length. cbn [length]. lia. }
  destruct (Nat.lt_trichotomy (S n + length tok + 1) 10) as [Hlt|[Heq|Hgt]].
  - rewrite justify_short by lia. rewrite Hlen, app_assoc, <- repeat_app.
    do 2 f_equal. lia.
  - rewrite justify_exact by lia. do 2 f_equal. lia.
  - rewrite justify_long by lia. rewrite Hlen.
    replace (repeat " "%char (S n))
      with (repeat " "%char (S n + length tok + 1 - 10)
            ++ repeat " "%char (9 - length tok))
      by (rewrite <- repeat_app; f_equal; lia).
    rewrite <- app_assoc, skipn_app, repeat_length, Nat.sub_diag.
    rewrite skipn_all2 by (rewrite repeat_length; lia). reflexivity.
Qed.

Lemma rebuild_spaced (start : str) (n : nat) (c c' : Z) :
  length start = 27%nat -> 0 <= c' < 10 ^ 8 ->
  rebuild_header (start ++ repeat " "%char (S n) ++ str_of_int c ++ [LF]) c c'
  = merged_header start c'.
Proof.
  intros Hlen Hc'. unfold rebuild_header, merged_header.
  destruct (layout_parts start (repeat " "%char (S n) ++ str_of_int c ++ [LF]) Hlen)
    as [-> ->].
  rewrite replace_padded; [|apply Forall_repeat_space|repeat constructor].
  rewrite justify_spaced; trivial. now apply str_of_int_length.
Qed.

Lemma spaced_layout (start : str) (n : nat) (c : Z) :
  length start = 27%nat -> length (split start) = 4%nat ->
  header_layout (start ++ repeat " "%char (S n) ++ str_of_int c ++ [LF]) c.
Proof.
  intros Hlen Htok. exists start, (repeat " "%char (S n)), [LF].
  split; [reflexivity|]. split; [trivial|]. split; [trivial|].
  split; [simpl; discriminate|]. split; [apply Forall_repeat_space|].
  split; [repeat constructor|simpl; lia].
Qed.

Lemma merged_header_spaced (start : str) (c : Z) :
  0 <= c < 10 ^ 8 ->
  merged_header start c
  = start ++ repeat " "%char (S (8 - length (str_of_int c)))
    ++ str_of_int c ++ [LF].
Proof.
  intros Hc. unfold merged_header. pose proof (str_of_int_length c Hc).
  do 2 f_equal. f_equal. lia.
Qed.

Lemma merged_header_count (start : str) (c : Z) :
  length start = 27%nat -> length (split start) = 4%nat -> 0 <= c < 10 ^ 8 ->
  declared_count (merged_header start c) = Ok c.
Proof.
  intros Hlen Htok Hc. rewrite merged_header_spaced by trivial.
  now apply layout_declared_count, spaced_layout.
Qed.

Lemma rebuild_merged (start : str) (c c' : Z) :
  length start = 27%nat -> 0 <= c < 10 ^ 8 -> 0 <= c' < 10 ^ 8 ->
  rebuild_header (merged_header start c) c c' = merged_header start c'.
Proof.
  intros Hlen Hc Hc'. rewrite merged_header_spaced by trivial.
  now apply rebuild_spaced.
Qed.

Lemma spaced_nonneg (b : block) : block_spaced b -> 0 <= atomic_lines b.
Proof. intros (n & _ & _ & _ & <-). apply len_nonneg. Qed.

Lemma spaced_ok (b : block) : block_spaced b -> block_ok b.
Proof.
  intros (n & Hh & Hlen & Htok & Hc). split; trivial.
  rewrite Hh. now apply spaced_layout.
Qed.

Lemma spaced_count (b : block) :
  block_spaced b -> declared_count (header b) = Ok (atomic_lines b).
Proof. intros H. apply layout_declared_count, spaced_ok, H. Qed.

Lemma spaced_rebuild (b : block) (c' : Z) :
  block_spaced b -> 0 <= c' < 10 ^ 8 ->
  rebuild_header (header b) (atomic_lines b) c'
  = merged_header (firstn 27 (header b)) c'.
Proof.
  intros (n & Hh & Hlen & _ & _) Hc'. rewrite Hh at 1.
  now apply rebuild_spaced.
Qed.

(* ================================================================= *)
(** ** The accumulator as a function of the blocks read *)

Lemma under_snoc (k : str) (bs : list block) (b : block) :
  under k (bs ++ [b])
  = under k bs ++ (if str_eqb (atomic_sym b) k then [b] else []).
Proof. unfold under. rewrite filter_app. reflexivity. Qed.

Lemma under_In (k : str) (bs : list block) (b : block) :
  In b (under k bs) -> In b bs /\ atomic_sym b = k.
Proof.
  unfold under. rewrite filter_In. intros [H E]. split; trivial.
  now apply str_eqb_eq.
Qed.

Lemma total_lines_under (k : str) (bs : list block) :
  Forall (fun b => 0 <= atomic_lines b) bs ->
  0 <= total_lines (under k bs) <= total_lines bs.
Proof.
  induction 1 as [|b bs Hb _ IH]; simpl; [lia|].
  destruct (str_eqb (atomic_sym b) k); simpl; lia.
Qed.

Lemma total_lines_spaced (bs : list block) :
  Forall block_spaced bs -> 0 <= total_lines bs.
Proof.
  induction 1 as [|b bs Hb _ IH]; simpl; [lia|].
  pose proof (spaced_nonneg b Hb). lia.
Qed.

Lemma merged_many (k : str) (b1 b2 : block) (g : list block) :
  merged k (b1 :: b2 :: g)
  = Some (merged_header (firstn 27 (header b1)) (total_lines (b1 :: b2 :: g))
            :: k :: sort str_leb (flat_map splice (b1 :: b2 :: g))).
Proof. reflexivity. Qed.

(** One more block under its key. *)
Lemma merged_snoc (b : block) (d : dict) (g : list block) :
  Forall block_spaced g -> block_spaced b ->
  (forall b', In b' g -> atomic_sym b' = atomic_sym b) ->
  total_lines g + atomic_lines b < 10 ^ 8 ->
  lookup (atomic_sym b) d = merged (atomic_sym b) g ->
  exists e,
    accumulate b d = Ok (setitem (atomic_sym b) e d) /\
    merged (atomic_sym b) (g ++ [b]) = Some e.
Proof.
  intros Hg Hb Hkey Hfit Hl.
  pose proof (spaced_nonneg b Hb) as Hc0.
  pose proof (total_lines_spaced g Hg) as Hg0.
  destruct g as [|b1 [|b2 g2]].
  - exists (block_lines b). split; [|reflexivity]. now apply accumulate_new.
  - inversion_clear Hg as [|? ? Hb1 _].
    pose proof (spaced_nonneg b1 Hb1) as Hc1.
    simpl in Hfit, Hl. unfold block_lines in Hl.
    rewrite (accumulate_merge b d _ _ _ _ Hl (spaced_count b1 Hb1)).
    eexists. split; [reflexivity|].
    change ([b1] ++ [b]) with [b1; b]. rewrite merged_many. do 2 f_equal.
    + rewrite spaced_rebuild by (trivial; lia). f_equal. simpl. lia.
    + f_equal; [symmetry; apply Hkey; now left|].
      simpl. now rewrite app_nil_r.
  - rewrite merged_many in Hl.
    set (g := b1 :: b2 :: g2) in *.
    assert (Hb1 : block_spaced b1) by (inversion Hg; trivial).
    destruct Hb1 as (n & _ & Hlen & Htok & _).
    rewrite (accumulate_merge b d _ _ _ (total_lines g) Hl)
      by (apply merged_header_count; trivial; lia).
    eexists. split; [reflexivity|].
    change (g ++ [b]) with (b1 :: b2 :: (g2 ++ [b])). rewrite merged_many.
    change (b1 :: b2 :: (g2 ++ [b])) with (g ++ [b]). do 2 f_equal.
    + rewrite rebuild_merged by (trivial; lia). f_equal.
      rewrite total_lines_app. simpl. lia.
    + f_equal. apply sort_lines_perm. rewrite flat_map_app. simpl.
      rewrite app_nil_r. apply Permutation_app_tail, sort_perm.
Qed.

Lemma accumulate_merged (b : block) (d : dict) (bs : list block) :
  Forall block_spaced (bs ++ [b]) ->
  total_lines (bs ++ [b]) < 10 ^ 8 ->
  dict_merged d bs ->
  exists d', accumulate b d = Ok d' /\ dict_merged d' (bs ++ [b]).
Proof.
  intros Hsp Hfit Hd.
  apply Forall_app in Hsp. destruct Hsp as [Hbs Hb].
  inversion_clear Hb as [|? ? Hb' _].
  assert (Hnn : Forall (fun b => 0 <= atomic_lines b) bs).
  { eapply Forall_impl; [|exact Hbs]. apply spaced_nonneg. }
  pose proof (total_lines_under (atomic_sym b) bs Hnn) as Hu.
  rewrite total_lines_app in Hfit. simpl in Hfit.
  destruct (merged_snoc b d (under (atomic_sym b) bs)) as (e & Ha & He);
    trivial; try lia.
  - apply Forall_forall. intros b' Hb'0. apply under_In in Hb'0.
    rewrite Forall_forall in Hbs. now apply Hbs.
  - intros b' Hb'0. now apply under_In in Hb'0.
  - exists (setitem (atomic_sym b) e d). split; trivial.
    intros k. rewrite under_snoc.
    destruct (list_eq_dec ascii_dec k (atomic_sym b)) as [->|Hne].
    + now rewrite lookup_setitem_same, str_eqb_refl.
    + rewrite lookup_setitem_other by trivial.
      assert (E : str_eqb (atomic_sym b) k = false)
        by (apply str_eqb_neq; congruence).
      rewrite E, app_nil_r. apply Hd.
Qed.

Lemma accumulate_all_merged (bs : list block) :
  forall (pre : list block) (d : dict),
    Forall block_spaced (pre ++ bs) -> total_lines (pre ++ bs) < 10 ^ 8 ->
    dict_merged d pre ->
    exists d', accumulate_all bs d = Ok d' /\ dict_merged d' (pre ++ bs).
Proof.
  induction bs as [|b bs IH]; intros pre d Hsp Hfit Hd.
  - exists d. rewrite app_nil_r. auto.
  - assert (E : pre ++ b :: bs = (pre ++ [b]) ++ bs)
      by (rewrite <- app_assoc; reflexivity).
    rewrite E in *.
    assert (Hrest : 0 <= total_lines bs).
    { apply total_lines_spaced. apply Forall_app in Hsp. tauto. }
    destruct (accumulate_merged b d pre) as (d1 & Ha & Hd1); trivial.
    + apply Forall_app in Hsp. tauto.
    + rewrite total_lines_app in Hfit. lia.
    + destruct (IH (pre ++ [b]) d1 Hsp Hfit Hd1) as (d' & Hall & Hd').
      exists d'. simpl. rewrite Ha. auto.
Qed.

Lemma merged_perm (k : str) (g g' : list block) :
  Permutation g g' ->
  (forall b b', In b g -> In b' g ->
                firstn 27 (header b) = firstn 27 (header b')) ->
  merged k g = merged k g'.
Proof.
  intros Hp Hsame.
  destruct g as [|b1 [|b2 g2]].
  - apply Permutation_nil in Hp. now subst.
  - apply Permutation_length_1_inv in Hp. now subst.
  - pose proof (Permutation_length Hp) as Hlen.
    destruct g' as [|b1' [|b2' g2']]; try discriminate.
    rewrite !merged_many. do 2 f_equal.
    + f_equal.
      * apply Hsame; [now left|].
        apply (Permutation_in _ (Permutation_sym Hp)). now left.
      * now apply total_lines_perm.
    + f_equal. apply sort_lines_perm. now apply Permutation_flat_map.
Qed.

Lemma lookup_ext_perm (d d' : dict) :
  NoDup (map fst d) -> NoDup (map fst d') ->
  (forall k, lookup k d = lookup k d') -> Permutation d d'.
Proof.
  intros Hnd Hnd' H. apply NoDup_Permutation.
  - eapply NoDup_map_inv, Hnd.
  - eapply NoDup_map_inv, Hnd'.
  - intros [k e]. split; intros Hin; apply lookup_In.
    + rewrite <- H. now apply In_lookup.
    + rewrite H. now apply In_lookup.
Qed.

(** The blocks in another order leave the same lines to write. *)
Lemma accumulate_all_perm (bs bs' : list block) :
  Permutation bs bs' ->
  Forall block_spaced bs -> same_prefix bs -> total_lines bs < 10 ^ 8 ->
  exists d d',
    accumulate_all bs [] = Ok d /\ accumulate_all bs' [] = Ok d' /\
    output_lines d = output_lines d'.
Proof.
  intros Hp Hsp Hsame Hfit.
  assert (Hempty : dict_merged [] []) by (intros k; reflexivity).
  destruct (accumulate_all_merged bs [] [] Hsp Hfit Hempty) as (d & Hall & Hd).
  destruct (accumulate_all_merged bs' [] []) as (d' & Hall' & Hd'); trivial.
  { simpl. eapply Permutation_Forall; eauto. }
  { simpl. now rewrite <- (total_lines_perm _ _ Hp). }
  exists d, d'. split; trivial. split; trivial.
  assert (Hstart : NoDup (map fst (@nil (str * entry))) /\ dict_merges [] []).
  { split; [constructor|]. intros k. simpl. tauto. }
  destruct Hstart as [Hnd0 Hm0].
  destruct (accumulate_all_merges _ _ _ _ Hall Hnd0 Hm0) as [Hnd _].
  destruct (accumulate_all_merges _ _ _ _ Hall' Hnd0 Hm0) as [Hnd' _].
  unfold output_lines. f_equal. apply sort_blocks_perm.
  unfold values. apply Permutation_map, lookup_ext_perm; trivial.
  intros k. rewrite (Hd k), (Hd' k). simpl.
  apply merged_perm; [now apply Permutation_filter|].
  intros b b' Hb Hb'. apply under_In in Hb, Hb'.
  apply Hsame; try tauto. destruct Hb as [_ ->], Hb' as [_ ->]. reflexivity.
Qed.

(** X10. The order in which [os.listdir] names the files does not change
    what is written, for blocks as a fixed format writes them (27
    characters, spaces, the count, a line feed, and as many lines as the
    count says, fewer than 10^8 together) whose headers start with the same
    27 characters under one key: listed in any order, the same files give
    the same lines. *)
Theorem listing_order_is_irrelevant
  (fuel : nat) (input_folder output_file : str) (w w' : world)
  (names names' : list str) (bss : list (list block)) :
  (forall p, files w' p = files w p) ->
  listdir w input_folder = Some names ->
  listdir w' input_folder = Some names' ->
  Permutation names names' ->
  folder_blocks w input_folder names bss ->
  Forall (fun bs => (length bs <= fuel)%nat) bss ->
  Forall block_spaced (concat bss) ->
  same_prefix (concat bss) ->
  total_lines (concat bss) < 10 ^ 8 ->
  exists lines,
    TurboSort fuel input_folder output_file w
    = (Ok tt, write_lines output_file lines w) /\
    TurboSort fuel input_folder output_file w'
    = (Ok tt, write_lines output_file lines w').
Proof.
  intros Hfiles Hdir Hdir' Hp Hb Hfuel Hsp Hsame Hfit.
  destruct (Permutation_Forall2 Hp Hb) as (bss' & Hpb & Hb').
  assert (Hb'' : folder_blocks w' input_folder names' bss').
  { eapply Forall2_impl; [|exact Hb'].
    intros name bs (text & p & Htext & Hr). exists text, p.
    now rewrite Hfiles. }
  assert (Hfuel' : Forall (fun bs => (length bs <= fuel)%nat) bss')
    by (eapply Permutation_Forall; eauto).
  destruct (accumulate_all_perm (concat bss) (concat bss'))
    as (d & d' & Hall & Hall' & Hout); trivial.
  { now apply Permutation_concat. }
  exists (output_lines d). unfold TurboSort. rewrite Hdir, Hdir'.
  rewrite (read_folder_blocks _ _ _ _ _ Hb Hfuel _ _ Hall).
  rewrite (read_folder_blocks _ _ _ _ _ Hb'' Hfuel' _ _ Hall').
  now rewrite Hout.
Qed.

Lemma listing_order_is_irrelevant_witness :
  exists lines,
    TurboSort 2 (py "in") (py "out.lst") two_files
    = (Ok tt, write_lines (py "out.lst") lines two_files) /\
    TurboSort 2 (py "in") (py "out.lst") two_files_reversed
    = (Ok tt, write_lines (py "out.lst") lines two_files_reversed).
Proof.
  apply (listing_order_is_irrelevant 2 (py "in") (py "out.lst")
           two_files two_files_reversed
           [py "a.lst"; py "b.lst"] [py "b.lst"; py "a.lst"]
           [[fe_block_a]; [fe_block_b; li_block]]).
  - reflexivity.
  - reflexivity.
  - reflexivity.
  - apply perm_swap.
  - constructor; [|constructor; [|constructor]].
    + exists file_a, 5. split; [reflexivity|]. split; [|vm_compute; discriminate].
      eapply reads_block; [reflexivity|vm_compute; reflexivity|apply reads_here].
    + exists file_b, 7. split; [reflexivity|]. split; [|vm_compute; discriminate].
      eapply reads_block; [reflexivity|vm_compute; reflexivity|].
      eapply reads_block; [reflexivity|vm_compute; reflexivity|apply reads_here].
  - repeat constructor.
  - repeat constructor; exists 8%nat; repeat split.
  - intros b b' Hb Hb' Hk.
    destruct Hb as [<-|[<-|[<-|[]]]]; destruct Hb' as [<-|[<-|[<-|[]]]];
      try reflexivity; vm_compute in Hk; discriminate.
  - vm_compute. reflexivity.
Defined.

(** Without a common start of the headers under one key, the order of the
    listing shows in the output: the header written is the one of the file
    listed first. *)
Example listing_order_shows_without_common_prefix :
  TurboSort 2 (py "in") (py "out.lst") prefix_files
  = (Ok tt,
     write_lines (py "out.lst")
       [ln "'  26.0000           '    1        2"; fe_key;
        ln "4500.3 c"; ln "4500.3 c"] prefix_files) /\
  TurboSort 2 (py "in") (py "out.lst") prefix_files_reversed
  = (Ok tt,
     write_lines (py "out.lst")
       [ln "'  26.0000           '    2        2"; fe_key;
        ln "4500.3 c"; ln "4500.3 c"] prefix_files_reversed).
Proof. split; vm_compute; reflexivity. Qed.

(* ================================================================= *)
(** ** A key that is read once *)

Lemma accumulate_all_other (bs : list block) (k : str) :
  forall d d',
    under k bs = [] -> accumulate_all bs d = Ok d' -> lookup k d' = lookup k d.
Proof.
  induction bs as [|b0 bs IH]; intros d d' Hu Hall; simpl in Hall.
  - now injection Hall as <-.
  - invert_bind Hall. unfold under in Hu. simpl in Hu.
    destruct (str_eqb (atomic_sym b0) k) eqn:E; [discriminate|].
    apply str_eqb_neq in E.
    rewrite (IH _ _ Hu Hall). eapply accumulate_other; eauto.
Qed.

Lemma accumulate_all_once (bs : list block) (k : str) (b : block) :
  forall d d',
    under k bs = [b] -> lookup k d = None ->
    accumulate_all bs d = Ok d' -> lookup k d' = Some (block_lines b).
Proof.
  induction bs as [|b0 bs IH]; intros d d' Hu Hk Hall; simpl in Hall.
  - discriminate.
  - invert_bind Hall. unfold under in Hu. simpl in Hu.
    destruct (str_eqb (atomic_sym b0) k) eqn:E.
    + apply str_eqb_eq in E. injection Hu as -> Hu. subst k.
      rewrite accumulate_new in Hx by trivial. injection Hx as <-.
      rewrite (accumulate_all_other _ _ _ _ Hu Hall).
      apply lookup_setitem_same.
    + apply str_eqb_neq in E. apply (IH x d'); trivial.
      rewrite (accumulate_other _ _ _ _ Hx) by congruence. exact Hk.
Qed.

(** X11. A key that is read once in all the files has its block written
    as it was read: the header is not rebuilt and the lines keep the order
    of their file, sorted or not; lines are sorted only where two blocks
    are merged. *)
Theorem block_read_once_is_written_as_read
  (fuel : nat) (input_folder output_file : str) (w w' : world)
  (names : list str) (bss : list (list block)) (k : str) (b : block) :
  listdir w input_folder = Some names ->
  folder_blocks w input_folder names bss ->
  under k (concat bss) = [b] ->
  TurboSort fuel input_folder output_file w = (Ok tt, w') ->
  exists blocks,
    files w' output_file = Some (concat (concat blocks)) /\
    In (header b :: atomic_sym b :: splice b) blocks.
Proof.
  intros Hdir Hb Hu Hts. apply TurboSort_Ok_inv in Hts.
  destruct Hts as (names' & d & Hdir' & Hread & ->).
  rewrite Hdir in Hdir'. injection Hdir' as <-.
  pose proof (read_folder_blocks_inv _ _ _ _ _ Hb _ _ Hread) as Hall.
  pose proof (accumulate_all_once _ _ _ [] d Hu eq_refl Hall) as Hl.
  exists (sort list_str_leb (values d)). split; [apply files_write_lines_same|].
  apply (Permutation_in _ (sort_perm list_str_leb (values d))).
  apply in_values. exists k. now apply lookup_In.
Qed.

Lemma block_read_once_is_written_as_read_witness :
  exists blocks,
    files (write_lines (py "out.lst")
             [ li_header; li_key; ln "6707.8 d";
               ln (fe_header "         2"); fe_key; ln "5000.2 b"; ln "4000.1 a" ]
             (folder_of file_a file_li)) (py "out.lst")
    = Some (concat (concat blocks)) /\
    In (header fe_block_a :: atomic_sym fe_block_a :: splice fe_block_a) blocks.
Proof.
  apply (block_read_once_is_written_as_read 10 (py "in") (py "out.lst")
           (folder_of file_a file_li) _
           [py "a.lst"; py "b.lst"] [[fe_block_a]; [li_block]] fe_key).
  - reflexivity.
  - constructor; [|constructor; [|constructor]].
    + exists file_a, 5. split; [reflexivity|]. split; [|vm_compute; discriminate].
      eapply reads_block; [reflexivity|vm_compute; reflexivity|apply reads_here].
    + exists file_li, 4. split; [reflexivity|]. split; [|vm_compute; discriminate].
      eapply reads_block; [reflexivity|vm_compute; reflexivity|apply reads_here].
  - reflexivity.
  - vm_compute. reflexivity.
Defined.

(* ================================================================= *)
(** ** The blocks of the written file *)

(** The loop reads a file in one way only. *)
Lemma reads_functional (lines : list str) (p p1 : Z) (bs1 : list block) :
  reads lines p bs1 p1 -> len lines <= p1 ->
  forall bs2 p2, reads lines p bs2 p2 -> len lines <= p2 -> bs1 = bs2 /\ p1 = p2.
Proof.
  induction 1 as [p|p next p1 b bs1 Hlt Hrd _ IH]; intros Hend bs2 p2 H2 Hend2.
  - destruct H2 as [|? ? ? ? ? Hlt2]; [auto|lia].
  - destruct H2 as [|? next2 ? b2 ? _ Hrd2 H2]; [lia|].
    rewrite Hrd in Hrd2. injection Hrd2 as <- <-.
    destruct (IH Hend _ _ H2 Hend2) as [-> ->]. auto.
Qed.

Lemma under_absent (k : str) (bs : list block) :
  ~ In k (map atomic_sym bs) -> under k bs = [].
Proof.
  unfold under. induction bs as [|b bs IH]; simpl; intros Hk; trivial.
  destruct (str_eqb (atomic_sym b) k) eqn:E.
  - apply str_eqb_eq in E. tauto.
  - apply IH. tauto.
Qed.

Lemma under_unique (k : str) (bs : list block) (b : block) :
  NoDup (map atomic_sym bs) -> In b bs -> atomic_sym b = k -> under k bs = [b].
Proof.
  intros Hnd Hin <-. induction bs as [|b0 bs IH]; [destruct Hin|].
  simpl in Hnd. inversion_clear Hnd as [|? ? Hb0 Hnd'].
  unfold under. simpl. destruct Hin as [->|Hin].
  - rewrite str_eqb_refl. f_equal. now apply under_absent.
  - assert (E : str_eqb (atomic_sym b0) (atomic_sym b) = false).
    { apply str_eqb_neq. intros E. apply Hb0. rewrite E. now apply in_map. }
    rewrite E. now apply IH.
Qed.

Lemma output_reads (d : dict) :
  NoDup (map fst d) -> dict_counted d ->
  reads (output_lines d) 1 (map block_of (sort list_str_leb (values d)))
        (1 + len (output_lines d)).
Proof.
  intros Hnd Hd.
  set (vs := sort list_str_leb (values d)).
  assert (Hin : forall e, In e vs -> In e (values d))
    by (intros e; apply Permutation_in, Permutation_sym, sort_perm).
  assert (Hlines : map block_lines (map block_of vs) = vs).
  { rewrite map_map. rewrite <- (map_id vs) at 2. apply map_ext_in.
    intros e He. apply (counted_block_of d e Hnd Hd (Hin e He)). }
  assert (Hcomplete : Forall block_complete (map block_of vs)).
  { apply Forall_map, Forall_forall. intros e He.
    apply (counted_block_of d e Hnd Hd (Hin e He)). }
  pose proof (reads_at _ Hcomplete [] []) as Hr.
  rewrite Hlines in Hr. cbn [app] in Hr. rewrite app_nil_r in Hr.
  change (len (@nil str)) with 0 in Hr. rewrite Z.add_0_r in Hr. exact Hr.
Qed.

Lemma output_keys (d : dict) :
  NoDup (map fst d) -> dict_counted d ->
  Permutation (map fst d)
    (map atomic_sym (map block_of (sort list_str_leb (values d)))).
Proof.
  intros Hnd Hd. rewrite map_map. change (fun x => atomic_sym (block_of x)) with key_of.
  rewrite <- (counted_keys d Hnd Hd). apply Permutation_map, sort_perm.
Qed.

(** What a completed call has written, when the blocks read have the
    fixed layout and terminated lines. *)
Lemma written_blocks
  (fuel : nat) (input_folder output_file : str) (w w' : world)
  (names : list str) (bss : list (list block)) :
  listdir w input_folder = Some names ->
  folder_blocks w input_folder names bss ->
  Forall block_ok (concat bss) ->
  Forall (fun b => forallb terminated (block_lines b) = true) (concat bss) ->
  total_lines (concat bss) < 10 ^ 8 ->
  TurboSort fuel input_folder output_file w = (Ok tt, w') ->
  exists d,
    files w' output_file = Some (concat (output_lines d)) /\
    readlines (concat (output_lines d)) = output_lines d /\
    NoDup (map fst d) /\ dict_counted d /\ dict_merges d (concat bss).
Proof.
  intros Hdir Hb Hok Hterm Hfit Hts.
  apply TurboSort_Ok_inv in Hts.
  destruct Hts as (names0 & d & Hdir0 & Hread & ->).
  rewrite Hdir in Hdir0. injection Hdir0 as <-.
  destruct (folder_merges _ _ _ _ _ _ Hb Hread) as [Hnd Hm].
  pose proof (read_folder_blocks_inv _ _ _ _ _ Hb _ _ Hread) as Hall.
  destruct (accumulate_all_terminated (concat bss) [] d 0 Hok Hterm) as [Hd Ht];
    trivial; try lia; try (intros k e Hk; discriminate).
  exists d. split; [apply files_write_lines_same|].
  split; [now apply readlines_concat, output_terminated|]. auto.
Qed.

(** X7. When the blocks read have the fixed layout, hold as many lines as
    they declare (fewer than 10^8 together) and every line read ends with
    its line feed, the file written by a call that completes is made of
    blocks, as the loop of lines 77-84 reads them from its lines up to its
    end, and for every key the lines under this key in the written file are
    exactly the lines read under it in all the files, as a multiset: no
    line is lost, none is written twice, none moves to another key. *)
Theorem each_block_holds_the_lines_of_its_key
  (fuel : nat) (input_folder output_file : str) (w w' : world)
  (names : list str) (bss : list (list block)) :
  listdir w input_folder = Some names ->
  folder_blocks w input_folder names bss ->
  Forall block_ok (concat bss) ->
  Forall (fun b => forallb terminated (block_lines b) = true) (concat bss) ->
  total_lines (concat bss) < 10 ^ 8 ->
  TurboSort fuel input_folder output_file w = (Ok tt, w') ->
  exists text,
    files w' output_file = Some text /\
    (exists out p, reads (readlines text) 1 out p /\ len (readlines text) <= p) /\
    forall out p,
      reads (readlines text) 1 out p -> len (readlines text) <= p ->
      forall k, Permutation (lines_read k (concat bss)) (lines_read k out).
Proof.
  intros Hdir Hb Hok Hterm Hfit Hts.
  destruct (written_blocks _ _ _ _ _ _ _ Hdir Hb Hok Hterm Hfit Hts)
    as (d & Hfile & Hlines & Hnd & Hd & Hm).
  exists (concat (output_lines d)).
  rewrite Hlines. split; trivial.
  pose proof (output_reads d Hnd Hd) as Hout.
  split; [do 2 eexists; split; [exact Hout|lia]|].
  intros out p Hr Hp k.
  destruct (reads_functional _ _ _ _ Hr Hp _ _ Hout ltac:(lia)) as [-> _].
  pose proof (output_keys d Hnd Hd) as Hkeys.
  specialize (Hm k). destruct (lookup k d) as [e|] eqn:Hl.
  - destruct Hm as (h & ls & -> & Hperm & _).
    change (lines_read k (map block_of (sort list_str_leb (values d))))
      with (flat_map splice (under k (map block_of (sort list_str_leb (values d))))).
    rewrite (under_unique k _ (block_of (h :: k :: ls))).
    + simpl. now rewrite app_nil_r.
    + eapply Permutation_NoDup; eauto.
    + apply in_map. apply (Permutation_in _ (sort_perm list_str_leb (values d))).
      apply in_values. exists k. now apply lookup_In.
    + reflexivity.
  - rewrite !lines_read_absent; trivial.
    intros Hin. apply (Permutation_in _ (Permutation_sym Hkeys)) in Hin.
    apply lookup_None in Hl. tauto.
Qed.

Lemma each_block_holds_the_lines_of_its_key_witness :
  exists text,
    files (write_lines (py "out.lst")
             [ li_header; li_key; ln "6707.8 d";
               ln (fe_header "        3"); fe_key;
               ln "4000.1 a"; ln "4500.3 c"; ln "5000.2 b" ] two_files) (py "out.lst")
    = Some text /\
    (exists out p, reads (readlines text) 1 out p /\ len (readlines text) <= p) /\
    forall out p,
      reads (readlines text) 1 out p -> len (readlines text) <= p ->
      forall k,
        Permutation (lines_read k (concat [[fe_block_a]; [fe_block_b; li_block]]))
                    (lines_read k out).
Proof.
  apply (each_block_holds_the_lines_of_its_key 10 (py "in") (py "out.lst") two_files _
           [py "a.lst"; py "b.lst"] [[fe_block_a]; [fe_block_b; li_block]]).
  - reflexivity.
  - constructor; [|constructor; [|constructor]].
    + exists file_a, 5. split; [reflexivity|]. split; [|vm_compute; discriminate].
      eapply reads_block; [reflexivity|vm_compute; reflexivity|apply reads_here].
    + exists file_b, 7. split; [reflexivity|]. split; [|vm_compute; discriminate].
      eapply reads_block; [reflexivity|vm_compute; reflexivity|].
      eapply reads_block; [reflexivity|vm_compute; reflexivity|apply reads_here].
  - repeat constructor;
      try apply (fe_header_layout "         " 2);
      try apply (fe_header_layout "         " 1);
      try apply li_header_layout;
      try discriminate; repeat constructor.
  - repeat constructor.
  - vm_compute. reflexivity.
  - vm_compute. reflexivity.
Defined.

(** X8. Under the same conditions, the blocks that the loop of lines 77-84
    reads from the written file, up to its end, have pairwise distinct keys,
    and these are exactly the keys read in the input files: every key read
    heads one block of the written file, whatever the number of blocks read
    under it. *)
Theorem each_key_is_written_once
  (fuel : nat) (input_folder output_file : str) (w w' : world)
  (names : list str) (bss : list (list block)) :
  listdir w input_folder = Some names ->
  folder_blocks w input_folder names bss ->
  Forall block_ok (concat bss) ->
  Forall (fun b => forallb terminated (block_lines b) = true) (concat bss) ->
  total_lines (concat bss) < 10 ^ 8 ->
  TurboSort fuel input_folder output_file w = (Ok tt, w') ->
  exists text,
    files w' output_file = Some text /\
    (exists out p, reads (readlines text) 1 out p /\ len (readlines text) <= p) /\
    forall out p,
      reads (readlines text) 1 out p -> len (readlines text) <= p ->
      NoDup (map atomic_sym out) /\
      forall k, In k (map atomic_sym out) <-> In k (map atomic_sym (concat bss)).
Proof.
  intros Hdir Hb Hok Hterm Hfit Hts.
  destruct (written_blocks _ _ _ _ _ _ _ Hdir Hb Hok Hterm Hfit Hts)
    as (d & Hfile & Hlines & Hnd & Hd & Hm).
  exists (concat (output_lines d)).
  rewrite Hlines. split; trivial.
  pose proof (output_reads d Hnd Hd) as Hout.
  split; [do 2 eexists; split; [exact Hout|lia]|].
  intros out p Hr Hp.
  destruct (reads_functional _ _ _ _ Hr Hp _ _ Hout ltac:(lia)) as [-> _].
  pose proof (output_keys d Hnd Hd) as Hkeys.
  split; [eapply Permutation_NoDup; eauto|].
  intros k. specialize (Hm k). split; intros Hin.
  - apply (Permutation_in _ (Permutation_sym Hkeys)) in Hin.
    destruct (lookup k d) as [e|] eqn:Hl.
    + destruct Hm as (h & ls & _ & _ & H). exact H.
    + apply lookup_None in Hl. tauto.
  - apply (Permutation_in _ Hkeys).
    destruct (lookup k d) as [e|] eqn:Hl; [|tauto].
    apply lookup_In in Hl. apply in_map_iff. exists (k, e). auto.
Qed.

Lemma each_key_is_written_once_witness :
  exists text,
    files (write_lines (py "out.lst")
             [ li_header; li_key; ln "6707.8 d";
               ln (fe_header "        3"); fe_key;
               ln "4000.1 a"; ln "4500.3 c"; ln "5000.2 b" ] two_files) (py "out.lst")
    = Some text /\
    (exists out p, reads (readlines text) 1 out p /\ len (readlines text) <= p) /\
    forall out p,
      reads (readlines text) 1 out p -> len (readlines text) <= p ->
      NoDup (map atomic_sym out) /\
      forall k, In k (map atomic_sym out)
                <-> In k (map atomic_sym (concat [[fe_block_a]; [fe_block_b; li_block]])).
Proof.
  apply (each_key_is_written_once 10 (py "in") (py "out.lst") two_files _
           [py "a.lst"; py "b.lst"] [[fe_block_a]; [fe_block_b; li_block]]).
  - reflexivity.
  - constructor; [|constructor; [|constructor]].
    + exists file_a, 5. split; [reflexivity|]. split; [|vm_compute; discriminate].
      eapply reads_block; [reflexivity|vm_compute; reflexivity|apply reads_here].
    + exists file_b, 7. split; [reflexivity|]. split; [|vm_compute; discriminate].
      eapply reads_block; [reflexivity|vm_compute; reflexivity|].
      eapply reads_block; [reflexivity|vm_compute; reflexivity|apply reads_here].
  - repeat constructor;
      try apply (fe_header_layout "         " 2);
      try apply (fe_header_layout "         " 1);
      try apply li_header_layout;
      try discriminate; repeat constructor.
  - repeat constructor.
  - vm_compute. reflexivity.
  - vm_compute. reflexivity.
Defined.
